(** * Portfolio AI agents: job search, chat, reminders and notification senders

    A shallow embedding of

      - [src/lib/email.ts] ([sendMail]) and [src/lib/sms.ts] ([sendSMS]),
      - [src/server/ai/agents/job-agent.ts] ([searchJobs], [distributeResume]),
      - the chat agent ([processChatMessage], [getChatHistory]),
      - the content agent's [generateReminders] and
        [sendReminderNotifications],
      - the entities of [prisma/schema.prisma] those functions touch,

    together with the JavaScript built-ins they rely on
    ([String.prototype.replace] with the fence pattern, [String.prototype.trim]
    and [JSON.parse]).

    Conventions.
      - A JavaScript string is a list of UTF-16 code units ([jsstring]).
      - An ObjectId is a 12-byte number; identifiers are values of [N].
      - A [DateTime] is a number of milliseconds since the epoch ([Z]).
      - A number read by [JSON.parse] is kept as its literal: the double it
        denotes is a function of the literal.
      - Asynchronous functions are run to completion one after the other, so
        [await] is sequencing in a state-and-exception monad over [World].
      - The store is reachable: a Prisma call fails only for the reasons the
        client documents (invalid data, record to update not found).
      - The audit columns [createdAt], [updatedAt] and [timestamp] are
        maintained by the store; they are left out of the records.  The two
        functions that read one ([generateReminders] reads [updatedAt],
        [getChatHistory] orders by [timestamp]) take the column beside the
        store ([Audit], [Timeline]).  Console output is not an effect of the
        model.
      - A query with [orderBy] returns records with equal keys in insertion
        order.
      - The resume distributions are a collection of their own, kept beside
        the world in a [Ledger]. *)

From Stdlib Require Import List NArith ZArith Bool Lia String Ascii Arith.
From Stdlib Require DecimalString.
From Stdlib Require Import Permutation Sorted.
Import ListNotations.

Set Warnings "-register-all".
Set Implicit Arguments.
Unset Strict Implicit.

(* ================================================================= *)
(** ** JavaScript strings *)

Module Js.

Definition jsstring := list N.

(** The code units of an ASCII literal of the source. *)
Definition lit (s : string) : jsstring :=
  map N_of_ascii (list_ascii_of_string s).
Arguments lit s%_string.

Definition jsstring_eqb (a b : jsstring) : bool :=
  if list_eq_dec N.eq_dec a b then true else false.

(** Code units the functions below test for. *)
Definition c_tab : N := 9.
Definition c_lf : N := 10.
Definition c_cr : N := 13.
Definition c_space : N := 32.
Definition c_quote : N := 34.      (* the double quote *)
Definition c_plus : N := 43.
Definition c_comma : N := 44.
Definition c_minus : N := 45.
Definition c_dot : N := 46.
Definition c_slash : N := 47.
Definition c_colon : N := 58.
Definition c_lbracket : N := 91.
Definition c_backslash : N := 92.
Definition c_rbracket : N := 93.
Definition c_backtick : N := 96.
Definition c_lbrace : N := 123.
Definition c_rbrace : N := 125.

(** [Number.prototype.toString] on an integer, as a template literal
    renders a length or an [Int] column. *)
Definition show_Z (z : Z) : jsstring :=
  lit (DecimalString.NilZero.string_of_int (Z.to_int z)).

Definition show_nat (n : nat) : jsstring := show_Z (Z.of_nat n).

(** [Array.prototype.join]. *)
Fixpoint join (sep : jsstring) (l : list jsstring) : jsstring :=
  match l with
  | [] => []
  | [x] => x
  | x :: r => x ++ sep ++ join sep r
  end.

(** [p] is a prefix of [s]. *)
Fixpoint starts_with (p s : jsstring) : bool :=
  match p, s with
  | [], _ => true
  | _ :: _, [] => false
  | a :: p', b :: s' => N.eqb a b && starts_with p' s'
  end.

(** *** [text.replace(/```json|```/g, "")] *)

Definition fence : jsstring := [c_backtick; c_backtick; c_backtick].
Definition fence_json : jsstring := fence ++ lit "json".

(** The global replace scans left to right; at each position the first
    alternative is tried first, a match is deleted and scanning resumes
    after it.  [skip] is the number of code units of the current match
    that are still to be dropped. *)
Fixpoint strip_fences_from (skip : nat) (s : jsstring) : jsstring :=
  match s with
  | [] => []
  | c :: r =>
      match skip with
      | S k => strip_fences_from k r
      | O =>
          if starts_with fence_json s then strip_fences_from 6 r
          else if starts_with fence s then strip_fences_from 2 r
          else c :: strip_fences_from 0 r
      end
  end.

Definition strip_fences (s : jsstring) : jsstring := strip_fences_from 0 s.

(** [s] has no run of three backticks. *)
Fixpoint no_fence (s : jsstring) : bool :=
  match s with
  | [] => true
  | _ :: r => negb (starts_with fence s) && no_fence r
  end.

(** *** [text.replace(/\n/g, '<br>')] *)

Fixpoint newlines_to_br (s : jsstring) : jsstring :=
  match s with
  | [] => []
  | c :: r => (if N.eqb c c_lf then lit "<br>" else [c]) ++ newlines_to_br r
  end.

(** *** [String.prototype.trim] *)

(** WhiteSpace and LineTerminator of ECMA-262. *)
Definition js_whitespace : list N :=
  [ 9; 10; 11; 12; 13; 32; 160; 5760;
    8192; 8193; 8194; 8195; 8196; 8197; 8198; 8199; 8200; 8201; 8202;
    8232; 8233; 8239; 8287; 12288; 65279 ]%N.

Definition is_js_ws (c : N) : bool := existsb (N.eqb c) js_whitespace.

(** [s] is made of white space. *)
Definition all_ws (s : jsstring) : Prop :=
  Forall (fun c => is_js_ws c = true) s.

Fixpoint trim_start (s : jsstring) : jsstring :=
  match s with
  | [] => []
  | c :: r => if is_js_ws c then trim_start r else s
  end.

Definition trim_end (s : jsstring) : jsstring := rev (trim_start (rev s)).

Definition trim (s : jsstring) : jsstring := trim_end (trim_start s).

(* ================================================================= *)
(** ** [JSON.parse] *)

(** The value [JSON.parse] returns.  An object keeps its members in source
    order, duplicates included; [member] reads a property the way the
    resulting object answers (the last duplicate wins). *)
Inductive json : Type :=
| JNull
| JBool (b : bool)
| JNumber (literal : jsstring)
| JString (s : jsstring)
| JArray (items : list json)
| JObject (members : list (jsstring * json)).

(** The grammar of ECMA-404, read one code unit at a time by a pushdown
    recogniser that builds the value as it goes. *)

Definition is_json_ws (c : N) : bool :=
  N.eqb c c_space || N.eqb c c_tab || N.eqb c c_lf || N.eqb c c_cr.

Definition is_digit (c : N) : bool := N.leb 48 c && N.leb c 57.
Definition is_digit19 (c : N) : bool := N.leb 49 c && N.leb c 57.
Definition is_exp (c : N) : bool := N.eqb c 101 || N.eqb c 69.

Definition hex_value (c : N) : option N :=
  if N.leb 48 c && N.leb c 57 then Some (c - 48)%N
  else if N.leb 97 c && N.leb c 102 then Some (c - 87)%N
  else if N.leb 65 c && N.leb c 70 then Some (c - 55)%N
  else None.

(** The single-character escapes after a backslash. *)
Definition unescape (c : N) : option N :=
  if N.eqb c c_quote then Some c_quote
  else if N.eqb c c_backslash then Some c_backslash
  else if N.eqb c c_slash then Some c_slash
  else if N.eqb c 98 then Some 8%N          (* \b *)
  else if N.eqb c 102 then Some 12%N        (* \f *)
  else if N.eqb c 110 then Some c_lf        (* \n *)
  else if N.eqb c 114 then Some c_cr        (* \r *)
  else if N.eqb c 116 then Some c_tab       (* \t *)
  else None.

(** Where the recogniser is inside a number. *)
Inductive numphase : Type :=
| NMinus | NZero | NInt | NDot | NFrac | NExp | NExpSign | NExpDigits.

Definition num_final (p : numphase) : bool :=
  match p with
  | NZero | NInt | NFrac | NExpDigits => true
  | _ => false
  end.

Definition num_next (p : numphase) (c : N) : option numphase :=
  match p with
  | NMinus =>
      if N.eqb c 48 then Some NZero
      else if is_digit19 c then Some NInt else None
  | NZero =>
      if N.eqb c c_dot then Some NDot
      else if is_exp c then Some NExp else None
  | NInt =>
      if is_digit c then Some NInt
      else if N.eqb c c_dot then Some NDot
      else if is_exp c then Some NExp else None
  | NDot => if is_digit c then Some NFrac else None
  | NFrac =>
      if is_digit c then Some NFrac
      else if is_exp c then Some NExp else None
  | NExp =>
      if N.eqb c c_plus || N.eqb c c_minus then Some NExpSign
      else if is_digit c then Some NExpDigits else None
  | NExpSign => if is_digit c then Some NExpDigits else None
  | NExpDigits => if is_digit c then Some NExpDigits else None
  end.

(** Enclosing containers, innermost first.  [FKey k] sits on top of its
    [FObj] while the value of member [k] is being read.  Finished items are
    kept in reverse order. *)
Inductive frame : Type :=
| FArr (items : list json)
| FObj (members : list (jsstring * json))
| FKey (key : jsstring).

(** The three literal names; [literal_rest] is what follows the first
    code unit. *)
Inductive literal : Type := LTrue | LFalse | LNull.

Definition literal_rest (l : literal) : jsstring :=
  match l with
  | LTrue => lit "rue"
  | LFalse => lit "alse"
  | LNull => lit "ull"
  end.

Definition literal_value (l : literal) : json :=
  match l with
  | LTrue => JBool true
  | LFalse => JBool false
  | LNull => JNull
  end.

Inductive mode : Type :=
| MValue                                  (* a value must start *)
| MArrStart                               (* after [: a value or ] *)
| MObjStart                               (* after {: a key or } *)
| MKey                                    (* after , in an object: a key *)
| MColon                                  (* after a key *)
| MAfter                                  (* after a value inside a container *)
| MDone (v : json)                        (* after the top-level value *)
| MStr (key : bool) (acc : jsstring)      (* inside a string *)
| MEsc (key : bool) (acc : jsstring)      (* after a backslash *)
| MUni (key : bool) (acc : jsstring) (hex : list N)   (* after \u *)
| MNum (p : numphase) (acc : jsstring)    (* inside a number *)
| MLit (l : literal) (seen : nat).        (* inside true, false or null *)

Inductive pstate : Type :=
| PErr
| PSt (m : mode) (stk : list frame).

(** A value is complete: hand it to the enclosing container. *)
Definition complete (v : json) (stk : list frame) : pstate :=
  match stk with
  | [] => PSt (MDone v) []
  | FArr items :: r => PSt MAfter (FArr (v :: items) :: r)
  | FKey k :: FObj ms :: r => PSt MAfter (FObj ((k, v) :: ms) :: r)
  | _ => PErr
  end.

Definition after_value (stk : list frame) (c : N) : pstate :=
  if is_json_ws c then PSt MAfter stk
  else
    match stk with
    | FArr items :: r =>
        if N.eqb c c_comma then PSt MValue stk
        else if N.eqb c c_rbracket then complete (JArray (rev items)) r
        else PErr
    | FObj ms :: r =>
        if N.eqb c c_comma then PSt MKey stk
        else if N.eqb c c_rbrace then complete (JObject (rev ms)) r
        else PErr
    | _ => PErr
    end.

(** The code unit that ended a number is read again in the state the
    completed number leads to. *)
Definition resume (st : pstate) (c : N) : pstate :=
  match st with
  | PSt MAfter stk => after_value stk c
  | PSt (MDone v) stk => if is_json_ws c then st else PErr
  | _ => PErr
  end.

Definition begin_value (stk : list frame) (c : N) : pstate :=
  if N.eqb c c_lbracket then PSt MArrStart (FArr [] :: stk)
  else if N.eqb c c_lbrace then PSt MObjStart (FObj [] :: stk)
  else if N.eqb c c_quote then PSt (MStr false []) stk
  else if N.eqb c c_minus then PSt (MNum NMinus [c]) stk
  else if N.eqb c 48 then PSt (MNum NZero [c]) stk
  else if is_digit19 c then PSt (MNum NInt [c]) stk
  else if N.eqb c 116 then PSt (MLit LTrue 0) stk
  else if N.eqb c 102 then PSt (MLit LFalse 0) stk
  else if N.eqb c 110 then PSt (MLit LNull 0) stk
  else PErr.

Definition hex4 (h : list N) (d : N) : N :=
  (fold_left (fun a x => a * 16 + x) h 0 * 16 + d)%N.

Definition step (st : pstate) (c : N) : pstate :=
  match st with
  | PErr => PErr
  | PSt m stk =>
      match m with
      | MValue => if is_json_ws c then st else begin_value stk c
      | MArrStart =>
          if is_json_ws c then st
          else if N.eqb c c_rbracket then
            match stk with
            | FArr _ :: r => complete (JArray []) r
            | _ => PErr
            end
          else begin_value stk c
      | MObjStart =>
          if is_json_ws c then st
          else if N.eqb c c_rbrace then
            match stk with
            | FObj _ :: r => complete (JObject []) r
            | _ => PErr
            end
          else if N.eqb c c_quote then PSt (MStr true []) stk
          else PErr
      | MKey =>
          if is_json_ws c then st
          else if N.eqb c c_quote then PSt (MStr true []) stk
          else PErr
      | MColon =>
          if is_json_ws c then st
          else if N.eqb c c_colon then
            match stk with
            | FKey _ :: _ => PSt MValue stk
            | _ => PErr
            end
          else PErr
      | MAfter => after_value stk c
      | MDone _ => if is_json_ws c then st else PErr
      | MStr key acc =>
          if N.eqb c c_quote then
            if key then PSt MColon (FKey (rev acc) :: stk)
            else complete (JString (rev acc)) stk
          else if N.eqb c c_backslash then PSt (MEsc key acc) stk
          else if N.ltb c 32 then PErr
          else PSt (MStr key (c :: acc)) stk
      | MEsc key acc =>
          if N.eqb c 117 then PSt (MUni key acc []) stk
          else
            match unescape c with
            | Some u => PSt (MStr key (u :: acc)) stk
            | None => PErr
            end
      | MUni key acc hex =>
          match hex_value c with
          | Some d =>
              if Nat.eqb (List.length hex) 3
              then PSt (MStr key (hex4 hex d :: acc)) stk
              else PSt (MUni key acc (hex ++ [d])) stk
          | None => PErr
          end
      | MNum p acc =>
          match num_next p c with
          | Some p' => PSt (MNum p' (c :: acc)) stk
          | None =>
              if num_final p
              then resume (complete (JNumber (rev acc)) stk) c
              else PErr
          end
      | MLit l seen =>
          match nth_error (literal_rest l) seen with
          | Some x =>
              if N.eqb c x then
                if Nat.eqb (S seen) (List.length (literal_rest l))
                then complete (literal_value l) stk
                else PSt (MLit l (S seen)) stk
              else PErr
          | None => PErr
          end
      end
  end.

Definition run (s : jsstring) (st : pstate) : pstate := fold_left step s st.

(** The end of the text: a value must be complete and nothing be open. *)
Definition finish (st : pstate) : option json :=
  match st with
  | PSt (MDone v) [] => Some v
  | PSt (MNum p acc) [] =>
      if num_final p then Some (JNumber (rev acc)) else None
  | _ => None
  end.

(** [JSON.parse(s)]: [None] is the [SyntaxError]. *)
Definition JSON_parse (s : jsstring) : option json :=
  finish (run s (PSt MValue [])).

(** The parse step of the agents:
    [JSON.parse(text.replace(/```json|```/g, "").trim())]. *)
Definition parse_reply (text : jsstring) : option json :=
  JSON_parse (trim (strip_fences text)).

(** [fenced open j close] is the reply "```json", [open], [j], [close],
    "```": the text [j] inside a fence. *)
Definition fenced (open j close : jsstring) : jsstring :=
  fence_json ++ open ++ j ++ close ++ fence.

(** Property access [o.k] on a parsed value: [None] is [undefined].  None
    of the names the agents read is defined on a prototype, so only an
    object's own members answer. *)
Fixpoint assoc_last (k : jsstring) (ms : list (jsstring * json))
  : option json :=
  match ms with
  | [] => None
  | (k', v) :: r =>
      match assoc_last k r with
      | Some v' => Some v'
      | None => if jsstring_eqb k k' then Some v else None
      end
  end.

Definition member (v : json) (k : jsstring) : option json :=
  match v with
  | JObject ms => assoc_last k ms
  | _ => None
  end.

End Js.

Import Js.

(* ================================================================= *)
(** ** The entities of [prisma/schema.prisma] *)

Definition ObjectId := N.

(** A [Float] column holds an IEEE-754 double: its 64 bits. *)
Definition double := N.

Module Role.
Inductive t := USER | ADMIN | CLIENT.
Definition eqb (a b : t) : bool :=
  match a, b with
  | USER, USER | ADMIN, ADMIN | CLIENT, CLIENT => true
  | _, _ => false
  end.
End Role.

Module SkillCategory.
Inductive t :=
| FRONTEND | BACKEND | DATABASE | DEVOPS | DESIGN | AI_ML | MOBILE | OTHER.
(** An enum value reaches JavaScript as the string of its name. *)
Definition name (c : t) : jsstring :=
  match c with
  | FRONTEND => lit "FRONTEND" | BACKEND => lit "BACKEND"
  | DATABASE => lit "DATABASE" | DEVOPS => lit "DEVOPS"
  | DESIGN => lit "DESIGN" | AI_ML => lit "AI_ML"
  | MOBILE => lit "MOBILE" | OTHER => lit "OTHER"
  end.
End SkillCategory.

Module JobStatus.
Inductive t := IDENTIFIED | APPLIED | INTERVIEW_SCHEDULED | REJECTED | ACCEPTED.
End JobStatus.

Module Priority.
Inductive t := LOW | MEDIUM | HIGH | URGENT.
Definition name (p : t) : jsstring :=
  match p with
  | LOW => lit "LOW" | MEDIUM => lit "MEDIUM"
  | HIGH => lit "HIGH" | URGENT => lit "URGENT"
  end.
End Priority.

Module ReminderCategory.
Inductive t :=
| SKILL_UPDATE | PROJECT_ADD | RESUME_UPDATE | EXPERIENCE_UPDATE
| CONTENT_REFRESH | OTHER.
End ReminderCategory.

Module MessageSender.
Inductive t := USER | AI.
End MessageSender.

Module User.
Record t := mk
  { id : ObjectId; name : jsstring; bio : option jsstring; role : Role.t }.
End User.

Module Skill.
Record t := mk
  { id : ObjectId; name : jsstring; category : SkillCategory.t;
    proficiency : Z; yearsOfExperience : double; userId : ObjectId }.
End Skill.

Module Education.
Record t := mk
  { id : ObjectId; institution : jsstring; degree : jsstring;
    fieldOfStudy : jsstring; startDate : Z; endDate : option Z;
    userId : ObjectId }.
End Education.

Module Experience.
Record t := mk
  { id : ObjectId; company : jsstring; position : jsstring;
    startDate : Z; endDate : option Z; description : option jsstring;
    achievements : list jsstring; userId : ObjectId }.
End Experience.

Module Project.
Record t := mk
  { id : ObjectId; title : jsstring; description : jsstring; userId : ObjectId }.
End Project.

Module JobAlert.
Record t := mk
  { id : ObjectId; jobTitle : jsstring; company : jsstring;
    location : option jsstring; description : jsstring;
    requirements : list jsstring; salary : option jsstring;
    applicationUrl : option jsstring; confidence : double;
    appliedAt : option Z; status : JobStatus.t; userId : ObjectId }.
End JobAlert.

Module PortfolioReminder.
Record t := mk
  { id : ObjectId; title : jsstring; description : jsstring; dueDate : Z;
    priority : Priority.t; completed : bool;
    category : ReminderCategory.t; notificationSent : bool }.
End PortfolioReminder.

Module ChatInteraction.
Record t := mk
  { id : ObjectId; visitorName : option jsstring; visitorEmail : option jsstring }.
End ChatInteraction.

Module ChatMessage.
Record t := mk
  { id : ObjectId; content : jsstring; sender : MessageSender.t; chatId : ObjectId }.
End ChatMessage.

(** The store: one list per collection, in insertion order, and the
    counter [@default(auto())] draws identifiers from. *)
Record Store := mkStore
  { users : list User.t;
    skills : list Skill.t;
    educations : list Education.t;
    experiences : list Experience.t;
    projects : list Project.t;
    jobAlerts : list JobAlert.t;
    reminders : list PortfolioReminder.t;
    chats : list ChatInteraction.t;
    chatMessages : list ChatMessage.t;
    next_id : ObjectId }.

(* ================================================================= *)
(** ** Parameters and messages of the senders *)

Record Attachment := mkAttachment
  { filename : jsstring; path : jsstring; contentType : option jsstring }.

(** [EmailParams] of [email.ts]. *)
Record EmailParams := mkEmailParams
  { mail_to : jsstring; mail_subject : jsstring; mail_text : jsstring;
    mail_html : option jsstring; mail_attachments : option (list Attachment) }.

(** [SMSParams] of [sms.ts]. *)
Record SMSParams := mkSMSParams { sms_to : jsstring; sms_body : jsstring }.

(** The options [nodemailer.createTransport] receives. *)
Record Transport := mkTransport
  { smtp_host : option jsstring; smtp_port : double; smtp_secure : bool;
    smtp_user : option jsstring; smtp_pass : option jsstring }.

(** The message [transporter.sendMail] receives. *)
Record MailMessage := mkMailMessage
  { msg_from : option jsstring; msg_to : jsstring; msg_subject : jsstring;
    msg_text : jsstring; msg_html : jsstring;
    msg_attachments : option (list Attachment) }.

(** The message [client.messages.create] receives. *)
Record SmsMessage := mkSmsMessage
  { tw_body : jsstring; tw_from : jsstring; tw_to : jsstring }.

(** [process.env]. *)
Record Env := mkEnv
  { NODE_ENV : option jsstring;
    USER_EMAIL : option jsstring;
    USER_PHONE : option jsstring;
    TWILIO_ACCOUNT_SID : option jsstring;
    TWILIO_AUTH_TOKEN : option jsstring;
    TWILIO_PHONE_NUMBER : option jsstring;
    EMAIL_SERVER_HOST : option jsstring;
    EMAIL_SERVER_PORT : option jsstring;
    EMAIL_SERVER_USER : option jsstring;
    EMAIL_SERVER_PASSWORD : option jsstring;
    EMAIL_FROM : option jsstring }.

(** An optional string is truthy when it is set and not empty: the guards
    [if (x)], [!x] and [x || d] of the source.  An environment variable is
    configured when it is truthy. *)
Definition truthy (v : option jsstring) : option jsstring :=
  match v with
  | Some (c :: r) => Some (c :: r)
  | _ => None
  end.

(* ================================================================= *)
(** ** Effects *)

(** What a run does that is visible outside the store, in order: calls of
    the two senders, and requests to the three external providers. *)
Inductive event : Type :=
| EvLLM (prompt : jsstring)
| EvSendMail (p : EmailParams)
| EvSmtp (t : Transport) (m : MailMessage)
| EvSendSMS (p : SMSParams)
| EvTwilio (sid token : jsstring) (m : SmsMessage).

Definition is_external (e : event) : bool :=
  match e with
  | EvLLM _ | EvSmtp _ _ | EvTwilio _ _ _ => true
  | EvSendMail _ | EvSendSMS _ => false
  end.

Definition is_llm (e : event) : bool :=
  match e with EvLLM _ => true | _ => false end.

Definition is_mail (e : event) : bool :=
  match e with EvSendMail _ => true | _ => false end.

Definition is_sms (e : event) : bool :=
  match e with EvSendSMS _ => true | _ => false end.

Definition is_notification (e : event) : bool := is_mail e || is_sms e.

Record World := mkWorld { db : Store; trace : list event }.

(** A thrown value: an [Error] with its message, or something else. *)
Inductive thrown : Type :=
| ErrorObject (message : jsstring)
| NotAnError.

(** [error instanceof Error ? error.message : 'Unknown error']. *)
Definition message_of (e : thrown) : jsstring :=
  match e with
  | ErrorObject m => m
  | NotAnError => lit "Unknown error"
  end.

Inductive outcome (A : Type) : Type :=
| Ok (a : A)
| Throw (e : thrown).
Arguments Ok {A} a.
Arguments Throw {A} e.

(** Computations: the world is threaded through, and a throw keeps the
    world it happened in (nothing is rolled back). *)
Definition M (A : Type) : Type := World -> outcome A * World.

Definition ret {A} (a : A) : M A := fun w => (Ok a, w).

Definition throw {A} (e : thrown) : M A := fun w => (Throw e, w).

Definition bind {A B} (m : M A) (k : A -> M B) : M B :=
  fun w =>
    match m w with
    | (Ok a, w') => k a w'
    | (Throw e, w') => (Throw e, w')
    end.

(** [try { m } catch (error) { h error }]. *)
Definition try_catch {A} (m : M A) (h : thrown -> M A) : M A :=
  fun w =>
    match m w with
    | (Ok a, w') => (Ok a, w')
    | (Throw e, w') => h e w'
    end.

Declare Scope js_scope.
Delimit Scope js_scope with js.
Notation "x <- m ;; k" := (bind m (fun x => k))
  (at level 61, m at next level, right associativity) : js_scope.
Notation "m ;; k" := (bind m (fun _ => k))
  (at level 61, right associativity) : js_scope.
Open Scope js_scope.

Definition emit (e : event) : M unit :=
  fun w => (Ok tt, mkWorld (db w) (trace w ++ [e])).

(** The world once [e] has been recorded: the one a provider is asked in
    after the call of its sender, and the one a run is in after a request. *)
Definition called (e : event) (w : World) : World :=
  mkWorld (db w) (trace w ++ [e]).

Definition read_db : M Store := fun w => (Ok (db w), w).

Definition write_db (s : Store) : M unit :=
  fun w => (Ok tt, mkWorld s (trace w)).

(** The errors thrown by the engine and by the Prisma client, as opposed to
    the ones the source creates itself.  All are instances of [Error]. *)
Inductive failure : Type :=
| JSON_syntax (text : jsstring)            (* SyntaxError of JSON.parse *)
| Not_iterable                             (* TypeError of for-of *)
| Property_of_null (key : jsstring)        (* TypeError of null.key *)
| Prisma_validation                        (* data rejected by the schema *)
| Prisma_not_found.                        (* record to update not found *)

(** What the JavaScript engine and the locale decide; none of it is
    arithmetic the embedding can carry out on integers. *)
Record Engine := mkEngine
  { (* the double a JSON numeric literal denotes *)
    Number_of_literal : jsstring -> double;
    (* Number(x) for a string or undefined *)
    Number_of_string : option jsstring -> double;
    (* String(x) for a double *)
    Number_toString : double -> jsstring;
    (* date.toISOString().split("T")[0] *)
    toISODate : Z -> jsstring;
    (* date.toLocaleDateString() *)
    toLocaleDateString : Z -> jsstring;
    (* date.getFullYear() *)
    getFullYear : Z -> Z;
    (* the message of an Error the engine or the Prisma client creates *)
    error_message : failure -> jsstring }.

(** The providers and the clock, as they answer in a given world. *)
Record Outside := mkOutside
  { (* the chain call: the completion, or what it throws *)
    llm : World -> jsstring -> thrown + jsstring;
    (* transporter.sendMail: what it throws, if it does *)
    smtp : World -> Transport -> MailMessage -> option thrown;
    (* twilio(sid, token) and client.messages.create *)
    twilio : World -> jsstring -> jsstring -> SmsMessage -> option thrown;
    (* new Date() *)
    clock : World -> Z }.

(** The double 465. *)
Definition double_465 : double := 0x407D100000000000%N.

(** +0 and -0, the doubles that are falsy (a JSON literal is never NaN). *)
Definition double_is_zero (d : double) : bool :=
  N.eqb d 0 || N.eqb d 0x8000000000000000%N.

(* ================================================================= *)
(** ** Prisma calls *)

Definition fresh_id : M ObjectId :=
  fun w =>
    let s := db w in
    (Ok (next_id s),
     mkWorld (mkStore (users s) (skills s) (educations s) (experiences s)
                (projects s) (jobAlerts s) (reminders s) (chats s)
                (chatMessages s) (N.succ (next_id s)))
       (trace w)).

Definition set_jobAlerts (l : list JobAlert.t) (s : Store) : Store :=
  mkStore (users s) (skills s) (educations s) (experiences s) (projects s)
    l (reminders s) (chats s) (chatMessages s) (next_id s).

Definition set_reminders (l : list PortfolioReminder.t) (s : Store) : Store :=
  mkStore (users s) (skills s) (educations s) (experiences s) (projects s)
    (jobAlerts s) l (chats s) (chatMessages s) (next_id s).

Definition set_chats (l : list ChatInteraction.t) (s : Store) : Store :=
  mkStore (users s) (skills s) (educations s) (experiences s) (projects s)
    (jobAlerts s) (reminders s) l (chatMessages s) (next_id s).

Definition set_chatMessages (l : list ChatMessage.t) (s : Store) : Store :=
  mkStore (users s) (skills s) (educations s) (experiences s) (projects s)
    (jobAlerts s) (reminders s) (chats s) l (next_id s).

(** [prisma.skill.findMany({ where: { userId } })]. *)
Definition skills_of (uid : ObjectId) (s : Store) : list Skill.t :=
  filter (fun x => N.eqb (Skill.userId x) uid) (skills s).

Definition experiences_of (uid : ObjectId) (s : Store) : list Experience.t :=
  filter (fun x => N.eqb (Experience.userId x) uid) (experiences s).

Definition educations_of (uid : ObjectId) (s : Store) : list Education.t :=
  filter (fun x => N.eqb (Education.userId x) uid) (educations s).

Definition projects_of (uid : ObjectId) (s : Store) : list Project.t :=
  filter (fun x => N.eqb (Project.userId x) uid) (projects s).

(** [prisma.chatInteraction.findUnique({ where: { id } })]. *)
Definition find_chat (cid : ObjectId) (s : Store) : option ChatInteraction.t :=
  find (fun c => N.eqb (ChatInteraction.id c) cid) (chats s).

(** The [conversation] relation of a chat. *)
Definition conversation_of (cid : ObjectId) (s : Store) : list ChatMessage.t :=
  filter (fun m => N.eqb (ChatMessage.chatId m) cid) (chatMessages s).

(** [prisma.chatMessage.create]. *)
Definition create_chatMessage (content : jsstring) (sender : MessageSender.t)
    (cid : ObjectId) : M ChatMessage.t :=
  i <- fresh_id ;;
  s <- read_db ;;
  let m := ChatMessage.mk i content sender cid in
  write_db (set_chatMessages (chatMessages s ++ [m]) s) ;;
  ret m.

(** [prisma.chatInteraction.create]. *)
Definition create_chat (visitorName visitorEmail : option jsstring)
  : M ChatInteraction.t :=
  i <- fresh_id ;;
  s <- read_db ;;
  let c := ChatInteraction.mk i visitorName visitorEmail in
  write_db (set_chats (chats s ++ [c]) s) ;;
  ret c.

Definition mark_notified (r : PortfolioReminder.t) : PortfolioReminder.t :=
  PortfolioReminder.mk (PortfolioReminder.id r) (PortfolioReminder.title r)
    (PortfolioReminder.description r) (PortfolioReminder.dueDate r)
    (PortfolioReminder.priority r) (PortfolioReminder.completed r)
    (PortfolioReminder.category r) true.

Definition has_reminder (i : ObjectId) (s : Store) : bool :=
  existsb (fun r => N.eqb (PortfolioReminder.id r) i) (reminders s).

Definition mark_in (i : ObjectId) (l : list PortfolioReminder.t)
  : list PortfolioReminder.t :=
  map (fun r => if N.eqb (PortfolioReminder.id r) i then mark_notified r else r) l.

(** 24 hexadecimal digits: an ObjectId as JavaScript sees it. *)
Definition hex_char (d : N) : N := if N.ltb d 10 then (48 + d)%N else (87 + d)%N.

Fixpoint hex_of (digits : nat) (x : N) (acc : jsstring) : jsstring :=
  match digits with
  | O => acc
  | S d => hex_of d (x / 16)%N (hex_char (x mod 16)%N :: acc)
  end.

Definition show_id (i : ObjectId) : jsstring := hex_of 24 i [].

(* ================================================================= *)
(** ** Inputs and results of the agents *)

(** [z.infer<typeof jobSearchSchema>]. *)
Record JobSearchInput := mkJobSearchInput
  { search_userId : ObjectId; search_jobTitle : option jsstring;
    search_location : option jsstring; search_remote : option bool }.

(** [z.infer<typeof chatMessageSchema>]; an empty [chatId] is an absent
    one for the guard [if (chatId)]. *)
Record ChatInput := mkChatInput
  { chat_content : jsstring; chat_chatId : option ObjectId;
    chat_visitorName : option jsstring; chat_visitorEmail : option jsstring }.

Record ChatResponse := mkChatResponse
  { resp_content : jsstring; resp_chatId : ObjectId; resp_messageId : ObjectId }.

(** The interface [JobSearchResult]: what the source calls a job object. *)
Definition is_string (v : option json) : bool :=
  match v with Some (JString _) => true | _ => false end.

Definition is_optional_string (v : option json) : bool :=
  match v with None | Some (JString _) => true | _ => false end.

Definition is_number (v : option json) : bool :=
  match v with Some (JNumber _) => true | _ => false end.

Definition is_string_array (v : option json) : bool :=
  match v with
  | Some (JArray l) =>
      forallb (fun x => match x with JString _ => true | _ => false end) l
  | _ => false
  end.

Definition is_job_object (j : json) : bool :=
  match j with
  | JObject _ =>
      is_string (member j (lit "jobTitle"))
      && is_string (member j (lit "company"))
      && is_string (member j (lit "location"))
      && is_string (member j (lit "description"))
      && is_string_array (member j (lit "requirements"))
      && is_optional_string (member j (lit "salary"))
      && is_optional_string (member j (lit "applicationUrl"))
      && is_number (member j (lit "confidenceScore"))
  | _ => false
  end.

(** The code points a string iterator yields: a surrogate pair is one. *)
Definition is_high_surrogate (c : N) : bool := N.leb 55296 c && N.leb c 56319.
Definition is_low_surrogate (c : N) : bool := N.leb 56320 c && N.leb c 57343.

Fixpoint code_points (s : jsstring) : list jsstring :=
  match s with
  | [] => []
  | c :: r =>
      match r with
      | d :: r' =>
          if is_high_surrogate c && is_low_surrogate d
          then [c; d] :: code_points r'
          else [c] :: code_points r
      | [] => [[c]]
      end
  end.

(** [jobResults.length] for the values a for-of loop accepts. *)
Definition js_length (v : json) : nat :=
  match v with
  | JArray l => List.length l
  | JString s => List.length s
  | _ => O
  end.

(** The source's own errors. *)
Definition insufficient_data : thrown :=
  ErrorObject (lit "User must have skills and experience records to search for jobs").

Definition chat_not_found (cid : ObjectId) : thrown :=
  ErrorObject (lit "Chat session not found: " ++ show_id cid).

Definition search_failed (e : thrown) : thrown :=
  ErrorObject (lit "Failed to search for jobs: " ++ message_of e).

Definition chat_failed (e : thrown) : thrown :=
  ErrorObject (lit "Failed to process chat message: " ++ message_of e).

(** 48 hours in milliseconds.  [setHours(getHours() + 48)] moves the local
    wall clock; the release image of [docker/Dockerfile] sets no time zone,
    so local time is UTC and the move is exactly this long. *)
Definition lookahead_ms : Z := 48 * 3600 * 1000.

(* ================================================================= *)
(** ** The senders and the agents *)

Section Agents.

Variable E : Engine.
Variable P : Outside.
Variable env : Env.

Definition raise {A} (f : failure) : M A :=
  throw (ErrorObject (error_message E f)).

(** [process.env.NODE_ENV === 'development']. *)
Definition development : bool :=
  match NODE_ENV env with
  | Some v => jsstring_eqb v (lit "development")
  | None => false
  end.

(** *** [src/lib/email.ts] *)

Definition transport : Transport :=
  let port := Number_of_string E (EMAIL_SERVER_PORT env) in
  mkTransport (EMAIL_SERVER_HOST env) port (N.eqb port double_465)
    (EMAIL_SERVER_USER env) (EMAIL_SERVER_PASSWORD env).

Definition mail_message (p : EmailParams) : MailMessage :=
  mkMailMessage (EMAIL_FROM env) (mail_to p) (mail_subject p) (mail_text p)
    (match truthy (mail_html p) with
     | Some h => h
     | None => newlines_to_br (mail_text p)
     end)
    (mail_attachments p).

(** [await transporter.sendMail(m)]. *)
Definition smtp_send (t : Transport) (m : MailMessage) : M unit :=
  fun w =>
    let w' := mkWorld (db w) (trace w ++ [EvSmtp t m]) in
    match smtp P w t m with
    | None => (Ok tt, w')
    | Some e => (Throw e, w')
    end.

Definition sendMail (p : EmailParams) : M bool :=
  emit (EvSendMail p) ;;
  try_catch
    (smtp_send transport (mail_message p) ;;
     ret true)
    (fun _ => if development then ret true else ret false).

(** *** [src/lib/sms.ts] *)

(** [twilio(sid, token)] and [await client.messages.create(m)]. *)
Definition twilio_create (sid token : jsstring) (m : SmsMessage) : M unit :=
  fun w =>
    let w' := mkWorld (db w) (trace w ++ [EvTwilio sid token m]) in
    match twilio P w sid token m with
    | None => (Ok tt, w')
    | Some e => (Throw e, w')
    end.

Definition sendSMS (p : SMSParams) : M bool :=
  emit (EvSendSMS p) ;;
  try_catch
    (match truthy (TWILIO_ACCOUNT_SID env), truthy (TWILIO_AUTH_TOKEN env),
           truthy (TWILIO_PHONE_NUMBER env) with
     | Some accountSid, Some authToken, Some from =>
         twilio_create accountSid authToken
           (mkSmsMessage (sms_body p) from (sms_to p)) ;;
         ret true
     | _, _, _ => ret false
     end)
    (fun _ => if development then ret true else ret false).

(** *** The chain call *)

(** [await chain.call(vars)], then [result.text]; [prompt] is the
    template with its variables filled in. *)
Definition chain_call (prompt : jsstring) : M jsstring :=
  fun w =>
    let w' := mkWorld (db w) (trace w ++ [EvLLM prompt]) in
    match llm P w prompt with
    | inr text => (Ok text, w')
    | inl e => (Throw e, w')
    end.

(** *** [searchJobs] of [job-agent.ts] *)

Definition jobSearchPrompt (skillsText experienceText : jsstring) : jsstring :=
  lit "
  You are an expert job hunting assistant. Based on the user's skills and experience, find relevant job opportunities.

  User Skills:
  " ++ skillsText ++ lit "

  User Experience:
  " ++ experienceText ++ lit "

  Your task is to generate a list of 5 potential job opportunities that match the user's profile.
  For each job, provide:
  - Job title
  - Company name
  - Location (can be remote)
  - Brief job description
  - Key requirements (as a list)
  - Estimated salary range (if possible)
  - Application URL (use a placeholder if unknown)
  - Confidence score (0-1) indicating how well the job matches the user's profile

  Format the output as a valid JSON array of job objects.
  ".

Definition skill_line (x : Skill.t) : jsstring :=
  Skill.name x ++ lit " (" ++ SkillCategory.name (Skill.category x)
  ++ lit ", " ++ show_Z (Skill.proficiency x) ++ lit "%, "
  ++ Number_toString E (Skill.yearsOfExperience x) ++ lit " years)".

Definition null_or (v : option jsstring) : jsstring :=
  match v with Some x => x | None => lit "null" end.

Definition experience_block (x : Experience.t) : jsstring :=
  let duration :=
    match Experience.endDate x with
    | Some e =>
        toISODate E (Experience.startDate x) ++ lit " to " ++ toISODate E e
    | None => toISODate E (Experience.startDate x) ++ lit " to Present"
    end in
  Experience.position x ++ lit " at " ++ Experience.company x
  ++ lit " (" ++ duration ++ lit ")" ++ [c_lf]
  ++ null_or (Experience.description x) ++ [c_lf]
  ++ lit "Achievements: " ++ join (lit ", ") (Experience.achievements x).

Definition searchFilters (input : JobSearchInput) : jsstring :=
  (match truthy (search_jobTitle input) with
   | Some t => [c_lf] ++ lit "Additional search criteria:" ++ [c_lf]
               ++ lit "- Job Title: " ++ t
   | None => []
   end)
  ++ (match truthy (search_location input) with
      | Some l => [c_lf] ++ lit "- Location: " ++ l
      | None => []
      end)
  ++ (match search_remote input with
      | Some r => [c_lf] ++ lit "- Remote: " ++ (if r then lit "Yes" else lit "No")
      | None => []
      end).

(** Truthiness of a value read from the parsed reply. *)
Definition json_truthy (v : option json) : bool :=
  match v with
  | None | Some JNull => false
  | Some (JBool b) => b
  | Some (JNumber l) => negb (double_is_zero (Number_of_literal E l))
  | Some (JString s) => match s with [] => false | _ :: _ => true end
  | Some (JArray _) | Some (JObject _) => true
  end.

Definition required_string (v : option json) : option jsstring :=
  match v with Some (JString s) => Some s | _ => None end.

(** A [String?] column: absent and [null] both store no value. *)
Definition optional_string (v : option json) : option (option jsstring) :=
  match v with
  | None | Some JNull => Some None
  | Some (JString s) => Some (Some s)
  | _ => None
  end.

Fixpoint strings_of (l : list json) : option (list jsstring) :=
  match l with
  | [] => Some []
  | JString s :: r =>
      match strings_of r with Some r' => Some (s :: r') | None => None end
  | _ :: _ => None
  end.

(** A [String[]] column: an absent list is the empty one. *)
Definition string_list (v : option json) : option (list jsstring) :=
  match v with
  | None => Some []
  | Some (JArray l) => strings_of l
  | _ => None
  end.

(** The [data] of [prisma.jobAlert.create], checked against the columns of
    [model JobAlert]; [status] takes its default. *)
Definition alert_of (i userId : ObjectId) (job : json) : option JobAlert.t :=
  match required_string (member job (lit "jobTitle")),
        required_string (member job (lit "company")),
        (if json_truthy (member job (lit "location"))
         then required_string (member job (lit "location"))
         else Some (lit "Remote")),
        required_string (member job (lit "description")),
        string_list (member job (lit "requirements")),
        optional_string (member job (lit "salary")),
        optional_string (member job (lit "applicationUrl")),
        member job (lit "confidenceScore") with
  | Some jobTitle, Some company, Some location, Some description,
    Some requirements, Some salary, Some applicationUrl,
    Some (JNumber confidence) =>
      Some (JobAlert.mk i jobTitle company (Some location) description
              requirements salary applicationUrl
              (Number_of_literal E confidence) None JobStatus.IDENTIFIED
              userId)
  | _, _, _, _, _, _, _, _ => None
  end.

(** One turn of the loop that saves the alerts. *)
Definition save_alert (userId : ObjectId) (job : json) : M unit :=
  match job with
  | JNull => raise (Property_of_null (lit "jobTitle"))
  | _ =>
      s <- read_db ;;
      match alert_of (next_id s) userId job with
      | Some a =>
          _ <- fresh_id ;;
          s' <- read_db ;;
          write_db (set_jobAlerts (jobAlerts s' ++ [a]) s')
      | None => raise Prisma_validation
      end
  end.

(** The records the loop creates for [jobs], the first with identifier [i]:
    it stops at the first value the store rejects. *)
Fixpoint alerts_from (i userId : ObjectId) (jobs : list json)
  : list JobAlert.t :=
  match jobs with
  | [] => []
  | job :: r =>
      match job, alert_of i userId job with
      | JNull, _ | _, None => []
      | _, Some a => a :: alerts_from (N.succ i) userId r
      end
  end.

(** The store once the alerts [l] have been created in it, one after the
    other. *)
Definition with_alerts (l : list JobAlert.t) (s : Store) : Store :=
  mkStore (users s) (skills s) (educations s) (experiences s) (projects s)
    (jobAlerts s ++ l) (reminders s) (chats s) (chatMessages s)
    (next_id s + N.of_nat (List.length l))%N.

Fixpoint for_each {A} (f : A -> M unit) (l : list A) : M unit :=
  match l with
  | [] => ret tt
  | x :: r => f x ;; for_each f r
  end.

(** [for (const job of jobResults)]. *)
Definition for_of (f : json -> M unit) (v : json) : M unit :=
  match v with
  | JArray items => for_each f items
  | JString s => for_each f (map JString (code_points s))
  | _ => raise Not_iterable
  end.

Definition jobs_mail (to : jsstring) (n : nat) : EmailParams :=
  mkEmailParams to
    (lit "New Job Matches Found: " ++ show_nat n ++ lit " opportunities")
    (lit "The AI agent found " ++ show_nat n
     ++ lit " new job opportunities matching your profile. Log in to your portfolio dashboard to view them.")
    None None.

Definition jobs_sms (to : jsstring) (n : nat) : SMSParams :=
  mkSMSParams to
    (lit "Your portfolio AI found " ++ show_nat n
     ++ lit " new job opportunities matching your skills. Check your dashboard for details.").

(** The prompt of the job search: the formatted records and filters in
    the template. *)
Definition search_prompt (input : JobSearchInput)
    (userSkills : list Skill.t) (userExperience : list Experience.t)
  : jsstring :=
  let skillsText := join [c_lf] (map skill_line userSkills) in
  let experienceText :=
    join [c_lf; c_lf] (map experience_block userExperience) in
  jobSearchPrompt (skillsText ++ searchFilters input) experienceText.

Definition searchJobs (input : JobSearchInput) : M json :=
  try_catch
    (let userId := search_userId input in
     s <- read_db ;;
     let userSkills := skills_of userId s in
     let userExperience := experiences_of userId s in
     (if Nat.eqb (List.length userSkills) 0
         || Nat.eqb (List.length userExperience) 0
      then throw insufficient_data else ret tt) ;;
     text <- chain_call (search_prompt input userSkills userExperience) ;;
     jobResults <-
       match parse_reply text with
       | Some v => ret v
       | None => raise (JSON_syntax (trim (strip_fences text)))
       end ;;
     for_of (save_alert userId) jobResults ;;
     match truthy (USER_EMAIL env) with
     | Some userEmail =>
         _ <- sendMail (jobs_mail userEmail (js_length jobResults)) ;; ret tt
     | None => ret tt
     end ;;
     match truthy (USER_PHONE env) with
     | Some userPhone =>
         _ <- sendSMS (jobs_sms userPhone (js_length jobResults)) ;; ret tt
     | None => ret tt
     end ;;
     ret jobResults)
    (fun error => throw (search_failed error)).

(** *** [processChatMessage] of the chat agent *)

Definition year_range (startDate : Z) (endDate : option Z) : jsstring :=
  show_Z (getFullYear E startDate) ++ lit "-"
  ++ match endDate with
     | Some e => show_Z (getFullYear E e)
     | None => lit "Present"
     end.

Definition owner_skill (x : Skill.t) : jsstring :=
  Skill.name x ++ lit " (" ++ show_Z (Skill.proficiency x)
  ++ lit "% proficiency, " ++ Number_toString E (Skill.yearsOfExperience x)
  ++ lit " years)".

Definition owner_education (x : Education.t) : jsstring :=
  Education.degree x ++ lit " in " ++ Education.fieldOfStudy x
  ++ lit " from " ++ Education.institution x ++ lit " ("
  ++ year_range (Education.startDate x) (Education.endDate x) ++ lit ")".

Definition owner_experience (x : Experience.t) : jsstring :=
  Experience.position x ++ lit " at " ++ Experience.company x ++ lit " ("
  ++ year_range (Experience.startDate x) (Experience.endDate x) ++ lit ")".

Definition owner_project (x : Project.t) : jsstring :=
  Project.title x ++ lit ": " ++ Project.description x.

(** [portfolioOwnerInfoPrompt]: reads the store, writes nothing. *)
Definition portfolioOwnerInfoPrompt (s : Store) : jsstring :=
  match find (fun u => Role.eqb (User.role u) Role.ADMIN) (users s) with
  | None => lit "You are a helpful assistant for a portfolio website."
  | Some admin =>
      let name := User.name admin in
      let uid := User.id admin in
      lit "
  You are an AI assistant representing " ++ name ++ lit ", a professional in the tech industry.

  " ++ lit "About " ++ name ++ lit ":
  " ++ match truthy (User.bio admin) with Some b => b | None => [] end ++ lit "

  Skills: " ++ join (lit ", ") (map owner_skill (skills_of uid s)) ++ lit "

  Education: " ++ join (lit "; ") (map owner_education (educations_of uid s)) ++ lit "

  Experience: " ++ join (lit "; ") (map owner_experience (experiences_of uid s)) ++ lit "

  Notable Projects: " ++ join (lit "; ") (map owner_project (projects_of uid s)) ++ lit "

  Your role is to engage with visitors to " ++ name ++ lit "'s portfolio website, answer questions about " ++ name ++ lit "'s background, skills, experience, and projects.
  You can also discuss potential collaborations, job opportunities, or freelance work.

  Be professional, friendly, and helpful. If you don't know specific details that weren't provided above,
  you can suggest the visitor to contact " ++ name ++ lit " directly for more information.

  You should NOT make up information about " ++ name ++ lit " that wasn't provided to you.
  If asked about something not covered in the information above, politely explain that you don't have that specific information.
  "
  end.

Definition chatPrompt (systemPrompt chatHistory userMessage : jsstring)
  : jsstring :=
  lit "
  " ++ systemPrompt ++ lit "

  Chat History:
  " ++ chatHistory ++ lit "

  Visitor: " ++ userMessage ++ lit "

  Assistant:".

Definition history_line (m : ChatMessage.t) : jsstring :=
  (match ChatMessage.sender m with
   | MessageSender.USER => lit "Visitor"
   | MessageSender.AI => lit "Assistant"
   end) ++ lit ": " ++ ChatMessage.content m.

(** The session of the message and its conversation so far. *)
Definition get_or_create_chat (input : ChatInput)
  : M (ChatInteraction.t * list ChatMessage.t) :=
  match chat_chatId input with
  | Some chatId =>
      s <- read_db ;;
      match find_chat chatId s with
      | Some chat => ret (chat, conversation_of chatId s)
      | None => throw (chat_not_found chatId)
      end
  | None =>
      chat <- create_chat
                (Some match truthy (chat_visitorName input) with
                      | Some n => n
                      | None => lit "Anonymous"
                      end)
                (chat_visitorEmail input) ;;
      ret (chat, [])
  end.

(** The prompt of a chat turn: the owner's profile as the store has it,
    the conversation so far and the visitor's message in the template. *)
Definition chat_prompt (input : ChatInput) (s : Store)
    (conversation : list ChatMessage.t) : jsstring :=
  let systemPrompt := portfolioOwnerInfoPrompt s in
  let chatHistory := join [c_lf] (map history_line conversation) in
  chatPrompt systemPrompt chatHistory (chat_content input).

Definition processChatMessage (input : ChatInput) : M ChatResponse :=
  try_catch
    (session <- get_or_create_chat input ;;
     let chat := fst session in
     s <- read_db ;;
     let prompt := chat_prompt input s (snd session) in
     _ <- create_chatMessage (chat_content input) MessageSender.USER
            (ChatInteraction.id chat) ;;
     text <- chain_call prompt ;;
     let aiResponse := trim text in
     message <- create_chatMessage aiResponse MessageSender.AI
                  (ChatInteraction.id chat) ;;
     ret (mkChatResponse aiResponse (ChatInteraction.id chat)
            (ChatMessage.id message)))
    (fun error => throw (chat_failed error)).

(** *** [sendReminderNotifications] of the content agent *)

(** The [where] clause of the scan. *)
Definition is_due (limit : Z) (r : PortfolioReminder.t) : bool :=
  Z.leb (PortfolioReminder.dueDate r) limit
  && negb (PortfolioReminder.completed r)
  && negb (PortfolioReminder.notificationSent r).

Definition due_reminders (now : Z) (s : Store) : list PortfolioReminder.t :=
  filter (is_due (now + lookahead_ms)) (reminders s).

Definition is_high (p : Priority.t) : bool :=
  match p with
  | Priority.HIGH | Priority.URGENT => true
  | _ => false
  end.

Definition reminder_mail (to : jsstring) (r : PortfolioReminder.t)
  : EmailParams :=
  let dueFormatted := toLocaleDateString E (PortfolioReminder.dueDate r) in
  mkEmailParams to
    (lit "Portfolio Reminder: " ++ PortfolioReminder.title r)
    (lit "REMINDER: " ++ PortfolioReminder.title r ++ lit " - Due "
     ++ dueFormatted ++ lit "." ++ [c_lf] ++ PortfolioReminder.description r)
    None None.

Definition reminder_sms (to : jsstring) (r : PortfolioReminder.t)
  : SMSParams :=
  let dueFormatted := toLocaleDateString E (PortfolioReminder.dueDate r) in
  mkSMSParams to
    (Priority.name (PortfolioReminder.priority r) ++ lit " PRIORITY: "
     ++ PortfolioReminder.title r ++ lit " due on " ++ dueFormatted).

(** [prisma.portfolioReminder.update({ where: { id },
    data: { notificationSent: true } })]. *)
Definition update_notified (i : ObjectId) : M unit :=
  s <- read_db ;;
  if has_reminder i s
  then write_db (set_reminders (mark_in i (reminders s)) s)
  else raise Prisma_not_found.

(** The body of the loop over the due reminders. *)
Definition notify_one (r : PortfolioReminder.t) : M unit :=
  match truthy (USER_EMAIL env) with
  | Some userEmail => _ <- sendMail (reminder_mail userEmail r) ;; ret tt
  | None => ret tt
  end ;;
  match truthy (USER_PHONE env) with
  | Some userPhone =>
      if is_high (PortfolioReminder.priority r)
      then _ <- sendSMS (reminder_sms userPhone r) ;; ret tt
      else ret tt
  | None => ret tt
  end ;;
  update_notified (PortfolioReminder.id r).

Fixpoint notify_all (l : list PortfolioReminder.t) (notificationsSent : nat)
  : M nat :=
  match l with
  | [] => ret notificationsSent
  | r :: l' => notify_one r ;; notify_all l' (S notificationsSent)
  end.

Definition current_time : M Z := fun w => (Ok (clock P w), w).

Definition sendReminderNotifications : M nat :=
  try_catch
    (now <- current_time ;;
     s <- read_db ;;
     let dueReminders := due_reminders now s in
     if Nat.eqb (List.length dueReminders) 0 then ret O
     else notify_all dueReminders O)
    (fun _ => ret O).

(** *** What a run leaves in the trace *)

(** The events of one call of [sendMail]: whatever the transport answers,
    the call and the request to the transport are recorded. *)
Definition mail_events (p : EmailParams) : list event :=
  [EvSendMail p; EvSmtp transport (mail_message p)].

(** The events of one call of [sendSMS]. *)
Definition sms_events (p : SMSParams) : list event :=
  EvSendSMS p ::
  match truthy (TWILIO_ACCOUNT_SID env), truthy (TWILIO_AUTH_TOKEN env),
        truthy (TWILIO_PHONE_NUMBER env) with
  | Some accountSid, Some authToken, Some from =>
      [EvTwilio accountSid authToken
         (mkSmsMessage (sms_body p) from (sms_to p))]
  | _, _, _ => []
  end.

(** The events of one turn of the reminder loop. *)
Definition reminder_events (r : PortfolioReminder.t) : list event :=
  match truthy (USER_EMAIL env) with
  | Some userEmail => mail_events (reminder_mail userEmail r)
  | None => []
  end
  ++ match truthy (USER_PHONE env) with
     | Some userPhone =>
         if is_high (PortfolioReminder.priority r)
         then sms_events (reminder_sms userPhone r)
         else []
     | None => []
     end.

(** The store after the reminders of [l] have been marked. *)
Definition mark_all (l : list PortfolioReminder.t) (s : Store) : Store :=
  fold_left
    (fun s r => set_reminders (mark_in (PortfolioReminder.id r) (reminders s)) s)
    l s.

End Agents.

Definition reminder_ids (l : list PortfolioReminder.t) : list ObjectId :=
  map PortfolioReminder.id l.

(** The store once the message [m] has been created in it. *)
Definition with_message (m : ChatMessage.t) (s : Store) : Store :=
  mkStore (users s) (skills s) (educations s) (experiences s) (projects s)
    (jobAlerts s) (reminders s) (chats s) (chatMessages s ++ [m])
    (N.succ (next_id s)).

(** The record [processChatMessage] makes of the visitor's message in the
    session [chat], in the store [s]. *)
Definition visitor_message (input : ChatInput) (chat : ChatInteraction.t)
    (s : Store) : ChatMessage.t :=
  ChatMessage.mk (next_id s) (chat_content input) MessageSender.USER
    (ChatInteraction.id chat).

(** [marked ids r]: [r] after the reminders with an identifier of [ids]
    have been marked. *)
Definition marked (ids : list ObjectId) (r : PortfolioReminder.t)
  : PortfolioReminder.t :=
  if existsb (N.eqb (PortfolioReminder.id r)) ids then mark_notified r else r.

(** A scan after another: the worlds a sequence of due-checks goes
    through, each under its own environment. *)
Fixpoint scans (E : Engine) (P : Outside) (envs : list Env) (w : World)
  : World :=
  match envs with
  | [] => w
  | env :: r => scans E P r (snd (sendReminderNotifications E P env w))
  end.


(* ================================================================= *)
(** ** A concrete portfolio *)

(** An engine, providers, environments and stores to run the agents on. *)
Module Demo.

Definition engine : Engine :=
  mkEngine
    (fun _ => 0x3FECCCCCCCCCCCCD%N)
    (fun _ => 0x4082580000000000%N)
    (fun _ => lit "3")
    (fun _ => lit "2024-01-01")
    (fun _ => lit "1/1/2024")
    (fun _ => 2024%Z)
    (fun f =>
       match f with
       | JSON_syntax _ => lit "Unexpected token in JSON"
       | Not_iterable => lit "jobResults is not iterable"
       | Property_of_null k => lit "Cannot read properties of null"
       | Prisma_validation => lit "Invalid prisma.jobAlert.create() invocation"
       | Prisma_not_found => lit "Record to update not found."
       end).

Definition refused : thrown := ErrorObject (lit "connect ECONNREFUSED").

(** Every provider is unreachable. *)
Definition unreachable : Outside :=
  mkOutside (fun _ _ => inl refused) (fun _ _ _ => Some refused)
    (fun _ _ _ _ => Some refused) (fun _ => 0%Z).

(** Every provider answers; the model replies [text]. *)
Definition replying (text : jsstring) : Outside :=
  mkOutside (fun _ _ => inr text) (fun _ _ _ => None)
    (fun _ _ _ _ => None) (fun _ => 0%Z).

Definition env_dev : Env :=
  mkEnv (Some (lit "development"))
    (Some (lit "owner@example.com")) (Some (lit "+15550100"))
    (Some (lit "AC0123")) (Some (lit "token")) (Some (lit "+15550199"))
    (Some (lit "smtp.example.com")) (Some (lit "587"))
    (Some (lit "mailer")) (Some (lit "secret"))
    (Some (lit "portfolio@example.com")).

(** Production, the owner phone but no owner email. *)
Definition env_phone_only : Env :=
  mkEnv (Some (lit "production"))
    None (Some (lit "+15550100"))
    (Some (lit "AC0123")) (Some (lit "token")) (Some (lit "+15550199"))
    (Some (lit "smtp.example.com")) (Some (lit "587"))
    (Some (lit "mailer")) (Some (lit "secret"))
    (Some (lit "portfolio@example.com")).

(** Development, neither owner contact, no Twilio account. *)
Definition env_no_contact : Env :=
  mkEnv (Some (lit "development"))
    None None None None None
    (Some (lit "smtp.example.com")) (Some (lit "587"))
    (Some (lit "mailer")) (Some (lit "secret"))
    (Some (lit "portfolio@example.com")).

Definition owner : ObjectId := 1%N.

Definition skill (i : ObjectId) (name : jsstring) : Skill.t :=
  Skill.mk i name SkillCategory.BACKEND 80%Z 0x4008000000000000%N owner.

Definition job (i : ObjectId) (company : jsstring) : Experience.t :=
  Experience.mk i company (lit "Engineer") 0%Z None (Some (lit "Built things"))
    [lit "Shipped"] owner.

Definition urgent : PortfolioReminder.t :=
  PortfolioReminder.mk 10%N (lit "Update resume") (lit "Add the last project")
    0%Z Priority.URGENT false ReminderCategory.RESUME_UPDATE false.

Definition low : PortfolioReminder.t :=
  PortfolioReminder.mk 11%N (lit "Refresh bio") (lit "Rewrite the summary")
    1000%Z Priority.LOW false ReminderCategory.CONTENT_REFRESH false.

Definition far : PortfolioReminder.t :=
  PortfolioReminder.mk 12%N (lit "Add a project") (lit "Next quarter")
    (1000 * lookahead_ms)%Z Priority.HIGH false ReminderCategory.PROJECT_ADD false.

Definition store : Store :=
  mkStore [User.mk owner (lit "Ada") None Role.ADMIN]
    [skill 2%N (lit "Rocq"); skill 3%N (lit "OCaml"); skill 4%N (lit "TypeScript")]
    []
    [job 5%N (lit "Acme"); job 6%N (lit "Initech")]
    [] [] [urgent; low; far] [] [] 20%N.

(** A store with no record at all. *)
Definition empty_store : Store := mkStore [] [] [] [] [] [] [] [] [] 1%N.

Definition world : World := mkWorld store [].

Definition search : JobSearchInput := mkJobSearchInput owner None None None.

(** A JSON string literal. *)
Definition quoted (s : string) : jsstring := [c_quote] ++ lit s ++ [c_quote].

Definition field (k : string) (v : jsstring) : jsstring :=
  quoted k ++ [c_colon] ++ v.

Definition job_text (title : string) : jsstring :=
  [c_lbrace]
  ++ join [c_comma]
       [ field "jobTitle" (quoted title);
         field "company" (quoted "Acme");
         field "location" (quoted "Remote");
         field "description" (quoted "Build things");
         field "requirements" ([c_lbracket] ++ quoted "Rocq" ++ [c_rbracket]);
         field "confidenceScore" (lit "0.9") ]
  ++ [c_rbrace].

(** An array of five job objects, and the reply that carries it in a
    fence. *)
Definition five_jobs_text : jsstring :=
  [c_lbracket]
  ++ join [c_comma]
       (map job_text ["Prover"; "Compiler"; "Kernel"; "Tactic"; "Library"]%string)
  ++ [c_rbracket].



Definition prose_reply : jsstring := lit "Sorry, I cannot help with that.".

(** A JSON array holding one string of three backticks. *)
Definition backticks_text : jsstring :=
  [c_lbracket; c_quote; c_backtick; c_backtick; c_backtick; c_quote;
   c_rbracket].

Definition mail : EmailParams :=
  mkEmailParams (lit "owner@example.com") (lit "Hello")
    (lit "First line" ++ [c_lf] ++ lit "second line") None None.

Definition sms : SMSParams := mkSMSParams (lit "+15550100") (lit "Hello").

Definition hello : ChatInput :=
  mkChatInput (lit "Are you available for freelance work?") None None None.

(** The session [processChatMessage] opens for [hello] in [world]. *)
Definition session : ChatInteraction.t :=
  ChatInteraction.mk 20%N (Some (lit "Anonymous")) None.

Definition world_with_session : World :=
  mkWorld (set_chats [session]
             (mkStore (users store) (skills store) (educations store)
                (experiences store) (projects store) (jobAlerts store)
                (reminders store) (chats store) (chatMessages store) 21%N))
    [].

End Demo.

(* ================================================================= *)
(** ** Shapes the further properties speak of *)


(** The parsed values a for-of loop refuses. *)
Definition not_iterable (v : json) : bool :=
  match v with
  | JArray _ | JString _ => false
  | _ => true
  end.

(** The events of the two notifications that end a job search which
    found [n] jobs. *)
Definition search_notification_events (E : Engine) (env : Env) (n : nat)
  : list event :=
  match truthy (USER_EMAIL env) with
  | Some userEmail => mail_events E env (jobs_mail userEmail n)
  | None => []
  end
  ++ match truthy (USER_PHONE env) with
     | Some userPhone => sms_events env (jobs_sms userPhone n)
     | None => []
     end.


(** The record [processChatMessage] makes of the reply [text] of the model
    in the session [chat], in the store [s]. *)
Definition assistant_message (text : jsstring) (chat : ChatInteraction.t)
    (s : Store) : ChatMessage.t :=
  ChatMessage.mk (next_id s) (trim text) MessageSender.AI
    (ChatInteraction.id chat).

(** The session [processChatMessage] opens for a message without
    [chatId], in the store [s]. *)
Definition opened_session (input : ChatInput) (s : Store)
  : ChatInteraction.t :=
  ChatInteraction.mk (next_id s)
    (Some match truthy (chat_visitorName input) with
          | Some n => n
          | None => lit "Anonymous"
          end)
    (chat_visitorEmail input).

(** The store once the session [c] has been created in it. *)
Definition with_session (c : ChatInteraction.t) (s : Store) : Store :=
  mkStore (users s) (skills s) (educations s) (experiences s) (projects s)
    (jobAlerts s) (reminders s) (chats s ++ [c]) (chatMessages s)
    (N.succ (next_id s)).


(* ================================================================= *)
(** ** [generateReminders] of the content agent *)

(** The [updatedAt] column of the three collections the function reads
    it from, by identifier of the record. *)
Record Audit := mkAudit
  { skill_updatedAt : ObjectId -> Z;
    project_updatedAt : ObjectId -> Z;
    experience_updatedAt : ObjectId -> Z }.

(** [new Date(value)] for a value read from the parsed reply: the time
    value, or [None] for an invalid date.  Parsing a date string is the
    engine's. *)
Record Calendar := mkCalendar { Date_of : option json -> option Z }.

(** [orderBy: { updatedAt: 'desc' }, take: 1]: the latest of the times. *)
Definition latest (times : list Z) : option Z :=
  match times with
  | [] => None
  | t :: r => Some (fold_left Z.max r t)
  end.

Definition priority_of_name (s : jsstring) : option Priority.t :=
  if jsstring_eqb s (lit "LOW") then Some Priority.LOW
  else if jsstring_eqb s (lit "MEDIUM") then Some Priority.MEDIUM
  else if jsstring_eqb s (lit "HIGH") then Some Priority.HIGH
  else if jsstring_eqb s (lit "URGENT") then Some Priority.URGENT
  else None.

Definition category_of_name (s : jsstring) : option ReminderCategory.t :=
  if jsstring_eqb s (lit "SKILL_UPDATE") then Some ReminderCategory.SKILL_UPDATE
  else if jsstring_eqb s (lit "PROJECT_ADD") then Some ReminderCategory.PROJECT_ADD
  else if jsstring_eqb s (lit "RESUME_UPDATE")
       then Some ReminderCategory.RESUME_UPDATE
  else if jsstring_eqb s (lit "EXPERIENCE_UPDATE")
       then Some ReminderCategory.EXPERIENCE_UPDATE
  else if jsstring_eqb s (lit "CONTENT_REFRESH")
       then Some ReminderCategory.CONTENT_REFRESH
  else if jsstring_eqb s (lit "OTHER") then Some ReminderCategory.OTHER
  else None.

(** The [data] of [prisma.portfolioReminder.create], checked against the
    columns of [model PortfolioReminder]: an absent [priority] takes the
    default [MEDIUM], an invalid date is refused. *)
Definition reminder_of (D : Calendar) (i : ObjectId) (reminder : json)
  : option PortfolioReminder.t :=
  match required_string (member reminder (lit "title")),
        required_string (member reminder (lit "description")),
        Date_of D (member reminder (lit "dueDate")),
        match member reminder (lit "priority") with
        | None => Some Priority.MEDIUM
        | Some (JString s) => priority_of_name s
        | Some _ => None
        end,
        match member reminder (lit "category") with
        | Some (JString s) => category_of_name s
        | _ => None
        end with
  | Some title, Some description, Some dueDate, Some priority, Some category =>
      Some (PortfolioReminder.mk i title description dueDate priority false
              category false)
  | _, _, _, _, _ => None
  end.

Definition reminders_failed (e : thrown) : thrown :=
  ErrorObject (lit "Failed to generate reminders: " ++ message_of e).

(** The store once the reminder [r] has been created in it. *)
Definition with_reminder (r : PortfolioReminder.t) (s : Store) : Store :=
  mkStore (users s) (skills s) (educations s) (experiences s) (projects s)
    (jobAlerts s) (reminders s ++ [r]) (chats s) (chatMessages s)
    (N.succ (next_id s)).

(** The reminders the loop creates for [items], the first with identifier
    [i]: it stops at the first value that is [null] or that the store
    rejects. *)
Fixpoint reminders_from (D : Calendar) (i : ObjectId) (items : list json)
  : list PortfolioReminder.t :=
  match items with
  | [] => []
  | JNull :: _ => []
  | v :: r =>
      match reminder_of D i v with
      | Some x => x :: reminders_from D (N.succ i) r
      | None => []
      end
  end.

(** The store once the reminders [l] have been created in it, one after
    the other. *)
Definition with_reminders (l : list PortfolioReminder.t) (s : Store) : Store :=
  mkStore (users s) (skills s) (educations s) (experiences s) (projects s)
    (jobAlerts s) (reminders s ++ l) (chats s) (chatMessages s)
    (next_id s + N.of_nat (List.length l))%N.

(** A suggestion the store takes: not [null], and accepted whatever
    identifier the record gets. *)
Definition accepted_suggestion (D : Calendar) (v : json) : Prop :=
  v <> JNull /\ forall i, reminder_of D i v <> None.

(** A reminder as [generateReminders] leaves it. *)
Definition pending (r : PortfolioReminder.t) : Prop :=
  PortfolioReminder.completed r = false
  /\ PortfolioReminder.notificationSent r = false.

Section Reminders.

Variable E : Engine.
Variable P : Outside.
Variable env : Env.
Variable A : Audit.
Variable D : Calendar.

Definition reminderPrompt
    (skillsLastUpdated projectsLastUpdated experienceLastUpdated currentDate
       : jsstring) : jsstring :=
  lit "
  You are an AI portfolio manager scheduling regular updates for the user's portfolio.

  User's Portfolio Last Updates:
  Skills last updated: " ++ skillsLastUpdated ++ lit "
  Projects last updated: " ++ projectsLastUpdated ++ lit "
  Experience last updated: " ++ experienceLastUpdated ++ lit "

  Current date: " ++ currentDate ++ lit "

  Based on this information, create a set of reminders for the user to keep their portfolio updated.

  Generate 3-5 specific reminders, each with:
  1. Title (short, specific)
  2. Description (detailed, actionable)
  3. Suggested due date (in YYYY-MM-DD format)
  4. Priority (LOW, MEDIUM, HIGH, URGENT)
  5. Category (SKILL_UPDATE, PROJECT_ADD, RESUME_UPDATE, EXPERIENCE_UPDATE, CONTENT_REFRESH, OTHER)

  Format your response as a JSON array of reminder objects.
  ".

(** [x.length > 0 ? x[0].updatedAt.toISOString().split('T')[0] : 'never']. *)
Definition last_updated (times : list Z) : jsstring :=
  match latest times with
  | Some t => toISODate E t
  | None => lit "never"
  end.

(** The prompt of the reminder generation for [userId], in the store [s]
    at the time [now]. *)
Definition reminder_generation_prompt (userId : ObjectId) (s : Store)
    (now : Z) : jsstring :=
  reminderPrompt
    (last_updated
       (map (fun x => skill_updatedAt A (Skill.id x)) (skills_of userId s)))
    (last_updated
       (map (fun x => project_updatedAt A (Project.id x)) (projects_of userId s)))
    (last_updated
       (map (fun x => experience_updatedAt A (Experience.id x))
          (experiences_of userId s)))
    (toISODate E now).

(** [prisma.portfolioReminder.create] on one suggestion. *)
Definition create_reminder (reminder : json) : M PortfolioReminder.t :=
  match reminder with
  | JNull => raise E (Property_of_null (lit "title"))
  | _ =>
      s <- read_db ;;
      match reminder_of D (next_id s) reminder with
      | Some r => write_db (with_reminder r s) ;; ret r
      | None => raise E Prisma_validation
      end
  end.

(** The loop that creates the reminders and pushes them on
    [createdReminders]. *)
Fixpoint create_reminders (items : list json)
    (createdReminders : list PortfolioReminder.t)
  : M (list PortfolioReminder.t) :=
  match items with
  | [] => ret createdReminders
  | reminder :: r =>
      createdReminder <- create_reminder reminder ;;
      create_reminders r (createdReminders ++ [createdReminder])
  end.

(** What a for-of loop iterates over. *)
Definition items_of (v : json) : M (list json) :=
  match v with
  | JArray items => ret items
  | JString s => ret (map JString (code_points s))
  | _ => raise E Not_iterable
  end.

Definition reminders_mail (to : jsstring) (n : nat) : EmailParams :=
  mkEmailParams to (lit "New Portfolio Update Reminders")
    (lit "Your AI portfolio manager has created " ++ show_nat n
     ++ lit " new reminders to help you keep your portfolio up-to-date. Check your dashboard to view them.")
    None None.

Definition generateReminders (userId : ObjectId)
  : M (list PortfolioReminder.t) :=
  try_catch
    (s <- read_db ;;
     now <- current_time P ;;
     text <- chain_call P (reminder_generation_prompt userId s now) ;;
     reminderSuggestions <-
       match parse_reply text with
       | Some v => ret v
       | None => raise E (JSON_syntax (trim (strip_fences text)))
       end ;;
     items <- items_of reminderSuggestions ;;
     createdReminders <- create_reminders items [] ;;
     match truthy (USER_EMAIL env) with
     | Some userEmail =>
         _ <- sendMail E P env
                (reminders_mail userEmail (List.length createdReminders)) ;;
         ret tt
     | None => ret tt
     end ;;
     ret createdReminders)
    (fun error => throw (reminders_failed error)).

(** The events of the notification that ends a generation of [n]
    reminders. *)
Definition generation_notification_events (n : nat) : list event :=
  match truthy (USER_EMAIL env) with
  | Some userEmail => mail_events E env (reminders_mail userEmail n)
  | None => []
  end.

End Reminders.

(* ================================================================= *)
(** ** [distributeResume] of [job-agent.ts] *)

Module DistributionStatus.
Inductive t := SENT | VIEWED | RESPONDED | INTERVIEW | REJECTED | NO_RESPONSE.
End DistributionStatus.

(** [model ResumeDistribution]; [sentDate] is filled by the store like the
    audit columns and read by nothing here. *)
Module ResumeDistribution.
Record t := mk
  { id : ObjectId; companyName : jsstring; contactEmail : option jsstring;
    contactPerson : option jsstring; followUpDate : option Z;
    status : DistributionStatus.t; response : option jsstring }.
End ResumeDistribution.

(** [z.infer<typeof resumeDistributionSchema>]; an empty [jobAlertId] is an
    absent one for the guard [if (jobAlertId)]. *)
Record ResumeDistributionInput := mkResumeDistributionInput
  { dist_userId : ObjectId; dist_jobAlertId : option ObjectId;
    dist_companyName : jsstring; dist_jobTitle : jsstring;
    dist_contactEmail : jsstring; dist_contactPerson : option jsstring;
    dist_jobDescription : jsstring }.

(** [{ success: boolean; message: string }]. *)
Record DistributionResult := mkDistributionResult
  { result_success : bool; result_message : jsstring }.

(** The world together with the collection of resume distributions. *)
Record Ledger := mkLedger
  { world : World; resumeDistributions : list ResumeDistribution.t }.

(** Computations over the ledger; the ones over the world run in it. *)
Definition L (A : Type) : Type := Ledger -> outcome A * Ledger.

Definition lift {A} (m : M A) : L A :=
  fun l =>
    match m (world l) with
    | (r, w) => (r, mkLedger w (resumeDistributions l))
    end.

Definition ret_L {A} (a : A) : L A := fun l => (Ok a, l).

Definition bind_L {A B} (m : L A) (k : A -> L B) : L B :=
  fun l =>
    match m l with
    | (Ok a, l') => k a l'
    | (Throw e, l') => (Throw e, l')
    end.

Definition try_catch_L {A} (m : L A) (h : thrown -> L A) : L A :=
  fun l =>
    match m l with
    | (Ok a, l') => (Ok a, l')
    | (Throw e, l') => h e l'
    end.

Declare Scope ledger_scope.
Delimit Scope ledger_scope with ledger.
Notation "x <- m ;; k" := (bind_L m (fun x => k))
  (at level 61, m at next level, right associativity) : ledger_scope.
Notation "m ;; k" := (bind_L m (fun _ => k))
  (at level 61, right associativity) : ledger_scope.

(** [prisma.user.findUnique({ where: { id } })]. *)
Definition find_user (uid : ObjectId) (s : Store) : option User.t :=
  find (fun u => N.eqb (User.id u) uid) (users s).

(** [orderBy: { key: "desc" }]: records with equal keys come in insertion
    order. *)
Fixpoint insert_desc {A} (key : A -> Z) (x : A) (l : list A) : list A :=
  match l with
  | [] => [x]
  | y :: r =>
      if Z.ltb (key x) (key y) then y :: insert_desc key x r else x :: y :: r
  end.

Definition order_desc {A} (key : A -> Z) (l : list A) : list A :=
  fold_right (insert_desc key) [] l.

(** [findMany({ where: { userId }, orderBy: { proficiency: "desc" },
    take: 10 })]. *)
Definition top_skills (uid : ObjectId) (s : Store) : list Skill.t :=
  firstn 10 (order_desc Skill.proficiency (skills_of uid s)).

(** [findMany({ where: { userId }, orderBy: { startDate: "desc" },
    take: 3 })]. *)
Definition recent_experiences (uid : ObjectId) (s : Store)
  : list Experience.t :=
  firstn 3 (order_desc Experience.startDate (experiences_of uid s)).

Definition has_alert (i : ObjectId) (s : Store) : bool :=
  existsb (fun a => N.eqb (JobAlert.id a) i) (jobAlerts s).

(** [data: { status: "APPLIED", appliedAt }]. *)
Definition applied (appliedAt : Z) (a : JobAlert.t) : JobAlert.t :=
  JobAlert.mk (JobAlert.id a) (JobAlert.jobTitle a) (JobAlert.company a)
    (JobAlert.location a) (JobAlert.description a) (JobAlert.requirements a)
    (JobAlert.salary a) (JobAlert.applicationUrl a) (JobAlert.confidence a)
    (Some appliedAt) JobStatus.APPLIED (JobAlert.userId a).

Definition applied_in (i : ObjectId) (appliedAt : Z) (l : list JobAlert.t)
  : list JobAlert.t :=
  map (fun a => if N.eqb (JobAlert.id a) i then applied appliedAt a else a) l.

(** The record [prisma.resumeDistribution.create] makes of the input, with
    the identifier [i]. *)
Definition distribution_of (i : ObjectId) (input : ResumeDistributionInput)
  : ResumeDistribution.t :=
  ResumeDistribution.mk i (dist_companyName input)
    (Some (dist_contactEmail input)) (truthy (dist_contactPerson input))
    None DistributionStatus.SENT None.

Definition user_not_found : thrown := ErrorObject (lit "User not found").

Definition distribution_failed (e : thrown) : DistributionResult :=
  mkDistributionResult false
    (lit "Failed to distribute resume: " ++ message_of e).

Definition distribution_done (input : ResumeDistributionInput)
  : DistributionResult :=
  mkDistributionResult true
    (lit "Resume and cover letter sent to " ++ dist_companyName input
     ++ lit " for the " ++ dist_jobTitle input ++ lit " position.").

(** The application sent to the company. *)
Definition application_mail (input : ResumeDistributionInput)
    (coverLetter : jsstring) : EmailParams :=
  mkEmailParams (dist_contactEmail input)
    (lit "Application for " ++ dist_jobTitle input ++ lit " position at "
     ++ dist_companyName input)
    coverLetter None None.

(** The notification sent to the owner. *)
Definition distribution_mail (to : jsstring) (input : ResumeDistributionInput)
  : EmailParams :=
  mkEmailParams to
    (lit "Resume sent to " ++ dist_companyName input)
    (lit "Your resume has been sent to " ++ dist_companyName input
     ++ lit " for the " ++ dist_jobTitle input
     ++ lit " position. A follow-up has been scheduled for one week from today.")
    None None.

(** The ledger once the world has moved to [w]. *)
Definition in_world (w : World) (l : Ledger) : Ledger :=
  mkLedger w (resumeDistributions l).

(** The world once an identifier has been drawn in it. *)
Definition drawn (w : World) : World :=
  mkWorld
    (mkStore (users (db w)) (skills (db w)) (educations (db w))
       (experiences (db w)) (projects (db w)) (jobAlerts (db w))
       (reminders (db w)) (chats (db w)) (chatMessages (db w))
       (N.succ (next_id (db w))))
    (trace w).

(** The world once the events [es] have been appended to its trace. *)
Definition traced (es : list event) (w : World) : World :=
  mkWorld (db w) (trace w ++ es).

(** The world once the alert [i] has been updated at [now]. *)
Definition with_applied (i : ObjectId) (now : Z) (w : World) : World :=
  mkWorld (set_jobAlerts (applied_in i now (jobAlerts (db w))) (db w))
    (trace w).

Section Resume.

Variable E : Engine.
Variable P : Outside.
Variable env : Env.

Local Open Scope ledger_scope.

Definition resumeDistributionPrompt
    (jobTitle company jobDescription userName userSkills userExperience
       : jsstring) : jsstring :=
  lit "
  You are an expert career advisor helping to create personalized messages to send along with a resume.

  Job Details:
  Title: " ++ jobTitle ++ lit "
  Company: " ++ company ++ lit "
  Description: " ++ jobDescription ++ lit "

  User Profile:
  Name: " ++ userName ++ lit "
  Skills: " ++ userSkills ++ lit "
  Experience: " ++ userExperience ++ lit "

  Create a personalized cover letter to send to this company along with the resume. The cover letter should:
  1. Address the company specifically
  2. Highlight the user's relevant skills and experience
  3. Explain why they're a good fit for this position
  4. Be professional, enthusiastic, and concise (around 250 words)
  5. Include a call to action for an interview

  Return only the cover letter text without any additional commentary.
  ".

Definition resume_experience (x : Experience.t) : jsstring :=
  Experience.position x ++ lit " at " ++ Experience.company x ++ lit ": "
  ++ null_or (Experience.description x).

(** The prompt of the cover letter for [user], in the store [s]. *)
Definition cover_letter_prompt (input : ResumeDistributionInput)
    (user : User.t) (s : Store) : jsstring :=
  let userId := dist_userId input in
  let skillsText :=
    join (lit ", ") (map Skill.name (top_skills userId s)) in
  let experienceText :=
    join [c_lf; c_lf] (map resume_experience (recent_experiences userId s)) in
  resumeDistributionPrompt (dist_jobTitle input) (dist_companyName input)
    (dist_jobDescription input) (User.name user) skillsText experienceText.

(** [prisma.resumeDistribution.create]. *)
Definition create_distribution (input : ResumeDistributionInput)
  : L ResumeDistribution.t :=
  i <- lift fresh_id ;;
  fun l =>
    let d := distribution_of i input in
    (Ok d, mkLedger (world l) (resumeDistributions l ++ [d])).

(** [prisma.jobAlert.update({ where: { id },
    data: { status: "APPLIED", appliedAt } })]. *)
Definition update_applied (i : ObjectId) (appliedAt : Z) : M unit :=
  bind read_db (fun s =>
    if has_alert i s
    then write_db (set_jobAlerts (applied_in i appliedAt (jobAlerts s)) s)
    else raise E Prisma_not_found).

Definition distributeResume (input : ResumeDistributionInput)
  : L DistributionResult :=
  try_catch_L
    (let userId := dist_userId input in
     s <- lift read_db ;;
     user <- match find_user userId s with
             | Some u => ret_L u
             | None => lift (throw user_not_found)
             end ;;
     text <- lift (chain_call P (cover_letter_prompt input user s)) ;;
     let coverLetter := trim text in
     _ <- create_distribution input ;;
     match dist_jobAlertId input with
     | Some jobAlertId =>
         now <- lift (current_time P) ;;
         lift (update_applied jobAlertId now)
     | None => ret_L tt
     end ;;
     _ <- lift (sendMail E P env (application_mail input coverLetter)) ;;
     match truthy (USER_EMAIL env) with
     | Some userEmail =>
         _ <- lift (sendMail E P env (distribution_mail userEmail input)) ;;
         ret_L tt
     | None => ret_L tt
     end ;;
     ret_L (distribution_done input))
    (fun error => ret_L (distribution_failed error)).

(** The events of the two mails of a distribution. *)
Definition distribution_events (input : ResumeDistributionInput)
    (coverLetter : jsstring) : list event :=
  mail_events E env (application_mail input coverLetter)
  ++ match truthy (USER_EMAIL env) with
     | Some userEmail => mail_events E env (distribution_mail userEmail input)
     | None => []
     end.

End Resume.

(* ================================================================= *)
(** ** [getChatHistory] of the chat agent *)

(** The [timestamp] column of the chat messages, by identifier of the
    message. *)
Record Timeline := mkTimeline { message_timestamp : ObjectId -> Z }.

(** [orderBy: { key: "asc" }]: records with equal keys come in insertion
    order. *)
Fixpoint insert_asc {A} (key : A -> Z) (x : A) (l : list A) : list A :=
  match l with
  | [] => [x]
  | y :: r =>
      if Z.ltb (key y) (key x) then y :: insert_asc key x r else x :: y :: r
  end.

Definition order_asc {A} (key : A -> Z) (l : list A) : list A :=
  fold_right (insert_asc key) [] l.

(** [{ chat, messages }]. *)
Record ChatHistory := mkChatHistory
  { history_chat : ChatInteraction.t; history_messages : list ChatMessage.t }.

Definition history_failed (e : thrown) : thrown :=
  ErrorObject (lit "Failed to get chat history: " ++ message_of e).

Definition getChatHistory (T : Timeline) (chatId : ObjectId) : M ChatHistory :=
  try_catch
    (s <- read_db ;;
     chat <- match find_chat chatId s with
             | Some chat => ret chat
             | None => throw (chat_not_found chatId)
             end ;;
     s <- read_db ;;
     let messages :=
       order_asc (fun m => message_timestamp T (ChatMessage.id m))
         (conversation_of chatId s) in
     ret (mkChatHistory chat messages))
    (fun error => throw (history_failed error)).

(* ================================================================= *)
(** ** Further concrete data *)

Module Sample.

(** Production with every variable configured. *)
Definition env_prod : Env :=
  mkEnv (Some (lit "production"))
    (Some (lit "owner@example.com")) (Some (lit "+15550100"))
    (Some (lit "AC0123")) (Some (lit "token")) (Some (lit "+15550199"))
    (Some (lit "smtp.example.com")) (Some (lit "587"))
    (Some (lit "mailer")) (Some (lit "secret"))
    (Some (lit "portfolio@example.com")).

(** The model answers, the mail and SMS providers refuse. *)
Definition undelivered (text : jsstring) : Outside :=
  mkOutside (fun _ _ => inr text) (fun _ _ _ => Some Demo.refused)
    (fun _ _ _ _ => Some Demo.refused) (fun _ => 0%Z).

(** An object that wraps the array of jobs. *)
Definition wrapped_reply : jsstring :=
  [c_lbrace] ++ Demo.field "jobs" Demo.five_jobs_text ++ [c_rbrace].

Definition wrapped : json :=
  match parse_reply wrapped_reply with
  | Some v => v
  | None => JNull
  end.

(** A job object followed by a number. *)
Definition mixed_reply : jsstring :=
  [c_lbracket] ++ Demo.job_text "Prover" ++ [c_comma] ++ lit "42"
  ++ [c_rbracket].

Definition prover : json :=
  match JSON_parse (Demo.job_text "Prover") with
  | Some v => v
  | None => JNull
  end.

Definition empty_array : jsstring := [c_lbracket; c_rbracket].

(** A message for a session nobody opened, and one for the session of
    [Demo.world_with_session]. *)
Definition stray : ChatInput :=
  mkChatInput (lit "Hello again") (Some 99%N) None None.

Definition follow_up : ChatInput :=
  mkChatInput (lit "And next month?") (Some 20%N) None None.

Definition answer : jsstring :=
  lit " Yes, Ada is open to freelance work. " ++ [c_lf].

Definition audit : Audit :=
  mkAudit (fun _ => 0%Z) (fun _ => 0%Z) (fun _ => 0%Z).

(** A calendar that knows one day. *)
Definition calendar : Calendar :=
  mkCalendar
    (fun v =>
       match v with
       | Some (JString s) =>
           if jsstring_eqb s (lit "2024-02-01") then Some 1706745600000%Z
           else None
       | _ => None
       end).

Definition suggestion_text : jsstring :=
  [c_lbrace]
  ++ join [c_comma]
       [ Demo.field "title" (Demo.quoted "Review skills");
         Demo.field "description" (Demo.quoted "Update the proficiency levels");
         Demo.field "dueDate" (Demo.quoted "2024-02-01");
         Demo.field "priority" (Demo.quoted "HIGH");
         Demo.field "category" (Demo.quoted "SKILL_UPDATE") ]
  ++ [c_rbrace].

Definition suggestion : json :=
  match JSON_parse suggestion_text with
  | Some v => v
  | None => JNull
  end.

(** One suggestion in a fence, and one followed by [null]. *)
Definition suggestions_reply : jsstring :=
  fenced [c_lf] ([c_lbracket] ++ suggestion_text ++ [c_rbracket]) [c_lf].

Definition broken_suggestions_reply : jsstring :=
  [c_lbracket] ++ suggestion_text ++ [c_comma] ++ lit "null" ++ [c_rbracket].

Definition alert : JobAlert.t :=
  JobAlert.mk 15%N (lit "Proof engineer") (lit "Acme") (Some (lit "Remote"))
    (lit "Verify things") [lit "Rocq"] None None 0x3FECCCCCCCCCCCCD%N None
    JobStatus.IDENTIFIED Demo.owner.

(** The portfolio of [Demo.store] with one job alert, and no distribution
    yet. *)
Definition ledger : Ledger :=
  mkLedger (mkWorld (set_jobAlerts [alert] Demo.store) []) [].

Definition application (userId : ObjectId) (jobAlertId : option ObjectId)
  : ResumeDistributionInput :=
  mkResumeDistributionInput userId jobAlertId (lit "Acme")
    (lit "Proof engineer") (lit "jobs@acme.example") (Some (lit "Grace"))
    (lit "Verify things").

Definition cover_letter : jsstring :=
  [c_lf] ++ lit "Dear Grace, I would like to apply. " ++ [c_lf].

Definition timeline : Timeline := mkTimeline (fun i => Z.of_N i).

(** A portfolio with eleven skills, of proficiency 50 to 60, and four
    experiences, started at times 1 to 4. *)
Definition graded_skill (n : N) : Skill.t :=
  Skill.mk (100 + n)%N (lit "Skill") SkillCategory.BACKEND (50 + Z.of_N n)%Z
    0x4008000000000000%N Demo.owner.

Definition dated_job (n : N) : Experience.t :=
  Experience.mk (200 + n)%N (lit "Acme") (lit "Engineer") (Z.of_N n) None
    None [] Demo.owner.

Definition full_ledger : Ledger :=
  mkLedger
    (mkWorld
       (mkStore (users Demo.store)
          (map graded_skill [3; 0; 10; 7; 1; 9; 4; 6; 2; 8; 5]%N)
          [] (map dated_job [2; 4; 1; 3]%N) [] [] [] [] [] 300%N)
       [])
    [].

(** Every provider answers, half a day before the day the calendar
    knows. *)
Definition on_the_eve (text : jsstring) : Outside :=
  mkOutside (fun _ _ => inr text) (fun _ _ _ => None)
    (fun _ _ _ _ => None) (fun _ => 1706702400000%Z).

End Sample.

(* ================================================================= *)
(** ** Properties of the senders *)

Section SenderProperties.

Variable E : Engine.
Variable P : Outside.
Variable env : Env.

Lemma sendMail_run (p : EmailParams) (w : World) :
  sendMail E P env p w
  = (Ok (match smtp P (called (EvSendMail p) w) (transport E env)
                 (mail_message env p) with
         | None => true
         | Some _ => development env
         end),
     mkWorld (db w) (trace w ++ mail_events E env p)).
Proof.
  unfold sendMail, bind, try_catch, emit, smtp_send, mail_events, called.
  cbn.
  destruct (smtp P _ _ _); cbn; rewrite <- app_assoc; cbn.
  - destruct (development env); reflexivity.
  - reflexivity.
Qed.

Lemma sendSMS_run (p : SMSParams) (w : World) :
  sendSMS P env p w
  = (Ok (match truthy (TWILIO_ACCOUNT_SID env), truthy (TWILIO_AUTH_TOKEN env),
               truthy (TWILIO_PHONE_NUMBER env) with
         | Some sid, Some token, Some from =>
             match twilio P (called (EvSendSMS p) w) sid token
                     (mkSmsMessage (sms_body p) from (sms_to p)) with
             | None => true
             | Some _ => development env
             end
         | _, _, _ => false
         end),
     mkWorld (db w) (trace w ++ sms_events env p)).
Proof.
  unfold sendSMS, bind, try_catch, emit, twilio_create, sms_events, called.
  cbn.
  destruct (truthy (TWILIO_ACCOUNT_SID env)) as [sid|];
    destruct (truthy (TWILIO_AUTH_TOKEN env)) as [token|];
    destruct (truthy (TWILIO_PHONE_NUMBER env)) as [from|]; cbn;
    try reflexivity.
  destruct (twilio P _ _ _ _); cbn; rewrite <- app_assoc; cbn.
  - destruct (development env); reflexivity.
  - reflexivity.
Qed.

Lemma sendMail_db (p : EmailParams) (w : World) :
  db (snd (sendMail E P env p w)) = db w.
Proof. rewrite sendMail_run. reflexivity. Qed.

Lemma sendSMS_db (p : SMSParams) (w : World) :
  db (snd (sendSMS P env p w)) = db w.
Proof. rewrite sendSMS_run. reflexivity. Qed.

(** C7.  [sendMail] and [sendSMS] return a boolean on every input and in
    every world: no run of either ends in a throw.  When [NODE_ENV] is
    [development] and the request a sender makes to its provider throws
    (for [sendSMS] the request is made once the three Twilio variables are
    configured), the sender returns [true]. *)
Theorem senders_return_boolean_dev_reports_success
    (mp : EmailParams) (sp : SMSParams) (w : World) :
  (exists b, fst (sendMail E P env mp w) = Ok b)
  /\ (exists b, fst (sendSMS P env sp w) = Ok b)
  /\ (development env = true ->
      forall e,
        smtp P (called (EvSendMail mp) w) (transport E env)
          (mail_message env mp) = Some e ->
        fst (sendMail E P env mp w) = Ok true)
  /\ (development env = true ->
      forall sid token from e,
        truthy (TWILIO_ACCOUNT_SID env) = Some sid ->
        truthy (TWILIO_AUTH_TOKEN env) = Some token ->
        truthy (TWILIO_PHONE_NUMBER env) = Some from ->
        twilio P (called (EvSendSMS sp) w) sid token
          (mkSmsMessage (sms_body sp) from (sms_to sp)) = Some e ->
        fst (sendSMS P env sp w) = Ok true).
Proof.
  rewrite sendMail_run, sendSMS_run; cbn.
  repeat split.
  - eexists; reflexivity.
  - eexists; reflexivity.
  - intros Hdev e He. rewrite He, Hdev. reflexivity.
  - intros Hdev sid token from e Hs Ht Hf He.
    rewrite Hs, Ht, Hf, He, Hdev. reflexivity.
Qed.

(** C8.  When one of the three Twilio variables is not configured,
    [sendSMS] returns [false] whatever [NODE_ENV] is, and the run makes no
    request to any provider: the trace gains the record of the call and
    nothing else. *)
Theorem sendSMS_without_credentials
    (sp : SMSParams) (w : World) :
  truthy (TWILIO_ACCOUNT_SID env) = None
  \/ truthy (TWILIO_AUTH_TOKEN env) = None
  \/ truthy (TWILIO_PHONE_NUMBER env) = None ->
  sendSMS P env sp w = (Ok false, called (EvSendSMS sp) w)
  /\ filter is_external (trace (snd (sendSMS P env sp w)))
     = filter is_external (trace w).
Proof.
  intros H. rewrite sendSMS_run. unfold sms_events, called.
  assert (Hm : match truthy (TWILIO_ACCOUNT_SID env),
                     truthy (TWILIO_AUTH_TOKEN env),
                     truthy (TWILIO_PHONE_NUMBER env) with
               | Some _, Some _, Some _ => False
               | _, _, _ => True
               end).
  { destruct H as [H | [H | H]]; rewrite H;
      repeat match goal with |- context [match ?x with _ => _ end] =>
                               destruct x end; exact I. }
  destruct (truthy (TWILIO_ACCOUNT_SID env));
    destruct (truthy (TWILIO_AUTH_TOKEN env));
    destruct (truthy (TWILIO_PHONE_NUMBER env)); try contradiction;
    cbn; rewrite filter_app; cbn; rewrite app_nil_r; auto.
Qed.

End SenderProperties.

(* ================================================================= *)
(** ** Properties of the job search *)

Lemma bind_ok {A B} (m : M A) (k : A -> M B) (w w' : World) (a : A) :
  m w = (Ok a, w') -> bind m k w = k a w'.
Proof. intros H. unfold bind. rewrite H. reflexivity. Qed.

Lemma bind_throw {A B} (m : M A) (k : A -> M B) (w w' : World) (e : thrown) :
  m w = (Throw e, w') -> bind m k w = (Throw e, w').
Proof. intros H. unfold bind. rewrite H. reflexivity. Qed.

Lemma try_catch_ok {A} (m : M A) (h : thrown -> M A) (w w' : World) (a : A) :
  m w = (Ok a, w') -> try_catch m h w = (Ok a, w').
Proof. intros H. unfold try_catch. rewrite H. reflexivity. Qed.

Lemma try_catch_throw {A} (m : M A) (h : thrown -> M A) (w w' : World)
    (e : thrown) :
  m w = (Throw e, w') -> try_catch m h w = h e w'.
Proof. intros H. unfold try_catch. rewrite H. reflexivity. Qed.

Lemma length_zero_eqb {A} (l : list A) :
  Nat.eqb (List.length l) 0 = match l with [] => true | _ :: _ => false end.
Proof. destruct l; reflexivity. Qed.

Section SearchProperties.

Variable E : Engine.
Variable P : Outside.
Variable env : Env.

(** C2.  For a user with no skill record and no experience record,
    [searchJobs] fails with the insufficient-data error of the source (as
    every failure, wrapped at the boundary of the agent), and the world is
    the one it started in: the language model has not been called and
    nothing has been written. *)
Theorem searchJobs_insufficient_data
    (input : JobSearchInput) (w : World) :
  skills_of (search_userId input) (db w) = [] ->
  experiences_of (search_userId input) (db w) = [] ->
  searchJobs E P env input w = (Throw (search_failed insufficient_data), w)
  /\ filter is_llm (trace (snd (searchJobs E P env input w)))
     = filter is_llm (trace w).
Proof.
  intros Hs He.
  assert (Hrun : searchJobs E P env input w
                 = (Throw (search_failed insufficient_data), w)).
  { unfold searchJobs.
    erewrite try_catch_throw; [reflexivity|].
    unfold bind, read_db. rewrite Hs. reflexivity. }
  rewrite Hrun. auto.
Qed.


(** The run up to the reply of the model. *)
Lemma searchJobs_after_reply
    (input : JobSearchInput) (w : World) (text : jsstring) :
  let userId := search_userId input in
  let prompt :=
    search_prompt E input (skills_of userId (db w))
      (experiences_of userId (db w)) in
  skills_of userId (db w) <> [] ->
  experiences_of userId (db w) <> [] ->
  llm P w prompt = inr text ->
  searchJobs E P env input w
  = try_catch
      (jobResults <-
         match parse_reply text with
         | Some v => ret v
         | None => raise E (JSON_syntax (trim (strip_fences text)))
         end ;;
       for_of E (save_alert E userId) jobResults ;;
       match truthy (USER_EMAIL env) with
       | Some userEmail =>
           _ <- sendMail E P env (jobs_mail userEmail (js_length jobResults)) ;;
           ret tt
       | None => ret tt
       end ;;
       match truthy (USER_PHONE env) with
       | Some userPhone =>
           _ <- sendSMS P env (jobs_sms userPhone (js_length jobResults)) ;;
           ret tt
       | None => ret tt
       end ;;
       ret jobResults)
      (fun error => throw (search_failed error))
      (called (EvLLM prompt) w).
Proof.
  intros userId prompt Hs He Hllm.
  unfold searchJobs, try_catch.
  fold userId.
  unfold bind at 1. unfold read_db at 1. cbn iota beta.
  rewrite !length_zero_eqb.
  destruct (skills_of userId (db w)) as [|s1 ss] eqn:Es; [congruence|].
  destruct (experiences_of userId (db w)) as [|e1 es] eqn:Ee; [congruence|].
  cbn [orb].
  unfold bind at 1. unfold ret at 1. cbn iota beta.
  unfold bind at 1. unfold chain_call at 1.
  subst prompt. rewrite Hllm. reflexivity.
Qed.

(** C3.  When the reply of the model, fences stripped and trimmed, is not
    JSON, [searchJobs] fails with the syntax error of [JSON.parse] (wrapped
    at the boundary of the agent) and the store is the one the run started
    with: no job alert has been written. *)
Theorem searchJobs_malformed_reply
    (input : JobSearchInput) (w : World) (text : jsstring) :
  let userId := search_userId input in
  let prompt :=
    search_prompt E input (skills_of userId (db w))
      (experiences_of userId (db w)) in
  skills_of userId (db w) <> [] ->
  experiences_of userId (db w) <> [] ->
  llm P w prompt = inr text ->
  parse_reply text = None ->
  searchJobs E P env input w
  = (Throw (search_failed
              (ErrorObject
                 (error_message E (JSON_syntax (trim (strip_fences text)))))),
     called (EvLLM prompt) w)
  /\ db (snd (searchJobs E P env input w)) = db w
  /\ jobAlerts (db (snd (searchJobs E P env input w))) = jobAlerts (db w).
Proof.
  intros userId prompt Hs He Hllm Hparse.
  pose proof (searchJobs_after_reply (input := input) Hs He Hllm) as Hrun.
  cbv zeta in Hrun. fold userId prompt in Hrun.
  rewrite Hrun, Hparse.
  cbn. auto.
Qed.

Lemma is_string_inv (v : option json) :
  is_string v = true -> exists s, v = Some (JString s).
Proof. destruct v as [[]|]; cbn; try discriminate. eauto. Qed.

Lemma is_number_inv (v : option json) :
  is_number v = true -> exists l, v = Some (JNumber l).
Proof. destruct v as [[]|]; cbn; try discriminate. eauto. Qed.

Lemma is_optional_string_inv (v : option json) :
  is_optional_string v = true -> exists o, optional_string v = Some o.
Proof. destruct v as [[]|]; cbn; try discriminate; eauto. Qed.

Lemma strings_of_total (l : list json) :
  forallb (fun x => match x with JString _ => true | _ => false end) l = true ->
  exists r, strings_of l = Some r.
Proof.
  induction l as [|x l IH]; cbn.
  - eauto.
  - destruct x; try discriminate. intros H.
    destruct (IH H) as [r Hr]. rewrite Hr. eauto.
Qed.

Lemma is_string_array_inv (v : option json) :
  is_string_array v = true -> exists r, string_list v = Some r.
Proof.
  destruct v as [[]|]; cbn; try discriminate. apply strings_of_total.
Qed.

Lemma is_job_object_inv (job : json) :
  is_job_object job = true -> exists ms, job = JObject ms.
Proof. destruct job; cbn; try discriminate. eauto. Qed.

(** The store accepts a job object, and the record it makes of it carries
    the fields of the object and the default status. *)
Lemma alert_of_job_object (i userId : ObjectId) (job : json) :
  is_job_object job = true ->
  exists a,
    alert_of E i userId job = Some a
    /\ job <> JNull
    /\ JobAlert.id a = i
    /\ JobAlert.userId a = userId
    /\ JobAlert.status a = JobStatus.IDENTIFIED
    /\ JobAlert.appliedAt a = None
    /\ member job (lit "jobTitle") = Some (JString (JobAlert.jobTitle a))
    /\ member job (lit "company") = Some (JString (JobAlert.company a))
    /\ member job (lit "description") = Some (JString (JobAlert.description a)).
Proof.
  unfold is_job_object. destruct job; try discriminate.
  intros H. repeat (apply andb_prop in H; destruct H as [H ?]).
  repeat match goal with
         | H : is_string _ = true |- _ =>
             apply is_string_inv in H; destruct H as [? H]
         | H : is_number _ = true |- _ =>
             apply is_number_inv in H; destruct H as [? H]
         | H : is_optional_string _ = true |- _ =>
             apply is_optional_string_inv in H; destruct H as [? H]
         | H : is_string_array _ = true |- _ =>
             apply is_string_array_inv in H; destruct H as [? H]
         end.
  unfold alert_of.
  repeat match goal with H : _ = Some _ |- _ => rewrite H; clear H end.
  cbn [required_string json_truthy].
  match goal with
  | |- context [match ?s with [] => false | _ :: _ => true end] => destruct s
  end; eexists; (split; [reflexivity|]); cbn;
    repeat split; congruence.
Qed.

Lemma with_alerts_cons (a : JobAlert.t) (l : list JobAlert.t) (s : Store) :
  with_alerts l (with_alerts [a] s) = with_alerts (a :: l) s.
Proof.
  unfold with_alerts. cbn [jobAlerts next_id users skills educations
                             experiences projects reminders chats
                             chatMessages List.length].
  rewrite <- app_assoc. cbn [app]. f_equal. lia.
Qed.

Lemma with_alerts_nil (s : Store) : with_alerts [] s = s.
Proof.
  destruct s. unfold with_alerts. cbn. rewrite app_nil_r. f_equal. lia.
Qed.

Lemma save_alert_job_object (userId : ObjectId) (job : json) (w : World) :
  is_job_object job = true ->
  exists a,
    alert_of E (next_id (db w)) userId job = Some a
    /\ job <> JNull
    /\ save_alert E userId job w
       = (Ok tt, mkWorld (with_alerts [a] (db w)) (trace w)).
Proof.
  intros H.
  destruct (alert_of_job_object (next_id (db w)) userId H)
    as (a & Ha & Hnull & _).
  exists a. repeat split; trivial.
  destruct (is_job_object_inv H) as [ms ->].
  unfold save_alert, bind, read_db, fresh_id, write_db.
  cbn [fst snd db]. rewrite Ha.
  unfold with_alerts, set_jobAlerts; cbn. do 3 f_equal. lia.
Qed.

(** The loop over an array of job objects creates one record per element,
    in order, and touches nothing but the alerts and the counter. *)
Lemma save_job_objects (userId : ObjectId) (jobs : list json) :
  forallb is_job_object jobs = true ->
  forall w,
    for_each (save_alert E userId) jobs w
    = (Ok tt,
       mkWorld (with_alerts (alerts_from E (next_id (db w)) userId jobs) (db w))
         (trace w))
    /\ List.length (alerts_from E (next_id (db w)) userId jobs)
       = List.length jobs.
Proof.
  induction jobs as [|job jobs IH]; intros Hall w.
  - cbn. rewrite with_alerts_nil. destruct w; auto.
  - cbn in Hall. apply andb_prop in Hall. destruct Hall as [Hjob Hall].
    destruct (save_alert_job_object userId w Hjob) as (a & Ha & Hnull & Hrun).
    destruct (is_job_object_inv Hjob) as [ms ->].
    cbn [for_each alerts_from]. rewrite Ha.
    erewrite bind_ok by exact Hrun.
    destruct (IH Hall (mkWorld (with_alerts [a] (db w)) (trace w)))
      as [IHrun IHlen].
    cbn [db trace] in IHrun, IHlen.
    replace (next_id (with_alerts [a] (db w))) with (N.succ (next_id (db w)))
      in IHrun, IHlen by (unfold with_alerts; cbn; lia).
    rewrite IHrun, with_alerts_cons.
    cbn [List.length]; auto.
Qed.




End SearchProperties.

(* ================================================================= *)
(** ** Properties of the chat agent *)

Section ChatProperties.

Variable E : Engine.
Variable P : Outside.

Lemma create_chatMessage_run (content : jsstring) (sender : MessageSender.t)
    (cid : ObjectId) (w : World) :
  let m := ChatMessage.mk (next_id (db w)) content sender cid in
  create_chatMessage content sender cid w
  = (Ok m, mkWorld (with_message m (db w)) (trace w)).
Proof. reflexivity. Qed.

(** Finding or opening the session leaves the messages alone. *)
Lemma get_or_create_chat_messages (input : ChatInput) (w w1 : World)
    (session : ChatInteraction.t * list ChatMessage.t) :
  get_or_create_chat input w = (Ok session, w1) ->
  chatMessages (db w1) = chatMessages (db w) /\ trace w1 = trace w.
Proof.
  unfold get_or_create_chat.
  destruct (chat_chatId input) as [cid|].
  - unfold bind, read_db. cbn.
    destruct (find_chat cid (db w)); cbn; intros H; inversion H; subst; auto.
  - cbn. intros H; inversion H; subst; cbn; auto.
Qed.

(** The session is found or opened unless [chatId] names no session. *)
Lemma get_or_create_chat_total (input : ChatInput) (w : World) :
  (forall cid, chat_chatId input = Some cid -> find_chat cid (db w) <> None) ->
  exists session w1, get_or_create_chat input w = (Ok session, w1).
Proof.
  unfold get_or_create_chat. intros H.
  destruct (chat_chatId input) as [cid|].
  - unfold bind, read_db. cbn.
    specialize (H cid eq_refl).
    destruct (find_chat cid (db w)); [|congruence].
    do 2 eexists; reflexivity.
  - do 2 eexists; reflexivity.
Qed.

(** C10.  [processChatMessage] writes the visitor's message before it calls
    the model: the model is asked in a world [w2] whose store already holds
    the message.  When that call throws, the operation fails (with the
    error of the call, wrapped at the boundary of the agent) and the store
    it leaves still holds the message: the messages are the ones the run
    started with and the visitor's. *)
Theorem chat_message_survives_model_failure
    (input : ChatInput) (w w1 : World) (chat : ChatInteraction.t)
    (conversation : list ChatMessage.t) (e : thrown) :
  let visitor := visitor_message input chat (db w1) in
  let w2 := mkWorld (with_message visitor (db w1)) (trace w1) in
  let prompt := chat_prompt E input (db w1) conversation in
  get_or_create_chat input w = (Ok (chat, conversation), w1) ->
  llm P w2 prompt = inl e ->
  processChatMessage E P input w
  = (Throw (chat_failed e), called (EvLLM prompt) w2)
  /\ In visitor (chatMessages (db w2))
  /\ chatMessages (db (snd (processChatMessage E P input w)))
     = chatMessages (db w) ++ [visitor]
  /\ filter is_llm (trace w1) = filter is_llm (trace w).
Proof.
  intros visitor w2 prompt Hchat Hllm.
  destruct (get_or_create_chat_messages Hchat) as [Hmsgs Htrace].
  assert (Hrun : processChatMessage E P input w
                 = (Throw (chat_failed e), called (EvLLM prompt) w2)).
  { unfold processChatMessage.
    erewrite try_catch_throw; [reflexivity|].
    erewrite bind_ok by exact Hchat.
    erewrite bind_ok by reflexivity.
    cbn [fst snd].
    erewrite bind_ok by apply create_chatMessage_run.
    apply bind_throw.
    unfold chain_call.
    unfold w2, visitor, visitor_message, prompt in Hllm |- *.
    rewrite Hllm. reflexivity. }
  rewrite Hrun. cbn [snd called db with_message w2 chatMessages].
  rewrite Hmsgs, Htrace.
  repeat split; auto.
  apply in_or_app. right. left. reflexivity.
Qed.

End ChatProperties.

(* ================================================================= *)
(** ** Properties of the reminder due-check *)

Lemma marked_id (ids : list ObjectId) (r : PortfolioReminder.t) :
  PortfolioReminder.id (marked ids r) = PortfolioReminder.id r.
Proof. unfold marked. destruct (existsb _ _); reflexivity. Qed.

Lemma marked_nil (r : PortfolioReminder.t) : marked [] r = r.
Proof. reflexivity. Qed.

Lemma marked_cons (i : ObjectId) (ids : list ObjectId)
    (r : PortfolioReminder.t) :
  marked ids (if N.eqb (PortfolioReminder.id r) i then mark_notified r else r)
  = marked (i :: ids) r.
Proof.
  unfold marked. cbn [existsb].
  destruct (N.eqb (PortfolioReminder.id r) i) eqn:Hi; cbn [orb].
  - cbn [mark_notified PortfolioReminder.id].
    destruct (existsb _ _); reflexivity.
  - reflexivity.
Qed.

Lemma marked_sent (ids : list ObjectId) (r : PortfolioReminder.t) :
  In (PortfolioReminder.id r) ids ->
  PortfolioReminder.notificationSent (marked ids r) = true.
Proof.
  intros H. unfold marked.
  assert (Hex : existsb (N.eqb (PortfolioReminder.id r)) ids = true).
  { apply existsb_exists. exists (PortfolioReminder.id r).
    split; [exact H | apply N.eqb_refl]. }
  rewrite Hex. reflexivity.
Qed.

Lemma marked_keeps_sent (ids : list ObjectId) (r : PortfolioReminder.t) :
  PortfolioReminder.notificationSent r = true ->
  PortfolioReminder.notificationSent (marked ids r) = true.
Proof. unfold marked. destruct (existsb _ _); auto. Qed.

Lemma reminder_ids_marked (ids : list ObjectId)
    (l : list PortfolioReminder.t) :
  reminder_ids (map (marked ids) l) = reminder_ids l.
Proof.
  unfold reminder_ids. rewrite map_map.
  apply map_ext. intros r. apply marked_id.
Qed.

Lemma reminder_ids_mark_in (i : ObjectId) (l : list PortfolioReminder.t) :
  reminder_ids (mark_in i l) = reminder_ids l.
Proof.
  unfold reminder_ids, mark_in. rewrite map_map.
  apply map_ext. intros r.
  destruct (N.eqb (PortfolioReminder.id r) i); reflexivity.
Qed.

Lemma reminders_mark_all (l : list PortfolioReminder.t) (s : Store) :
  reminders (mark_all l s) = map (marked (reminder_ids l)) (reminders s).
Proof.
  revert s. induction l as [|r l IH]; intros s.
  - cbn. rewrite <- (map_id (reminders s)) at 1.
    apply map_ext. intros x. symmetry. apply marked_nil.
  - cbn [mark_all fold_left]. fold (mark_all l).
    rewrite IH. cbn [reminders set_reminders reminder_ids map].
    unfold mark_in. rewrite map_map.
    apply map_ext. intros x. apply marked_cons.
Qed.

Lemma NoDup_ids_filter (f : PortfolioReminder.t -> bool)
    (l : list PortfolioReminder.t) :
  NoDup (reminder_ids l) -> NoDup (reminder_ids (filter f l)).
Proof.
  induction l as [|r l IH]; cbn; intros H.
  - constructor.
  - apply NoDup_cons_iff in H. destruct H as [Hr Hl].
    destruct (f r); cbn.
    + constructor; [|apply IH; exact Hl].
      intros Hin. apply Hr.
      unfold reminder_ids in *. apply in_map_iff in Hin.
      destruct Hin as (x & Hx & Hin). apply filter_In in Hin.
      rewrite <- Hx. apply in_map. tauto.
    + apply IH; exact Hl.
Qed.

Lemma has_reminder_in (r : PortfolioReminder.t) (s : Store) :
  In (PortfolioReminder.id r) (reminder_ids (reminders s)) ->
  has_reminder (PortfolioReminder.id r) s = true.
Proof.
  intros H. unfold has_reminder. apply existsb_exists.
  apply in_map_iff in H. destruct H as (x & Hx & Hin).
  exists x. split; [exact Hin | apply N.eqb_eq; exact Hx].
Qed.

Lemma due_reminders_incl (now : Z) (s : Store) (r : PortfolioReminder.t) :
  In r (due_reminders now s) ->
  In r (reminders s) /\ is_due (now + lookahead_ms) r = true.
Proof. unfold due_reminders. apply filter_In. Qed.

Section ReminderProperties.

Variable E : Engine.
Variable P : Outside.
Variable env : Env.

(** One turn of the loop, for a reminder the store has. *)
Lemma notify_one_run (r : PortfolioReminder.t) (w : World) :
  has_reminder (PortfolioReminder.id r) (db w) = true ->
  notify_one E P env r w
  = (Ok tt,
     mkWorld (set_reminders (mark_in (PortfolioReminder.id r) (reminders (db w)))
                (db w))
       (trace w ++ reminder_events E env r)).
Proof.
  intros Hhas. unfold notify_one, reminder_events, update_notified.
  unfold bind, ret, read_db, write_db.
  destruct (truthy (USER_EMAIL env)) as [userEmail|];
    destruct (truthy (USER_PHONE env)) as [userPhone|];
    destruct (is_high (PortfolioReminder.priority r));
    rewrite ?sendMail_run; cbn [db trace fst snd];
    rewrite ?sendSMS_run; cbn [db trace fst snd];
    rewrite Hhas; cbn [db trace];
    rewrite ?app_nil_r, <- ?app_assoc; reflexivity.
Qed.

Lemma notify_all_run (l : list PortfolioReminder.t) :
  forall (n : nat) (w : World),
    (forall r, In r l ->
               In (PortfolioReminder.id r) (reminder_ids (reminders (db w)))) ->
    notify_all E P env l n w
    = (Ok (n + List.length l),
       mkWorld (mark_all l (db w))
         (trace w ++ flat_map (reminder_events E env) l)).
Proof.
  induction l as [|r l IH]; intros n w Hin.
  - cbn. rewrite Nat.add_0_r, app_nil_r. destruct w; reflexivity.
  - cbn [notify_all].
    erewrite bind_ok
      by (apply notify_one_run, has_reminder_in, Hin; left; reflexivity).
    rewrite IH.
    + cbn [db trace flat_map List.length mark_all fold_left].
      rewrite <- app_assoc. do 2 f_equal. lia.
    + intros x Hx. cbn [db reminders set_reminders].
      rewrite reminder_ids_mark_in. apply Hin. right. exact Hx.
Qed.

(** The due-check as a whole: it returns the number of reminders selected,
    marks each of them, and leaves in the trace the events of their turns,
    in order. *)
Lemma sendReminderNotifications_run (w : World) :
  let due := due_reminders (clock P w) (db w) in
  sendReminderNotifications E P env w
  = (Ok (List.length due),
     mkWorld (mark_all due (db w))
       (trace w ++ flat_map (reminder_events E env) due)).
Proof.
  intros due. unfold sendReminderNotifications.
  apply try_catch_ok.
  unfold bind at 1. unfold current_time at 1. cbn iota beta.
  unfold bind at 1. unfold read_db at 1. cbn iota beta.
  fold due. rewrite length_zero_eqb.
  destruct due as [|r l] eqn:Hdue.
  - cbn. rewrite app_nil_r. destruct w; reflexivity.
  - rewrite notify_all_run; [reflexivity|].
    intros x Hx. apply in_map.
    assert (Hin : In x (due_reminders (clock P w) (db w)))
      by (fold due; rewrite Hdue; exact Hx).
    apply due_reminders_incl in Hin. tauto.
Qed.

Lemma sendReminderNotifications_reminders (w : World) :
  reminders (db (snd (sendReminderNotifications E P env w)))
  = map (marked (reminder_ids (due_reminders (clock P w) (db w))))
      (reminders (db w)).
Proof.
  rewrite sendReminderNotifications_run. cbn [snd db].
  apply reminders_mark_all.
Qed.

(** After a scan, every record of a selected reminder is marked. *)
Lemma selected_are_marked (w : World) (r r' : PortfolioReminder.t) :
  In r (due_reminders (clock P w) (db w)) ->
  In r' (reminders (db (snd (sendReminderNotifications E P env w)))) ->
  PortfolioReminder.id r' = PortfolioReminder.id r ->
  PortfolioReminder.notificationSent r' = true.
Proof.
  intros Hr Hr' Hid.
  rewrite sendReminderNotifications_reminders in Hr'.
  apply in_map_iff in Hr'. destruct Hr' as (x & <- & _).
  rewrite marked_id in Hid.
  apply marked_sent. rewrite Hid.
  unfold reminder_ids. apply in_map. exact Hr.
Qed.

(** A turn of the loop calls each sender at most once. *)
Lemma reminder_events_at_most_one (r : PortfolioReminder.t) :
  List.length (filter is_mail (reminder_events E env r)) <= 1
  /\ List.length (filter is_sms (reminder_events E env r)) <= 1.
Proof.
  unfold reminder_events, mail_events, sms_events.
  destruct (truthy (USER_EMAIL env)); destruct (truthy (USER_PHONE env));
    destruct (is_high (PortfolioReminder.priority r));
    destruct (truthy (TWILIO_ACCOUNT_SID env));
    destruct (truthy (TWILIO_AUTH_TOKEN env));
    destruct (truthy (TWILIO_PHONE_NUMBER env)); cbn; lia.
Qed.

(** C5.  Two due-checks in immediate succession, on a store whose
    reminders have distinct identifiers (the [@id] column).  The trace
    gains the turns of the reminders the first check selects and then those
    the second selects; every reminder of the first check is marked
    [notificationSent] in the store the second check reads, so none of them
    is selected again; no reminder has more than one turn over the two
    checks, and a turn calls each sender at most once. *)
Theorem reminder_check_twice (w : World) :
  let first := due_reminders (clock P w) (db w) in
  let w1 := snd (sendReminderNotifications E P env w) in
  let second := due_reminders (clock P w1) (db w1) in
  let w2 := snd (sendReminderNotifications E P env w1) in
  NoDup (reminder_ids (reminders (db w))) ->
  trace w2 = trace w ++ flat_map (reminder_events E env) first
                     ++ flat_map (reminder_events E env) second
  /\ (forall r r',
        In r first -> In r' (reminders (db w1)) ->
        PortfolioReminder.id r' = PortfolioReminder.id r ->
        PortfolioReminder.notificationSent r' = true)
  /\ (forall r, In r first ->
                ~ In (PortfolioReminder.id r) (reminder_ids second))
  /\ NoDup (reminder_ids first ++ reminder_ids second)
  /\ (forall r,
        List.length (filter is_mail (reminder_events E env r)) <= 1
        /\ List.length (filter is_sms (reminder_events E env r)) <= 1).
Proof.
  intros first w1 second w2 Hnodup.
  assert (Hmarked : forall r r',
             In r first -> In r' (reminders (db w1)) ->
             PortfolioReminder.id r' = PortfolioReminder.id r ->
             PortfolioReminder.notificationSent r' = true)
    by (intros r r'; apply selected_are_marked).
  assert (Hfresh : forall r, In r first ->
                             ~ In (PortfolioReminder.id r) (reminder_ids second)).
  { intros r Hr Hin. apply in_map_iff in Hin. destruct Hin as (r2 & Hid & Hr2).
    apply due_reminders_incl in Hr2. destruct Hr2 as [Hr2 Hdue].
    pose proof (Hmarked r r2 Hr Hr2 Hid) as Hsent.
    unfold is_due in Hdue. rewrite Hsent in Hdue.
    rewrite andb_false_r in Hdue. discriminate. }
  split; [|split; [|split; [|split]]]; trivial.
  - unfold w2. rewrite sendReminderNotifications_run. cbn [snd trace].
    fold second. unfold w1 at 1.
    rewrite sendReminderNotifications_run. cbn [snd trace]. fold first.
    rewrite app_assoc. reflexivity.
  - apply NoDup_app.
    + apply NoDup_ids_filter. exact Hnodup.
    + apply NoDup_ids_filter. unfold w1.
      rewrite sendReminderNotifications_reminders, reminder_ids_marked.
      exact Hnodup.
    + intros i Hi. apply in_map_iff in Hi. destruct Hi as (r & <- & Hr).
      apply Hfresh. exact Hr.
  - apply reminder_events_at_most_one.
Qed.

Lemma flat_map_in_middle {A B} (f : A -> list B) (x : A) (l : list A) :
  In x l -> exists before after, flat_map f l = before ++ f x ++ after.
Proof.
  intros H. apply in_split in H. destruct H as (l1 & l2 & ->).
  exists (flat_map f l1), (flat_map f l2).
  rewrite flat_map_app. reflexivity.
Qed.





(** A scan never clears a mark. *)
Lemma scan_keeps_marks (i : ObjectId) (w : World) :
  (forall r, In r (reminders (db w)) -> PortfolioReminder.id r = i ->
             PortfolioReminder.notificationSent r = true) ->
  forall r, In r (reminders (db (snd (sendReminderNotifications E P env w)))) ->
            PortfolioReminder.id r = i ->
            PortfolioReminder.notificationSent r = true.
Proof.
  intros H r Hr Hid.
  rewrite sendReminderNotifications_reminders in Hr.
  apply in_map_iff in Hr. destruct Hr as (x & <- & Hx).
  rewrite marked_id in Hid.
  apply marked_keeps_sent. apply H; assumption.
Qed.

End ReminderProperties.

Lemma scans_keep_marks (E : Engine) (P : Outside) (i : ObjectId)
    (envs : list Env) :
  forall w,
    (forall r, In r (reminders (db w)) -> PortfolioReminder.id r = i ->
               PortfolioReminder.notificationSent r = true) ->
    forall r, In r (reminders (db (scans E P envs w))) ->
              PortfolioReminder.id r = i ->
              PortfolioReminder.notificationSent r = true.
Proof.
  induction envs as [|env envs IH]; intros w H; cbn [scans].
  - exact H.
  - apply IH. apply scan_keeps_marks. exact H.
Qed.

Lemma marked_not_due (now : Z) (s : Store) (i : ObjectId) :
  (forall r, In r (reminders s) -> PortfolioReminder.id r = i ->
             PortfolioReminder.notificationSent r = true) ->
  ~ In i (reminder_ids (due_reminders now s)).
Proof.
  intros H Hin. apply in_map_iff in Hin. destruct Hin as (r & Hid & Hr).
  apply due_reminders_incl in Hr. destruct Hr as [Hr Hdue].
  unfold is_due in Hdue. rewrite (H r Hr Hid), andb_false_r in Hdue.
  discriminate.
Qed.

(** C9.  With neither the owner email nor the owner phone configured, the
    due-check returns the number of reminders it selected (positive as soon
    as one is selected) and marks each of them, while the trace is the one
    it started with: no sender has been called.  After any number of later
    scans, under whatever environment, a scan at whatever time selects none
    of them. *)
Theorem reminders_marked_without_contact
    (E : Engine) (P : Outside) (env : Env) (w : World) :
  let due := due_reminders (clock P w) (db w) in
  let w1 := snd (sendReminderNotifications E P env w) in
  truthy (USER_EMAIL env) = None ->
  truthy (USER_PHONE env) = None ->
  sendReminderNotifications E P env w
  = (Ok (List.length due), mkWorld (mark_all due (db w)) (trace w))
  /\ (due <> [] -> 0 < List.length due)
  /\ (forall r r',
        In r due -> In r' (reminders (db w1)) ->
        PortfolioReminder.id r' = PortfolioReminder.id r ->
        PortfolioReminder.notificationSent r' = true)
  /\ (forall (later : list Env) (now : Z) r,
        In r due ->
        ~ In (PortfolioReminder.id r)
            (reminder_ids (due_reminders now (db (scans E P later w1))))).
Proof.
  intros due w1 He Hp.
  assert (Hquiet : forall l, flat_map (reminder_events E env) l = []).
  { induction l as [|r l IH]; cbn; [reflexivity|].
    rewrite IH. unfold reminder_events. rewrite He, Hp. reflexivity. }
  split; [|split; [|split]].
  - rewrite sendReminderNotifications_run. fold due.
    rewrite Hquiet, app_nil_r. reflexivity.
  - destruct due; [congruence | cbn; lia].
  - intros r r'. apply selected_are_marked.
  - intros later now r Hr.
    apply marked_not_due. apply scans_keep_marks.
    intros r' Hr' Hid. exact (selected_are_marked Hr Hr' Hid).
Qed.

(* ================================================================= *)
(** ** Properties of the parse step *)

Lemma ws_not_backtick (c : N) : is_js_ws c = true -> c <> c_backtick.
Proof. intros H ->. discriminate. Qed.

(** *** Stripping the fences *)

Section Strip.

#[local] Arguments N.eqb : simpl never.

Lemma strip_skip (l x : jsstring) :
  strip_fences_from (List.length l) (l ++ x) = strip_fences_from 0 x.
Proof.
  induction l as [|c l IH]; [reflexivity|].
  cbn [List.length app strip_fences_from]. exact IH.
Qed.

Lemma strip_opening_fence (x : jsstring) :
  strip_fences (fence_json ++ x) = strip_fences x.
Proof.
  unfold strip_fences.
  change (fence_json ++ x)
    with (c_backtick :: ([c_backtick; c_backtick] ++ lit "json") ++ x).
  cbn [strip_fences_from].
  replace (starts_with fence_json
             (c_backtick :: ([c_backtick; c_backtick] ++ lit "json") ++ x))
    with true by reflexivity.
  exact (strip_skip ([c_backtick; c_backtick] ++ lit "json") x).
Qed.

Lemma starts_with_fence_head (c : N) (s : jsstring) :
  c <> c_backtick -> starts_with fence (c :: s) = false.
Proof.
  intros H. cbn. apply andb_false_iff. left.
  apply N.eqb_neq. congruence.
Qed.

Lemma starts_with_app_l (p q s : jsstring) :
  starts_with (p ++ q) s = true -> starts_with p s = true.
Proof.
  revert s. induction p as [|a p IH]; intros s; [reflexivity|].
  destruct s as [|b s]; cbn [app starts_with]; [discriminate|].
  intros H. apply andb_prop in H. destruct H as [Hab H].
  rewrite Hab. exact (IH _ H).
Qed.

Lemma starts_with_fence_json_fence (s : jsstring) :
  starts_with fence s = false -> starts_with fence_json s = false.
Proof.
  intros H. destruct (starts_with fence_json s) eqn:Hj; [|reflexivity].
  unfold fence_json in Hj. apply starts_with_app_l in Hj. congruence.
Qed.

Lemma strip_no_match (c : N) (s : jsstring) :
  starts_with fence (c :: s) = false ->
  strip_fences_from 0 (c :: s) = c :: strip_fences_from 0 s.
Proof.
  intros H. cbn [strip_fences_from].
  rewrite (starts_with_fence_json_fence H), H. reflexivity.
Qed.

(** Text without a backtick goes through unchanged. *)
Lemma strip_clean (a b : jsstring) :
  Forall (fun c => c <> c_backtick) a ->
  strip_fences_from 0 (a ++ b) = a ++ strip_fences_from 0 b.
Proof.
  induction 1 as [|c a Hc Ha IH]; [reflexivity|].
  cbn [app]. rewrite strip_no_match by (apply starts_with_fence_head, Hc).
  rewrite IH. reflexivity.
Qed.

Lemma starts_with_fence_inv (s : jsstring) :
  starts_with fence s = true -> exists r, s = fence ++ r.
Proof.
  destruct s as [|c1 [|c2 [|c3 s]]]; cbn; try discriminate;
    try (intros H; repeat (apply andb_prop in H; destruct H as [? H]);
         discriminate).
  intros H. repeat (apply andb_prop in H; destruct H as [? H]).
  repeat match goal with
         | H : N.eqb _ _ = true |- _ => apply N.eqb_eq in H
         end.
  subst. exists s. reflexivity.
Qed.

(** A text with no run of three backticks, followed by text without a
    backtick and the closing fence, loses the fence and nothing else. *)
Lemma strip_body_and_closing_fence (j close : jsstring) :
  no_fence j = true ->
  Forall (fun c => c <> c_backtick) close ->
  strip_fences_from 0 (j ++ close ++ fence) = j ++ close.
Proof.
  intros Hj Hclose. induction j as [|c r IH].
  - cbn [app]. rewrite strip_clean by exact Hclose.
    change (strip_fences_from 0 fence) with (@nil N). apply app_nil_r.
  - cbn [no_fence] in Hj. apply andb_prop in Hj. destruct Hj as [Hc Hr].
    apply negb_true_iff in Hc. specialize (IH Hr).
    destruct (starts_with fence ((c :: r) ++ close ++ fence)) eqn:Hs.
    + (* the match starts inside [j]: then [j] is one or two backticks
         and [close] is empty *)
      apply starts_with_fence_inv in Hs. destruct Hs as [rest Hs].
      destruct r as [|c2 [|c3 r]].
      * destruct close as [|d close].
        -- cbn in Hs. injection Hs as -> _. reflexivity.
        -- cbn in Hs. injection Hs as -> -> _.
           apply Forall_inv in Hclose. congruence.
      * destruct close as [|d close].
        -- cbn in Hs. injection Hs as -> -> _. reflexivity.
        -- cbn in Hs. injection Hs as -> -> -> _.
           apply Forall_inv in Hclose. congruence.
      * cbn in Hs. injection Hs as -> -> -> _. discriminate.
    + cbn [app] in Hs |- *. rewrite (strip_no_match Hs).
      cbn [app] in IH. rewrite IH. reflexivity.
Qed.

Lemma strip_fenced (open j close : jsstring) :
  all_ws open -> all_ws close -> no_fence j = true ->
  strip_fences (fenced open j close) = open ++ j ++ close.
Proof.
  intros Ho Hc Hj. unfold fenced.
  rewrite strip_opening_fence. unfold strip_fences.
  rewrite strip_clean
    by (eapply Forall_impl; [|exact Ho]; apply ws_not_backtick).
  rewrite strip_body_and_closing_fence; trivial.
  eapply Forall_impl; [|exact Hc]. apply ws_not_backtick.
Qed.

End Strip.

(** *** Trimming *)

Lemma trim_start_ws_app (w x : jsstring) :
  all_ws w -> trim_start (w ++ x) = trim_start x.
Proof.
  induction 1 as [|c w Hc Hw IH]; [reflexivity|].
  cbn [app trim_start]. rewrite Hc. exact IH.
Qed.

Lemma trim_start_all_ws (w : jsstring) : all_ws w -> trim_start w = [].
Proof.
  intros H. rewrite <- (app_nil_r w). rewrite trim_start_ws_app; trivial.
Qed.

Lemma trim_start_split (s : jsstring) :
  exists w, all_ws w /\ s = w ++ trim_start s.
Proof.
  induction s as [|c s IH].
  - exists []. split; [constructor | reflexivity].
  - cbn [trim_start]. destruct (is_js_ws c) eqn:Hc.
    + destruct IH as (w & Hw & Hs). exists (c :: w). split.
      * constructor; assumption.
      * cbn [app]. f_equal. exact Hs.
    + exists []. split; [constructor | reflexivity].
Qed.

Lemma trim_start_app_ws (j w : jsstring) :
  all_ws w -> exists w', all_ws w' /\ trim_start (j ++ w) = trim_start j ++ w'.
Proof.
  intros Hw. induction j as [|c j IH].
  - exists []. split; [constructor|].
    cbn [app]. rewrite trim_start_all_ws by exact Hw. reflexivity.
  - cbn [app trim_start]. destruct (is_js_ws c).
    + exact IH.
    + exists w. split; [exact Hw | reflexivity].
Qed.

Lemma all_ws_rev (w : jsstring) : all_ws w -> all_ws (rev w).
Proof. apply Forall_rev. Qed.

Lemma trim_end_app_ws (x w : jsstring) :
  all_ws w -> trim_end (x ++ w) = trim_end x.
Proof.
  intros Hw. unfold trim_end. rewrite rev_app_distr.
  rewrite trim_start_ws_app by (apply all_ws_rev, Hw). reflexivity.
Qed.

Lemma trim_end_split (s : jsstring) :
  exists w, all_ws w /\ s = trim_end s ++ w.
Proof.
  destruct (trim_start_split (rev s)) as (w & Hw & Hs).
  exists (rev w). split; [apply all_ws_rev, Hw|].
  unfold trim_end. rewrite <- rev_app_distr, <- Hs, rev_involutive.
  reflexivity.
Qed.

(** White space around a text does not change what [trim] leaves of it. *)
Lemma trim_surrounded (open j close : jsstring) :
  all_ws open -> all_ws close -> trim (open ++ j ++ close) = trim j.
Proof.
  intros Ho Hc. unfold trim.
  rewrite trim_start_ws_app by exact Ho.
  destruct (trim_start_app_ws j Hc) as (w' & Hw' & ->).
  apply trim_end_app_ws, Hw'.
Qed.

(** A text is white space, what [trim] leaves of it, and white space. *)
Lemma trim_split (s : jsstring) :
  exists w1 w2, all_ws w1 /\ all_ws w2 /\ s = w1 ++ trim s ++ w2.
Proof.
  destruct (trim_start_split s) as (w1 & Hw1 & Hs).
  destruct (trim_end_split (trim_start s)) as (w2 & Hw2 & Ht).
  exists w1, w2. repeat split; trivial.
  unfold trim. rewrite <- Ht. exact Hs.
Qed.

(** *** White space around a JSON text *)

Lemma js_ws_cases (c : N) : is_js_ws c = true -> In c js_whitespace.
Proof.
  unfold is_js_ws. intros H. apply existsb_exists in H.
  destruct H as (x & Hx & He). apply N.eqb_eq in He. subst. exact Hx.
Qed.

Ltac each_ws H :=
  apply js_ws_cases in H; unfold js_whitespace in H; cbn [In] in H;
  repeat (destruct H as [<- | H]; [|]); [..|contradiction].

Ltac open_state :=
  repeat match goal with
         | |- context [match ?x with _ => _ end] => is_var x; destruct x; cbn
         | |- context [num_next ?p _] => is_var p; destruct p; cbn
         | |- context [num_final ?p] => is_var p; destruct p; cbn
         | |- context [literal_rest ?l] => is_var l; destruct l; cbn
         | |- context [nth_error _ ?n] => is_var n; destruct n; cbn
         | |- context [complete _ ?s] => is_var s; destruct s; cbn
         end.

Lemma run_error (s : jsstring) : run s PErr = PErr.
Proof. induction s as [|c s IH]; [reflexivity | exact IH]. Qed.

Lemma run_app (a b : jsstring) (st : pstate) :
  run (a ++ b) st = run b (run a st).
Proof. apply fold_left_app. Qed.

(** Before the value, a white space is skipped if it is one of JSON and is
    an error otherwise. *)
Lemma step_start_ws (c : N) :
  is_js_ws c = true ->
  step (PSt MValue []) c = PSt MValue [] \/ step (PSt MValue []) c = PErr.
Proof. intros H. each_ws H; vm_compute; auto. Qed.

(** Reading a white space never completes a text that was not complete. *)
Lemma finish_step_ws (c : N) (st : pstate) (v : json) :
  is_js_ws c = true -> finish (step st c) = Some v -> finish st = Some v.
Proof.
  intros H. destruct st as [|m stk]; [discriminate|].
  each_ws H; destruct m; cbn; open_state; intros Hf;
    try discriminate Hf; exact Hf.
Qed.

Lemma run_start_ws (w : jsstring) :
  all_ws w -> run w (PSt MValue []) = PSt MValue [] \/ run w (PSt MValue []) = PErr.
Proof.
  induction 1 as [|c w Hc Hw IH]; [left; reflexivity|].
  change (run (c :: w) (PSt MValue [])) with (run w (step (PSt MValue []) c)).
  destruct (step_start_ws Hc) as [-> | ->].
  - exact IH.
  - right. apply run_error.
Qed.

Lemma finish_run_ws (w : jsstring) :
  all_ws w ->
  forall st v, finish (run w st) = Some v -> finish st = Some v.
Proof.
  induction 1 as [|c w Hc Hw IH]; intros st v Hf; [exact Hf|].
  change (run (c :: w) st) with (run w (step st c)) in Hf.
  apply IH in Hf. exact (finish_step_ws Hc Hf).
Qed.

(** A text [JSON.parse] accepts parses to the same value once trimmed. *)
Lemma JSON_parse_trim (j : jsstring) (v : json) :
  JSON_parse j = Some v -> JSON_parse (trim j) = Some v.
Proof.
  destruct (trim_split j) as (w1 & w2 & Hw1 & Hw2 & Hj).
  unfold JSON_parse. rewrite Hj at 1. rewrite !run_app. intros Hf.
  apply (finish_run_ws Hw2) in Hf.
  destruct (run_start_ws Hw1) as [Hs | Hs]; rewrite Hs in Hf.
  - exact Hf.
  - rewrite run_error in Hf. discriminate.
Qed.

(** What the parse step does recover.  For a well-formed JSON text [j]
    with no run of three backticks, the parse step applied to [j] between
    the opening fence with its [json] tag and the closing fence, with any
    white space between the fences and [j], yields the value of parsing
    [j].  (For a text with three backticks in a string it does not: see
    [fenced_reply_counterexample].) *)
Theorem fenced_reply_parses_as_unfenced (open j close : jsstring) :
  JSON_parse j <> None ->
  no_fence j = true ->
  all_ws open -> all_ws close ->
  parse_reply (fenced open j close) = JSON_parse j.
Proof.
  intros Hwf Hj Ho Hc. unfold parse_reply.
  rewrite strip_fenced by assumption.
  rewrite trim_surrounded by assumption.
  destruct (JSON_parse j) as [v|] eqn:Hv; [|congruence].
  apply JSON_parse_trim. exact Hv.
Qed.

(* ================================================================= *)
(** ** The properties on the concrete portfolio *)

Example parse_array_of_scalars :
  JSON_parse (lit " [1, 2.5e3 ,true,null] ")
  = Some (JArray [JNumber (lit "1"); JNumber (lit "2.5e3"); JBool true; JNull]).
Proof. reflexivity. Qed.

Example parse_trailing_comma : JSON_parse (lit "[1,]") = None.
Proof. reflexivity. Qed.

Example parse_leading_zero : JSON_parse (lit "01") = None.
Proof. reflexivity. Qed.

Example parse_empty_text : JSON_parse [] = None.
Proof. reflexivity. Qed.

Example strip_keeps_stray_backtick :
  strip_fences (lit "```json`x````") = lit "`x`".
Proof. reflexivity. Qed.

Example trim_keeps_inner_space : trim (lit "  a b  ") = lit "a b".
Proof. reflexivity. Qed.

Lemma all_ws_newline : all_ws [c_lf].
Proof. repeat constructor. Defined.


(** A search for a user the store knows nothing of. *)
Lemma searchJobs_insufficient_data_witness :
  skills_of Demo.owner Demo.empty_store = []
  /\ searchJobs Demo.engine Demo.unreachable Demo.env_dev Demo.search
       (mkWorld Demo.empty_store [])
     = (Throw (search_failed insufficient_data), mkWorld Demo.empty_store []).
Proof.
  split; [reflexivity|].
  apply (@searchJobs_insufficient_data Demo.engine Demo.unreachable
           Demo.env_dev Demo.search (mkWorld Demo.empty_store []));
    reflexivity.
Defined.

(** A search the model answers in prose. *)
Lemma searchJobs_malformed_reply_witness :
  parse_reply Demo.prose_reply = None
  /\ jobAlerts
       (db (snd (searchJobs Demo.engine (Demo.replying Demo.prose_reply)
                   Demo.env_dev Demo.search Demo.world)))
     = jobAlerts Demo.store.
Proof.
  split; [vm_compute; reflexivity|].
  apply (@searchJobs_malformed_reply Demo.engine
           (Demo.replying Demo.prose_reply) Demo.env_dev
           Demo.search Demo.world Demo.prose_reply).
  - vm_compute; discriminate.
  - vm_compute; discriminate.
  - reflexivity.
  - vm_compute; reflexivity.
Defined.

(** The five jobs, fenced: the parse step gives what parsing them does. *)
Lemma fenced_reply_witness :
  JSON_parse Demo.five_jobs_text <> None
  /\ no_fence Demo.five_jobs_text = true
  /\ parse_reply (fenced [c_lf] Demo.five_jobs_text [c_lf])
     = JSON_parse Demo.five_jobs_text.
Proof.
  split; [vm_compute; discriminate|]. split; [vm_compute; reflexivity|].
  apply (@fenced_reply_parses_as_unfenced [c_lf] Demo.five_jobs_text [c_lf]).
  - vm_compute; discriminate.
  - vm_compute; reflexivity.
  - exact all_ws_newline.
  - exact all_ws_newline.
Defined.

(** C4.  The parse step is there to recover the JSON text the model
    returns in a fence, and misses it on a text that holds three backticks
    in a string: the fence pattern is replaced everywhere in the reply, not
    only where the fences are.  The reply is the well-formed text
    [Demo.backticks_text] (an array of one string of three backticks)
    between a [json] fence and a closing fence; parsing the text gives that
    array, the parse step applied to the reply gives the array of the empty
    string. *)
Lemma fenced_reply_counterexample :
  JSON_parse Demo.backticks_text
  = Some (JArray [JString [c_backtick; c_backtick; c_backtick]])
  /\ parse_reply (fenced [c_lf] Demo.backticks_text [c_lf])
     = Some (JArray [JString []])
  /\ parse_reply (fenced [c_lf] Demo.backticks_text [c_lf])
     <> JSON_parse Demo.backticks_text.
Proof.
  split; [reflexivity|]. split; [reflexivity|].
  vm_compute. discriminate.
Qed.

(** Both senders in development with every provider unreachable. *)
Lemma senders_development_witness :
  development Demo.env_dev = true
  /\ fst (sendMail Demo.engine Demo.unreachable Demo.env_dev Demo.mail
            Demo.world) = Ok true
  /\ fst (sendSMS Demo.unreachable Demo.env_dev Demo.sms Demo.world) = Ok true.
Proof.
  destruct (@senders_return_boolean_dev_reports_success Demo.engine
              Demo.unreachable Demo.env_dev Demo.mail Demo.sms Demo.world)
    as (_ & _ & Hmail & Hsms).
  split; [reflexivity|]. split.
  - apply (Hmail eq_refl Demo.refused). reflexivity.
  - apply (Hsms eq_refl (lit "AC0123") (lit "token") (lit "+15550199")
             Demo.refused); reflexivity.
Defined.

(** [sendSMS] in development without a Twilio account. *)
Lemma sendSMS_without_credentials_witness :
  development Demo.env_no_contact = true
  /\ truthy (TWILIO_ACCOUNT_SID Demo.env_no_contact) = None
  /\ sendSMS Demo.unreachable Demo.env_no_contact Demo.sms Demo.world
     = (Ok false, called (EvSendSMS Demo.sms) Demo.world).
Proof.
  split; [reflexivity|]. split; [reflexivity|].
  apply (@sendSMS_without_credentials Demo.unreachable Demo.env_no_contact
           Demo.sms Demo.world).
  left. reflexivity.
Defined.

Lemma demo_reminder_ids : NoDup (reminder_ids (reminders Demo.store)).
Proof.
  cbn. repeat (constructor; [cbn; intuition discriminate|]). constructor.
Defined.

(** Two due-checks on the concrete portfolio. *)
Lemma reminder_check_twice_witness :
  let w1 := snd (sendReminderNotifications Demo.engine Demo.unreachable
                   Demo.env_dev Demo.world) in
  NoDup (reminder_ids (reminders Demo.store))
  /\ due_reminders 0 Demo.store = [Demo.urgent; Demo.low]
  /\ due_reminders 0 (db w1) = []
  /\ NoDup (reminder_ids (due_reminders 0 Demo.store)
            ++ reminder_ids (due_reminders 0 (db w1))).
Proof.
  intros w1. split; [exact demo_reminder_ids|].
  split; [reflexivity|]. split; [reflexivity|].
  apply (@reminder_check_twice Demo.engine Demo.unreachable Demo.env_dev
           Demo.world).
  exact demo_reminder_ids.
Defined.



(** The due-check with no owner contact: two reminders counted, nothing
    sent, none of the two selected by a later scan. *)
Lemma reminders_marked_without_contact_witness :
  let run := sendReminderNotifications Demo.engine Demo.unreachable
               Demo.env_no_contact Demo.world in
  truthy (USER_EMAIL Demo.env_no_contact) = None
  /\ truthy (USER_PHONE Demo.env_no_contact) = None
  /\ fst run = Ok 2
  /\ trace (snd run) = []
  /\ ~ In (PortfolioReminder.id Demo.urgent)
         (reminder_ids
            (due_reminders 5
               (db (scans Demo.engine Demo.unreachable
                      [Demo.env_dev; Demo.env_phone_only] (snd run))))).
Proof.
  intros run.
  destruct (@reminders_marked_without_contact Demo.engine Demo.unreachable
              Demo.env_no_contact Demo.world eq_refl eq_refl)
    as (Hrun & _ & _ & Hnever).
  split; [reflexivity|]. split; [reflexivity|].
  split; [unfold run; rewrite Hrun; reflexivity|].
  split; [unfold run; rewrite Hrun; reflexivity|].
  apply (Hnever [Demo.env_dev; Demo.env_phone_only] 5%Z Demo.urgent).
  cbn. auto.
Defined.

(** A first message of a visitor while the model is unreachable. *)
Lemma chat_message_survives_witness :
  get_or_create_chat Demo.hello Demo.world
  = (Ok (Demo.session, []), Demo.world_with_session)
  /\ fst (processChatMessage Demo.engine Demo.unreachable Demo.hello Demo.world)
     = Throw (chat_failed Demo.refused)
  /\ chatMessages
       (db (snd (processChatMessage Demo.engine Demo.unreachable Demo.hello
                   Demo.world)))
     = [visitor_message Demo.hello Demo.session (db Demo.world_with_session)].
Proof.
  destruct (@chat_message_survives_model_failure Demo.engine Demo.unreachable
              Demo.hello Demo.world Demo.world_with_session Demo.session
              [] Demo.refused eq_refl eq_refl)
    as (Hrun & _ & Hmsgs & _).
  split; [reflexivity|]. split.
  - rewrite Hrun. reflexivity.
  - exact Hmsgs.
Defined.

(* ================================================================= *)
(** ** Further properties of the job search *)

Section SearchRuns.

Variable E : Engine.
Variable P : Outside.
Variable env : Env.

(** A value the store rejects is rejected whatever identifier the record
    would get. *)
Lemma alert_of_rejected_any_id (i i' userId : ObjectId) (job : json) :
  alert_of E i userId job = None -> alert_of E i' userId job = None.
Proof.
  unfold alert_of.
  repeat match goal with
         | |- context [match ?x with _ => _ end] => destruct x
         end; congruence.
Qed.

(** The save loop on any list of values: it stops at the first value that
    is [null] or that the store rejects, and the alerts made before it
    stay. *)
Lemma save_loop_run (userId : ObjectId) (jobs : list json) :
  forall w,
    exists r,
      for_each (save_alert E userId) jobs w
      = (r,
         mkWorld (with_alerts (alerts_from E (next_id (db w)) userId jobs) (db w))
           (trace w))
      /\ (r = Ok tt <->
          List.length (alerts_from E (next_id (db w)) userId jobs)
          = List.length jobs).
Proof.
  induction jobs as [|job jobs IH]; intros w.
  - exists (Ok tt). cbn. rewrite with_alerts_nil. destruct w. tauto.
  - assert (Hfail : forall e,
               alerts_from E (next_id (db w)) userId (job :: jobs) = [] ->
               save_alert E userId job w = (Throw e, w) ->
               exists r,
                 for_each (save_alert E userId) (job :: jobs) w
                 = (r, mkWorld
                         (with_alerts
                            (alerts_from E (next_id (db w)) userId (job :: jobs))
                            (db w)) (trace w))
                 /\ (r = Ok tt <->
                     List.length
                       (alerts_from E (next_id (db w)) userId (job :: jobs))
                     = List.length (job :: jobs))).
    { intros e Hnone Hrun. exists (Throw e).
      cbn [for_each]. rewrite (bind_throw _ Hrun), Hnone, with_alerts_nil.
      destruct w. cbn. split; [reflexivity|].
      split; intros H; discriminate. }
    destruct (alert_of E (next_id (db w)) userId job) as [a|] eqn:Ha.
    + assert (Hstep : job <> JNull ->
                 exists r,
                   for_each (save_alert E userId) (job :: jobs) w
                   = (r, mkWorld
                           (with_alerts
                              (alerts_from E (next_id (db w)) userId (job :: jobs))
                              (db w)) (trace w))
                   /\ (r = Ok tt <->
                       List.length
                         (alerts_from E (next_id (db w)) userId (job :: jobs))
                       = List.length (job :: jobs))).
      { intros Hnull.
        assert (Hrun : save_alert E userId job w
                       = (Ok tt, mkWorld (with_alerts [a] (db w)) (trace w))).
        { unfold save_alert, bind, read_db, fresh_id, write_db.
          destruct job; try congruence; cbn [fst snd db]; rewrite Ha;
            unfold with_alerts, set_jobAlerts; cbn; do 3 f_equal; lia. }
        destruct (IH (mkWorld (with_alerts [a] (db w)) (trace w)))
          as (r & IHrun & IHlen).
        cbn [db trace] in IHrun, IHlen.
        replace (next_id (with_alerts [a] (db w)))
          with (N.succ (next_id (db w))) in IHrun, IHlen
          by (unfold with_alerts; cbn; lia).
        exists r. cbn [for_each].
        rewrite (bind_ok _ Hrun), IHrun.
        replace (alerts_from E (next_id (db w)) userId (job :: jobs))
          with (a :: alerts_from E (N.succ (next_id (db w))) userId jobs)
          by (destruct job; try congruence; cbn [alerts_from]; rewrite Ha;
              reflexivity).
        rewrite with_alerts_cons. split; [reflexivity|].
        cbn [List.length]. rewrite IHlen. split; intros H; lia. }
      destruct job; apply Hstep; discriminate.
    + destruct job;
        (eapply Hfail;
         [cbn [alerts_from]; rewrite ?Ha; reflexivity
         | unfold save_alert, bind, read_db, raise, throw;
           cbn [fst snd db]; rewrite ?Ha; reflexivity]).
Qed.




(** The two notifications that end a search, with the trace they leave;
    what the providers answer changes nothing. *)
Lemma search_notifications_run (n : nat) (v : json) (w : World) :
  (match truthy (USER_EMAIL env) with
   | Some userEmail => _ <- sendMail E P env (jobs_mail userEmail n) ;; ret tt
   | None => ret tt
   end ;;
   match truthy (USER_PHONE env) with
   | Some userPhone => _ <- sendSMS P env (jobs_sms userPhone n) ;; ret tt
   | None => ret tt
   end ;;
   ret v) w
  = (Ok v, mkWorld (db w) (trace w ++ search_notification_events E env n)).
Proof.
  unfold bind, ret, search_notification_events.
  destruct (truthy (USER_EMAIL env)); destruct (truthy (USER_PHONE env));
    rewrite ?sendMail_run; cbn [db trace]; rewrite ?sendSMS_run;
    cbn [db trace]; rewrite ?app_nil_r, <- ?app_assoc; try reflexivity.
  destruct w; reflexivity.
Qed.

(** The run once the reply has been parsed. *)
Lemma searchJobs_after_parse
    (input : JobSearchInput) (w : World) (text : jsstring) (v : json) :
  let userId := search_userId input in
  let prompt :=
    search_prompt E input (skills_of userId (db w))
      (experiences_of userId (db w)) in
  skills_of userId (db w) <> [] ->
  experiences_of userId (db w) <> [] ->
  llm P w prompt = inr text ->
  parse_reply text = Some v ->
  searchJobs E P env input w
  = match for_of E (save_alert E userId) v (called (EvLLM prompt) w) with
    | (Ok _, w1) =>
        (Ok v,
         mkWorld (db w1)
           (trace w1 ++ search_notification_events E env (js_length v)))
    | (Throw e, w1) => (Throw (search_failed e), w1)
    end.
Proof.
  intros userId prompt Hs He Hllm Hparse.
  pose proof (searchJobs_after_reply env (input := input) Hs He Hllm) as Hrun.
  cbv zeta in Hrun. fold userId prompt in Hrun.
  rewrite Hrun, Hparse. clear Hrun.
  unfold try_catch. unfold bind at 1. unfold ret at 1. cbn iota beta.
  unfold bind at 1.
  destruct (for_of E (save_alert E userId) v (called (EvLLM prompt) w))
    as [[[]|e] w1].
  - rewrite search_notifications_run. reflexivity.
  - reflexivity.
Qed.

Lemma searchJobs_when_model_throws
    (input : JobSearchInput) (w : World) (e : thrown) :
  let userId := search_userId input in
  let prompt :=
    search_prompt E input (skills_of userId (db w))
      (experiences_of userId (db w)) in
  skills_of userId (db w) <> [] ->
  experiences_of userId (db w) <> [] ->
  llm P w prompt = inl e ->
  searchJobs E P env input w
  = (Throw (search_failed e), called (EvLLM prompt) w).
Proof.
  intros userId prompt Hs He Hllm.
  unfold searchJobs, try_catch. fold userId.
  unfold bind at 1. unfold read_db at 1. cbn iota beta.
  rewrite !length_zero_eqb.
  destruct (skills_of userId (db w)) as [|s1 ss] eqn:Es; [congruence|].
  destruct (experiences_of userId (db w)) as [|e1 es] eqn:Ee; [congruence|].
  cbn [orb].
  unfold bind at 1. unfold ret at 1. cbn iota beta.
  unfold bind at 1. unfold chain_call at 1.
  subst prompt. rewrite Hllm. reflexivity.
Qed.


(** X1.  When the call of the model throws, [searchJobs] fails with that
    error, wrapped; the store is the one the run started with and no sender
    has been called. *)
Theorem searchJobs_model_failure
    (input : JobSearchInput) (w : World) (e : thrown) :
  let userId := search_userId input in
  let prompt :=
    search_prompt E input (skills_of userId (db w))
      (experiences_of userId (db w)) in
  skills_of userId (db w) <> [] ->
  experiences_of userId (db w) <> [] ->
  llm P w prompt = inl e ->
  searchJobs E P env input w
  = (Throw (search_failed e), called (EvLLM prompt) w)
  /\ db (snd (searchJobs E P env input w)) = db w
  /\ filter is_notification (trace (snd (searchJobs E P env input w)))
     = filter is_notification (trace w).
Proof.
  intros userId prompt Hs He Hllm.
  rewrite (searchJobs_when_model_throws Hs He Hllm).
  cbn [snd called db trace]. rewrite filter_app. cbn.
  rewrite app_nil_r. auto.
Qed.

(** X2.  A reply that parses to anything but an array or a string (an
    object that wraps the array, a number, [true], [null]) makes
    [searchJobs] fail with the error of the for-of loop; nothing is written
    and no sender is called. *)
Theorem searchJobs_reply_not_iterable
    (input : JobSearchInput) (w : World) (text : jsstring) (v : json) :
  let userId := search_userId input in
  let prompt :=
    search_prompt E input (skills_of userId (db w))
      (experiences_of userId (db w)) in
  skills_of userId (db w) <> [] ->
  experiences_of userId (db w) <> [] ->
  llm P w prompt = inr text ->
  parse_reply text = Some v ->
  not_iterable v = true ->
  searchJobs E P env input w
  = (Throw (search_failed (ErrorObject (error_message E Not_iterable))),
     called (EvLLM prompt) w).
Proof.
  intros userId prompt Hs He Hllm Hparse Hv.
  pose proof (searchJobs_after_parse (input := input) Hs He Hllm Hparse)
    as Hrun.
  cbv zeta in Hrun. fold userId prompt in Hrun. rewrite Hrun.
  destruct v; try discriminate; reflexivity.
Qed.

Lemma alerts_from_stops (i userId : ObjectId) (good rest : list json)
    (bad : json) :
  forallb is_job_object good = true ->
  (forall i', alert_of E i' userId bad = None) ->
  alerts_from E i userId (good ++ bad :: rest) = alerts_from E i userId good.
Proof.
  intros Hgood Hbad. revert i.
  induction good as [|job good IH]; intros i.
  - cbn [app alerts_from].
    destruct bad; try reflexivity; rewrite Hbad; reflexivity.
  - cbn in Hgood. apply andb_prop in Hgood. destruct Hgood as [Hjob Hgood].
    destruct (is_job_object_inv Hjob) as [ms ->].
    cbn [app alerts_from].
    destruct (alert_of E i userId (JObject ms)); [|reflexivity].
    rewrite (IH Hgood). reflexivity.
Qed.

(** X3.  The save loop is not atomic.  When the reply parses to an array
    whose first elements are job objects and whose next element the store
    rejects, the alerts of the first elements are written and stay,
    [searchJobs] fails, and no sender is called: the owner is not told of
    the alerts that were saved. *)
Theorem searchJobs_partial_save
    (input : JobSearchInput) (w : World) (text : jsstring)
    (good rest : list json) (bad : json) :
  let userId := search_userId input in
  let prompt :=
    search_prompt E input (skills_of userId (db w))
      (experiences_of userId (db w)) in
  let saved := alerts_from E (next_id (db w)) userId good in
  skills_of userId (db w) <> [] ->
  experiences_of userId (db w) <> [] ->
  llm P w prompt = inr text ->
  parse_reply text = Some (JArray (good ++ bad :: rest)) ->
  forallb is_job_object good = true ->
  (forall i, alert_of E i userId bad = None) ->
  exists e,
    searchJobs E P env input w
    = (Throw (search_failed e),
       mkWorld (with_alerts saved (db w)) (trace w ++ [EvLLM prompt]))
    /\ List.length saved = List.length good.
Proof.
  intros userId prompt saved Hs He Hllm Hparse Hgood Hbad.
  pose proof (searchJobs_after_parse (input := input) Hs He Hllm Hparse)
    as Hrun.
  cbv zeta in Hrun. fold userId prompt in Hrun. rewrite Hrun. clear Hrun.
  cbn [for_of].
  destruct (save_loop_run userId (good ++ bad :: rest)
              (called (EvLLM prompt) w)) as (r & Hloop & Hok).
  cbn [called db trace] in Hloop, Hok.
  rewrite (alerts_from_stops _ _ Hgood Hbad) in Hloop, Hok.
  fold saved in Hloop, Hok.
  destruct (@save_job_objects E userId good Hgood w) as [_ Hlen].
  fold saved in Hlen.
  rewrite Hloop.
  destruct r as [[]|e].
  - exfalso. destruct Hok as [Hok _]. specialize (Hok eq_refl).
    rewrite Hlen, length_app in Hok. cbn in Hok. lia.
  - exists e. auto.
Qed.

(** X4.  An array of job objects of any length, the empty one included:
    [searchJobs] returns it, one alert per element is appended, and the
    owner is told the number found (zero for the empty array) on each
    configured channel.  The result and the store do not depend on what
    the mail and SMS providers answer. *)
Theorem searchJobs_any_number_of_jobs
    (input : JobSearchInput) (w : World) (text : jsstring)
    (jobs : list json) :
  let userId := search_userId input in
  let prompt :=
    search_prompt E input (skills_of userId (db w))
      (experiences_of userId (db w)) in
  let created := alerts_from E (next_id (db w)) userId jobs in
  skills_of userId (db w) <> [] ->
  experiences_of userId (db w) <> [] ->
  llm P w prompt = inr text ->
  parse_reply text = Some (JArray jobs) ->
  forallb is_job_object jobs = true ->
  searchJobs E P env input w
  = (Ok (JArray jobs),
     mkWorld (with_alerts created (db w))
       (trace w ++ [EvLLM prompt]
        ++ search_notification_events E env (List.length jobs)))
  /\ List.length created = List.length jobs.
Proof.
  intros userId prompt created Hs He Hllm Hparse Hjobs.
  pose proof (searchJobs_after_parse (input := input) Hs He Hllm Hparse)
    as Hrun.
  cbv zeta in Hrun. fold userId prompt in Hrun. rewrite Hrun. clear Hrun.
  cbn [for_of js_length].
  destruct (@save_job_objects E userId jobs Hjobs (called (EvLLM prompt) w))
    as [Hloop Hlen].
  cbn [called db trace] in Hloop, Hlen. fold created in Hloop, Hlen.
  rewrite Hloop. cbn [db trace]. rewrite <- app_assoc. auto.
Qed.



End SearchRuns.

(* ================================================================= *)
(** ** Further properties of the chat agent *)

Section ChatRuns.

Variable E : Engine.
Variable P : Outside.

Lemma find_chat_id (cid : ObjectId) (s : Store) (chat : ChatInteraction.t) :
  find_chat cid s = Some chat -> ChatInteraction.id chat = cid.
Proof.
  unfold find_chat. intros H. apply find_some in H.
  destruct H as [_ H]. apply N.eqb_eq. exact H.
Qed.

Lemma get_existing_chat (input : ChatInput) (w : World) (cid : ObjectId)
    (chat : ChatInteraction.t) :
  chat_chatId input = Some cid ->
  find_chat cid (db w) = Some chat ->
  get_or_create_chat input w = (Ok (chat, conversation_of cid (db w)), w).
Proof.
  intros Hid Hfind. unfold get_or_create_chat, bind, read_db.
  rewrite Hid, Hfind. reflexivity.
Qed.

Lemma open_new_chat (input : ChatInput) (w : World) :
  chat_chatId input = None ->
  get_or_create_chat input w
  = (Ok (opened_session input (db w), []),
     mkWorld (with_session (opened_session input (db w)) (db w)) (trace w)).
Proof.
  intros Hid. unfold get_or_create_chat. rewrite Hid. reflexivity.
Qed.

(** A turn whose session has been found or opened and whose model call
    answers. *)
Lemma chat_turn_run (input : ChatInput) (w w1 : World)
    (chat : ChatInteraction.t) (conversation : list ChatMessage.t)
    (text : jsstring) :
  let visitor := visitor_message input chat (db w1) in
  let w2 := mkWorld (with_message visitor (db w1)) (trace w1) in
  let prompt := chat_prompt E input (db w1) conversation in
  let assistant := assistant_message text chat (db w2) in
  get_or_create_chat input w = (Ok (chat, conversation), w1) ->
  llm P w2 prompt = inr text ->
  processChatMessage E P input w
  = (Ok (mkChatResponse (trim text) (ChatInteraction.id chat)
           (ChatMessage.id assistant)),
     mkWorld (with_message assistant (db w2)) (trace w1 ++ [EvLLM prompt])).
Proof.
  intros visitor w2 prompt assistant Hchat Hllm.
  unfold processChatMessage.
  apply try_catch_ok.
  erewrite bind_ok by exact Hchat.
  erewrite bind_ok by reflexivity.
  cbn [fst snd].
  erewrite bind_ok by apply create_chatMessage_run.
  erewrite bind_ok.
  2:{ unfold chain_call.
      unfold w2, visitor, visitor_message, prompt in Hllm.
      rewrite Hllm. reflexivity. }
  reflexivity.
Qed.

(** A turn whose session has been found or opened and whose model call
    throws. *)
Lemma chat_turn_throws (input : ChatInput) (w w1 : World)
    (chat : ChatInteraction.t) (conversation : list ChatMessage.t)
    (e : thrown) :
  let visitor := visitor_message input chat (db w1) in
  let w2 := mkWorld (with_message visitor (db w1)) (trace w1) in
  let prompt := chat_prompt E input (db w1) conversation in
  get_or_create_chat input w = (Ok (chat, conversation), w1) ->
  llm P w2 prompt = inl e ->
  processChatMessage E P input w
  = (Throw (chat_failed e), called (EvLLM prompt) w2).
Proof.
  intros visitor w2 prompt Hchat Hllm.
  unfold processChatMessage.
  erewrite try_catch_throw; [reflexivity|].
  erewrite bind_ok by exact Hchat.
  erewrite bind_ok by reflexivity.
  cbn [fst snd].
  erewrite bind_ok by apply create_chatMessage_run.
  apply bind_throw.
  unfold chain_call.
  unfold w2, visitor, visitor_message, prompt in Hllm |- *.
  rewrite Hllm. reflexivity.
Qed.

Lemma conversation_of_with_message (cid : ObjectId) (m : ChatMessage.t)
    (s : Store) :
  conversation_of cid (with_message m s)
  = conversation_of cid s
    ++ (if N.eqb (ChatMessage.chatId m) cid then [m] else []).
Proof.
  unfold conversation_of, with_message. cbn [chatMessages].
  rewrite filter_app. reflexivity.
Qed.

Lemma chat_session_missing (input : ChatInput) (w : World) (cid : ObjectId) :
  chat_chatId input = Some cid ->
  find_chat cid (db w) = None ->
  processChatMessage E P input w
  = (Throw (chat_failed (chat_not_found cid)), w).
Proof.
  intros Hid Hfind. unfold processChatMessage.
  erewrite try_catch_throw; [reflexivity|].
  apply bind_throw.
  unfold get_or_create_chat, bind, read_db. rewrite Hid, Hfind. reflexivity.
Qed.

(** X6.  A message for a session the store does not have fails with the
    not-found error of the source, which names the session, wrapped; the
    world is the one the run started in: the visitor's message is not
    written and the model is not called. *)
Theorem chat_unknown_session (input : ChatInput) (w : World) (cid : ObjectId) :
  chat_chatId input = Some cid ->
  find_chat cid (db w) = None ->
  processChatMessage E P input w
  = (Throw (ErrorObject
              (lit "Failed to process chat message: "
               ++ lit "Chat session not found: " ++ show_id cid)), w).
Proof. exact (@chat_session_missing input w cid). Qed.

(** X7.  A turn on an existing session whose model call answers: the
    response carries the trimmed reply, the session and the identifier of
    the assistant's record; the conversation of the session grows by the
    visitor's message followed by the assistant's, so the next turn's
    history holds both; the conversations of the other sessions and the
    sessions themselves are as before. *)
Theorem chat_turn_on_session (input : ChatInput) (w : World)
    (cid : ObjectId) (chat : ChatInteraction.t) (text : jsstring) :
  let visitor := visitor_message input chat (db w) in
  let w2 := mkWorld (with_message visitor (db w)) (trace w) in
  let prompt := chat_prompt E input (db w) (conversation_of cid (db w)) in
  let assistant := assistant_message text chat (db w2) in
  let run := processChatMessage E P input w in
  chat_chatId input = Some cid ->
  find_chat cid (db w) = Some chat ->
  llm P w2 prompt = inr text ->
  fst run = Ok (mkChatResponse (trim text) cid (ChatMessage.id assistant))
  /\ conversation_of cid (db (snd run))
     = conversation_of cid (db w) ++ [visitor; assistant]
  /\ (forall other, other <> cid ->
        conversation_of other (db (snd run)) = conversation_of other (db w))
  /\ chats (db (snd run)) = chats (db w)
  /\ trace (snd run) = trace w ++ [EvLLM prompt].
Proof.
  intros visitor w2 prompt assistant run Hid Hfind Hllm.
  pose proof (find_chat_id Hfind) as Hcid.
  pose proof (chat_turn_run (get_existing_chat Hid Hfind) Hllm) as Hrun.
  cbv zeta in Hrun. fold visitor w2 prompt assistant in Hrun.
  subst run. rewrite Hrun. cbn [fst snd db trace].
  split; [rewrite Hcid; reflexivity|].
  split; [|split; [|split; [reflexivity | reflexivity]]].
  - unfold assistant, w2, visitor, assistant_message, visitor_message.
    cbn [db]. rewrite !conversation_of_with_message.
    cbn [ChatMessage.chatId].
    rewrite Hcid, N.eqb_refl, <- app_assoc. reflexivity.
  - intros other Hother.
    unfold assistant, w2, visitor, assistant_message, visitor_message.
    cbn [db]. rewrite !conversation_of_with_message.
    cbn [ChatMessage.chatId].
    rewrite Hcid.
    replace (N.eqb cid other) with false
      by (symmetry; apply N.eqb_neq; congruence).
    rewrite !app_nil_r. reflexivity.
Qed.

(** X8.  A first message (no [chatId]) whose model call answers opens one
    session, named after the visitor or [Anonymous] when the name is absent
    or empty; the response carries the identifier of that session, and the
    messages gain the visitor's and the assistant's, both in that
    session. *)
Theorem chat_first_message (input : ChatInput) (w : World) (text : jsstring) :
  let session := opened_session input (db w) in
  let w1 := mkWorld (with_session session (db w)) (trace w) in
  let visitor := visitor_message input session (db w1) in
  let w2 := mkWorld (with_message visitor (db w1)) (trace w1) in
  let prompt := chat_prompt E input (db w1) [] in
  let assistant := assistant_message text session (db w2) in
  let run := processChatMessage E P input w in
  chat_chatId input = None ->
  llm P w2 prompt = inr text ->
  fst run = Ok (mkChatResponse (trim text) (ChatInteraction.id session)
                  (ChatMessage.id assistant))
  /\ chats (db (snd run)) = chats (db w) ++ [session]
  /\ chatMessages (db (snd run)) = chatMessages (db w) ++ [visitor; assistant]
  /\ ChatMessage.chatId visitor = ChatInteraction.id session
  /\ ChatMessage.chatId assistant = ChatInteraction.id session
  /\ (truthy (chat_visitorName input) = None ->
      ChatInteraction.visitorName session = Some (lit "Anonymous")).
Proof.
  intros session w1 visitor w2 prompt assistant run Hid Hllm.
  pose proof (chat_turn_run (open_new_chat w Hid) Hllm) as Hrun.
  cbv zeta in Hrun. fold session w1 visitor w2 prompt assistant in Hrun.
  subst run. rewrite Hrun. cbn [fst snd db trace].
  split; [reflexivity|]. split; [reflexivity|].
  split; [cbn; rewrite <- app_assoc; reflexivity|].
  split; [reflexivity|]. split; [reflexivity|].
  intros Hname. unfold session, opened_session. cbn. rewrite Hname.
  reflexivity.
Qed.

(** X9.  Whatever the input, the world and the answer of the model, and
    however the run ends, [processChatMessage] only appends: at most one
    session and at most two messages are added after the ones the store
    had, which stay in place and unchanged, and no other collection is
    touched. *)
Theorem chat_only_appends (input : ChatInput) (w : World) :
  let s' := db (snd (processChatMessage E P input w)) in
  exists sessions messages,
    chats s' = chats (db w) ++ sessions
    /\ chatMessages s' = chatMessages (db w) ++ messages
    /\ List.length sessions <= 1
    /\ List.length messages <= 2
    /\ users s' = users (db w)
    /\ skills s' = skills (db w)
    /\ educations s' = educations (db w)
    /\ experiences s' = experiences (db w)
    /\ projects s' = projects (db w)
    /\ jobAlerts s' = jobAlerts (db w)
    /\ reminders s' = reminders (db w).
Proof.
  intros s'. subst s'.
  assert (Hturn : forall w1 chat conversation sessions,
             get_or_create_chat input w = (Ok (chat, conversation), w1) ->
             chats (db w1) = chats (db w) ++ sessions ->
             List.length sessions <= 1 ->
             chatMessages (db w1) = chatMessages (db w) ->
             users (db w1) = users (db w) ->
             skills (db w1) = skills (db w) ->
             educations (db w1) = educations (db w) ->
             experiences (db w1) = experiences (db w) ->
             projects (db w1) = projects (db w) ->
             jobAlerts (db w1) = jobAlerts (db w) ->
             reminders (db w1) = reminders (db w) ->
             exists messages,
               chats (db (snd (processChatMessage E P input w)))
               = chats (db w) ++ sessions
               /\ chatMessages (db (snd (processChatMessage E P input w)))
                  = chatMessages (db w) ++ messages
               /\ List.length sessions <= 1
               /\ List.length messages <= 2
               /\ users (db (snd (processChatMessage E P input w))) = users (db w)
               /\ skills (db (snd (processChatMessage E P input w))) = skills (db w)
               /\ educations (db (snd (processChatMessage E P input w)))
                  = educations (db w)
               /\ experiences (db (snd (processChatMessage E P input w)))
                  = experiences (db w)
               /\ projects (db (snd (processChatMessage E P input w)))
                  = projects (db w)
               /\ jobAlerts (db (snd (processChatMessage E P input w)))
                  = jobAlerts (db w)
               /\ reminders (db (snd (processChatMessage E P input w)))
                  = reminders (db w)).
  { intros w1 chat conversation sessions Hchat Hc Hlen Hm Hu Hsk Hed Hex Hpr
      Hja Hre.
    destruct (llm P (mkWorld (with_message (visitor_message input chat (db w1))
                                (db w1)) (trace w1))
                (chat_prompt E input (db w1) conversation))
      as [e | text] eqn:Hllm.
    - rewrite (chat_turn_throws Hchat Hllm). cbn [snd called db with_message chats chatMessages users
                           skills educations experiences projects jobAlerts
                           reminders].
      exists [visitor_message input chat (db w1)].
      rewrite Hm. cbn [List.length]. repeat split; auto.
    - rewrite (chat_turn_run Hchat Hllm).
      cbn [snd db with_message chats chatMessages users skills educations
             experiences projects jobAlerts reminders].
      exists [visitor_message input chat (db w1);
              assistant_message text chat
                (with_message (visitor_message input chat (db w1)) (db w1))].
      rewrite Hm, <- app_assoc. cbn [List.length app]. repeat split; auto. }
  destruct (chat_chatId input) as [cid|] eqn:Hid.
  - destruct (find_chat cid (db w)) as [chat|] eqn:Hfind.
    + exists [].
      eapply Hturn;
        [ apply (get_existing_chat Hid Hfind)
        | symmetry; apply app_nil_r
        | cbn; lia
        | reflexivity .. ].
    + exists [], []. rewrite (@chat_session_missing input w cid Hid Hfind).
      cbn. rewrite !app_nil_r. repeat split; auto.
  - exists [opened_session input (db w)].
    eapply Hturn;
      [ apply (open_new_chat w Hid)
      | reflexivity
      | cbn; lia
      | reflexivity .. ].
Qed.

End ChatRuns.

(* ================================================================= *)
(** ** Further properties of the reminder due-check *)

Lemma mark_all_shape (l : list PortfolioReminder.t) (s : Store) :
  mark_all l s = set_reminders (reminders (mark_all l s)) s.
Proof.
  revert s. induction l as [|r l IH]; intros s.
  - destruct s; reflexivity.
  - cbn [mark_all fold_left]. fold (mark_all l).
    rewrite IH at 1. reflexivity.
Qed.

Lemma marked_cases (ids : list ObjectId) (r : PortfolioReminder.t) :
  (In (PortfolioReminder.id r) ids /\ marked ids r = mark_notified r)
  \/ (~ In (PortfolioReminder.id r) ids /\ marked ids r = r).
Proof.
  unfold marked.
  destruct (existsb (N.eqb (PortfolioReminder.id r)) ids) eqn:Hex.
  - left. split; [|reflexivity].
    apply existsb_exists in Hex. destruct Hex as (x & Hx & Heq).
    apply N.eqb_eq in Heq. rewrite Heq. exact Hx.
  - right. split; [|reflexivity].
    intros Hin.
    assert (Htrue : existsb (N.eqb (PortfolioReminder.id r)) ids = true).
    { apply existsb_exists. exists (PortfolioReminder.id r).
      split; [exact Hin | apply N.eqb_refl]. }
    congruence.
Qed.

Lemma is_due_earlier (limit limit' : Z) (r : PortfolioReminder.t) :
  (limit' <= limit)%Z -> is_due limit' r = true -> is_due limit r = true.
Proof.
  unfold is_due. intros Hle H.
  apply andb_prop in H. destruct H as [H Hs].
  apply andb_prop in H. destruct H as [Hd Hc].
  rewrite Hs, Hc, !andb_true_r.
  apply Z.leb_le. apply Z.leb_le in Hd. lia.
Qed.

Lemma filter_none {A} (f : A -> bool) (l : list A) :
  (forall x, In x l -> f x = false) -> filter f l = [].
Proof.
  induction l as [|x l IH]; intros H; [reflexivity|].
  cbn. rewrite (H x (or_introl eq_refl)). apply IH.
  intros y Hy. apply H. right. exact Hy.
Qed.

Section ReminderRuns.

Variable E : Engine.
Variable env : Env.

(** X10.  The due-check does not look at what the senders report.  Under
    two behaviours of the providers that agree on the time, the run is the
    same: the same number is returned, the same reminders are marked and
    the same calls are made, so a reminder whose messages all failed is
    marked and counted like one whose messages left. *)
Theorem reminder_check_ignores_delivery (P P' : Outside) (w : World) :
  clock P w = clock P' w ->
  sendReminderNotifications E P env w = sendReminderNotifications E P' env w.
Proof.
  intros Hclock. rewrite !sendReminderNotifications_run, Hclock. reflexivity.
Qed.

(** X11.  Of the columns of a reminder other than the [updatedAt] the
    store maintains, the due-check changes [notificationSent] and nothing
    else.  The reminders are the same records in the same order: each keeps
    its identifier, title, description, due date, priority, completed flag
    and category; [notificationSent] is set for those with the identifier
    of a selected reminder and is as it was for the others.  Every other
    collection is untouched. *)
Theorem reminder_check_sets_flags_only (P : Outside) (w : World) :
  let due := due_reminders (clock P w) (db w) in
  let s' := db (snd (sendReminderNotifications E P env w)) in
  Forall2 (fun r r' =>
             PortfolioReminder.id r' = PortfolioReminder.id r
             /\ PortfolioReminder.title r' = PortfolioReminder.title r
             /\ PortfolioReminder.description r'
                = PortfolioReminder.description r
             /\ PortfolioReminder.dueDate r' = PortfolioReminder.dueDate r
             /\ PortfolioReminder.priority r' = PortfolioReminder.priority r
             /\ PortfolioReminder.completed r' = PortfolioReminder.completed r
             /\ PortfolioReminder.category r' = PortfolioReminder.category r
             /\ (In (PortfolioReminder.id r) (reminder_ids due) ->
                 PortfolioReminder.notificationSent r' = true)
             /\ (~ In (PortfolioReminder.id r) (reminder_ids due) ->
                 PortfolioReminder.notificationSent r'
                 = PortfolioReminder.notificationSent r))
    (reminders (db w)) (reminders s')
  /\ users s' = users (db w)
  /\ skills s' = skills (db w)
  /\ educations s' = educations (db w)
  /\ experiences s' = experiences (db w)
  /\ projects s' = projects (db w)
  /\ jobAlerts s' = jobAlerts (db w)
  /\ chats s' = chats (db w)
  /\ chatMessages s' = chatMessages (db w).
Proof.
  intros due s'. split.
  - subst s'. rewrite sendReminderNotifications_reminders. fold due.
    induction (reminders (db w)) as [|r l IH]; cbn [map]; constructor.
    + destruct (marked_cases (reminder_ids due) r) as [[H ->] | [H ->]];
        unfold mark_notified;
        cbn [PortfolioReminder.id PortfolioReminder.title
             PortfolioReminder.description PortfolioReminder.dueDate
             PortfolioReminder.priority PortfolioReminder.completed
             PortfolioReminder.category PortfolioReminder.notificationSent];
        repeat split; try reflexivity; intros H'; try reflexivity;
        contradiction.
    + exact IH.
  - subst s'. rewrite sendReminderNotifications_run. cbn [snd db].
    rewrite mark_all_shape. cbn. repeat split.
Qed.

(** X12.  A due-check that follows another with the clock no later than
    at the first selects nothing: it returns 0 and leaves the store and the
    trace as they are. *)
Theorem reminder_check_again_is_idle (P : Outside) (w : World) :
  let w1 := snd (sendReminderNotifications E P env w) in
  (clock P w1 <= clock P w)%Z ->
  sendReminderNotifications E P env w1 = (Ok 0, w1).
Proof.
  intros w1 Hclock.
  assert (Hnone : due_reminders (clock P w1) (db w1) = []).
  { unfold due_reminders. apply filter_none. intros r Hr.
    unfold w1 in Hr. rewrite sendReminderNotifications_reminders in Hr.
    apply in_map_iff in Hr. destruct Hr as (x & <- & Hx).
    destruct (marked_cases
                (reminder_ids (due_reminders (clock P w) (db w))) x)
      as [[_ ->] | [Hout ->]].
    - unfold is_due. cbn. apply andb_false_r.
    - destruct (is_due (clock P w1 + lookahead_ms) x) eqn:Hdue; [|reflexivity].
      exfalso. apply Hout. unfold reminder_ids. apply in_map.
      unfold due_reminders. apply filter_In. split; [exact Hx|].
      apply (is_due_earlier (limit' := (clock P w1 + lookahead_ms)%Z));
        [lia | exact Hdue]. }
  rewrite sendReminderNotifications_run, Hnone. cbn.
  rewrite app_nil_r. destruct w1; reflexivity.
Qed.

End ReminderRuns.

(* ================================================================= *)
(** ** Further properties of the senders *)

Lemma newlines_to_br_no_lf (s : jsstring) : ~ In c_lf (newlines_to_br s).
Proof.
  induction s as [|c s IH]; cbn [newlines_to_br]; [intros []|].
  intros H. apply in_app_or in H. destruct H as [H | H]; [|exact (IH H)].
  destruct (N.eqb c c_lf) eqn:Hc.
  - cbn in H. intuition discriminate.
  - cbn in H. destruct H as [H | []]. apply N.eqb_neq in Hc. congruence.
Qed.

Lemma newlines_to_br_same (s : jsstring) :
  ~ In c_lf s -> newlines_to_br s = s.
Proof.
  induction s as [|c s IH]; intros H; [reflexivity|].
  cbn [newlines_to_br].
  destruct (N.eqb c c_lf) eqn:Hc.
  - apply N.eqb_eq in Hc. exfalso. apply H. left. auto.
  - cbn [app]. f_equal. apply IH. intros Hin. apply H. right. exact Hin.
Qed.

Lemma newlines_to_br_app (a b : jsstring) :
  newlines_to_br (a ++ b) = newlines_to_br a ++ newlines_to_br b.
Proof.
  induction a as [|c a IH]; [reflexivity|].
  cbn [app newlines_to_br]. rewrite IH, app_assoc. reflexivity.
Qed.

(** The lines of a text, each line feed replaced by the tag. *)
Lemma newlines_to_br_lines (lines : list jsstring) :
  Forall (fun l => ~ In c_lf l) lines ->
  newlines_to_br (join [c_lf] lines) = join (lit "<br>") lines.
Proof.
  induction 1 as [|x rest Hx Hrest IH]; [reflexivity|].
  destruct rest as [|y rest].
  - cbn [join]. apply newlines_to_br_same. exact Hx.
  - change (join [c_lf] (x :: y :: rest))
      with (x ++ [c_lf] ++ join [c_lf] (y :: rest)).
    change (join (lit "<br>") (x :: y :: rest))
      with (x ++ lit "<br>" ++ join (lit "<br>") (y :: rest)).
    rewrite !newlines_to_br_app, IH, (newlines_to_br_same Hx).
    reflexivity.
Qed.

(** Every text is its lines joined by line feeds. *)
Lemma lines_exist (s : jsstring) :
  exists lines,
    lines <> [] /\ Forall (fun l => ~ In c_lf l) lines
    /\ s = join [c_lf] lines.
Proof.
  induction s as [|c s (lines & Hne & Hlines & ->)].
  - exists [[]]. split; [discriminate|]. split; [|reflexivity].
    constructor; [intros [] | constructor].
  - destruct lines as [|x rest]; [congruence|].
    destruct (N.eqb c c_lf) eqn:Hc.
    + apply N.eqb_eq in Hc. subst c.
      exists ([] :: x :: rest). split; [discriminate|].
      split; [|reflexivity].
      constructor; [intros [] | exact Hlines].
    + apply N.eqb_neq in Hc.
      exists ((c :: x) :: rest). split; [discriminate|]. split.
      * inversion Hlines as [|? ? Hx Hrest]; subst.
        constructor; [|exact Hrest].
        intros [H | H]; [congruence | exact (Hx H)].
      * destruct rest; reflexivity.
Qed.

Section SenderRuns.

Variable E : Engine.
Variable P : Outside.
Variable env : Env.

(** X13.  Outside development the boolean of a sender tells what the
    provider did: [sendMail] returns [true] exactly when the transport took
    the message, and [sendSMS] exactly when the three Twilio variables are
    configured and Twilio took the message. *)
Theorem senders_report_delivery_outside_development
    (mp : EmailParams) (sp : SMSParams) (w : World) :
  development env = false ->
  (fst (sendMail E P env mp w) = Ok true <->
   smtp P (called (EvSendMail mp) w) (transport E env) (mail_message env mp)
   = None)
  /\ (fst (sendSMS P env sp w) = Ok true <->
      exists sid token from,
        truthy (TWILIO_ACCOUNT_SID env) = Some sid
        /\ truthy (TWILIO_AUTH_TOKEN env) = Some token
        /\ truthy (TWILIO_PHONE_NUMBER env) = Some from
        /\ twilio P (called (EvSendSMS sp) w) sid token
             (mkSmsMessage (sms_body sp) from (sms_to sp)) = None).
Proof.
  intros Hdev. rewrite sendMail_run, sendSMS_run, Hdev. cbn [fst]. split.
  - destruct (smtp P _ _ _); split; intros H; congruence.
  - destruct (truthy (TWILIO_ACCOUNT_SID env)) as [sid|];
      destruct (truthy (TWILIO_AUTH_TOKEN env)) as [token|];
      destruct (truthy (TWILIO_PHONE_NUMBER env)) as [from|];
      try (split; [discriminate | intros (? & ? & ? & ? & ? & ? & ?);
                                  discriminate]).
    destruct (twilio P _ sid token _) eqn:Ht; split.
    + discriminate.
    + intros (a & b & c & Ha & Hb & Hc & H).
      injection Ha as <-. injection Hb as <-. injection Hc as <-. congruence.
    + intros _. exists sid, token, from. auto.
    + reflexivity.
Qed.

(** X14.  The HTML part of a mail.  [sendMail] hands the transport one
    message, with the text of the call.  An [html] that is given and not
    empty is sent as it is.  Otherwise the HTML part is made of the text,
    each line feed replaced by [<br>]: it is the lines of the text joined
    by [<br>], so it holds no line feed and is the text itself when the
    text has none. *)
Theorem mail_html_part (p : EmailParams) (w : World) :
  exists m,
    trace (snd (sendMail E P env p w))
    = trace w ++ [EvSendMail p; EvSmtp (transport E env) m]
    /\ msg_text m = mail_text p
    /\ (forall h, truthy (mail_html p) = Some h -> msg_html m = h)
    /\ (truthy (mail_html p) = None ->
        (exists lines,
            Forall (fun l => ~ In c_lf l) lines
            /\ mail_text p = join [c_lf] lines
            /\ msg_html m = join (lit "<br>") lines)
        /\ (forall lines,
              Forall (fun l => ~ In c_lf l) lines ->
              mail_text p = join [c_lf] lines ->
              msg_html m = join (lit "<br>") lines)
        /\ ~ In c_lf (msg_html m)
        /\ (~ In c_lf (mail_text p) -> msg_html m = mail_text p)).
Proof.
  exists (mail_message env p).
  split; [rewrite sendMail_run; reflexivity|].
  unfold mail_message. cbn [msg_html msg_text].
  split; [reflexivity|]. split.
  - intros h ->. reflexivity.
  - intros ->. split; [|split; [|split]].
    + destruct (lines_exist (mail_text p)) as (lines & _ & Hlines & Htext).
      exists lines. split; [exact Hlines|]. split; [exact Htext|].
      rewrite Htext at 1. apply newlines_to_br_lines. exact Hlines.
    + intros lines Hlines ->. apply newlines_to_br_lines. exact Hlines.
    + apply newlines_to_br_no_lf.
    + apply newlines_to_br_same.
Qed.

End SenderRuns.

(* ================================================================= *)
(** ** Further properties of the parse step *)

Section StripMore.

#[local] Arguments N.eqb : simpl never.

Lemma starts_with_split (p s : jsstring) :
  starts_with p s = true -> exists x, s = p ++ x.
Proof.
  revert s. induction p as [|a p IH]; intros s H.
  - exists s. reflexivity.
  - destruct s as [|b s]; [discriminate|].
    cbn [starts_with] in H. apply andb_prop in H. destruct H as [Hab H].
    apply N.eqb_eq in Hab. subst b.
    destruct (IH s H) as [x ->]. exists x. reflexivity.
Qed.

Lemma starts_with_self (p x : jsstring) : starts_with p (p ++ x) = true.
Proof.
  induction p as [|a p IH]; [reflexivity|].
  cbn [app starts_with]. rewrite N.eqb_refl. exact IH.
Qed.

(** Where the pattern matches, the match goes and the scan resumes after
    it. *)
Lemma strip_at_match (s : jsstring) :
  starts_with fence s = true ->
  exists m x, s = m ++ x /\ m <> [] /\ strip_fences_from 0 s = strip_fences_from 0 x.
Proof.
  intros Hf. destruct (starts_with fence_json s) eqn:Hj.
  - destruct (starts_with_split Hj) as [x ->].
    exists fence_json, x. split; [reflexivity|]. split; [discriminate|].
    apply strip_opening_fence.
  - destruct (starts_with_split Hf) as [x ->].
    exists fence, x. split; [reflexivity|]. split; [discriminate|].
    change (fence ++ x) with (c_backtick :: [c_backtick; c_backtick] ++ x)
      in Hj |- *.
    cbn [strip_fences_from]. rewrite Hj.
    replace (starts_with fence (c_backtick :: [c_backtick; c_backtick] ++ x))
      with true by reflexivity.
    exact (strip_skip [c_backtick; c_backtick] x).
Qed.

(** What is left starts with a backtick only if the text does, and with
    two only if the text does. *)
Lemma strip_head_backtick (s x : jsstring) :
  strip_fences_from 0 s = c_backtick :: x -> exists r, s = c_backtick :: r.
Proof.
  destruct s as [|c r]; [discriminate|].
  destruct (starts_with fence (c :: r)) eqn:Hf.
  - destruct (starts_with_split Hf) as [y Hy]. injection Hy as -> _. eauto.
  - rewrite (strip_no_match Hf). intros H. injection H as -> _. eauto.
Qed.

Lemma strip_head_two_backticks (s x : jsstring) :
  strip_fences_from 0 s = c_backtick :: c_backtick :: x ->
  exists r, s = c_backtick :: c_backtick :: r.
Proof.
  destruct s as [|c r]; [discriminate|].
  destruct (starts_with fence (c :: r)) eqn:Hf.
  - destruct (starts_with_split Hf) as [y Hy]. injection Hy as -> ->. eauto.
  - rewrite (strip_no_match Hf). intros H. injection H as -> H.
    destruct (strip_head_backtick H) as [r' ->]. eauto.
Qed.

Lemma no_fence_strip_bounded (n : nat) :
  forall s, List.length s <= n -> no_fence (strip_fences_from 0 s) = true.
Proof.
  induction n as [|n IH]; intros s Hlen.
  - destruct s; [reflexivity | cbn in Hlen; lia].
  - destruct s as [|c r]; [reflexivity|].
    destruct (starts_with fence (c :: r)) eqn:Hf.
    + destruct (strip_at_match Hf) as (m & x & Hs & Hm & ->).
      apply IH.
      assert (Hl : List.length (c :: r) = List.length m + List.length x)
        by (rewrite Hs; apply length_app).
      destruct m; [congruence|]. cbn [List.length] in Hl, Hlen. lia.
    + rewrite (strip_no_match Hf). cbn [no_fence].
      rewrite IH by (cbn in Hlen; lia). rewrite andb_true_r.
      apply negb_true_iff.
      destruct (starts_with fence (c :: strip_fences_from 0 r)) eqn:Hout;
        [|reflexivity].
      destruct (starts_with_split Hout) as [y Hy].
      injection Hy as -> Hy.
      destruct (strip_head_two_backticks Hy) as [r' ->].
      cbn in Hf. rewrite !N.eqb_refl in Hf. discriminate.
Qed.

Lemma strip_without_fence (s : jsstring) :
  no_fence s = true -> strip_fences s = s.
Proof.
  unfold strip_fences. induction s as [|c r IH]; intros H; [reflexivity|].
  cbn [no_fence] in H. apply andb_prop in H. destruct H as [Hc Hr].
  apply negb_true_iff in Hc.
  rewrite (strip_no_match Hc), (IH Hr). reflexivity.
Qed.

(** X15.  Whatever the reply, no run of three backticks is left once the
    fence pattern has been replaced, although a replacement can bring
    backticks together; hence replacing twice is replacing once. *)
Theorem strip_fences_leaves_no_fence (s : jsstring) :
  no_fence (strip_fences s) = true
  /\ strip_fences (strip_fences s) = strip_fences s.
Proof.
  assert (H : no_fence (strip_fences s) = true)
    by (apply (no_fence_strip_bounded (n := List.length s)); lia).
  split; [exact H | apply strip_without_fence, H].
Qed.

Lemma no_fence_after_clean (a x : jsstring) :
  Forall (fun c => c <> c_backtick) a -> no_fence x = true ->
  no_fence (a ++ x) = true.
Proof.
  induction 1 as [|c a Hc Ha IH]; intros Hx; [exact Hx|].
  cbn [app no_fence]. rewrite (starts_with_fence_head _ Hc), (IH Hx).
  reflexivity.
Qed.

Lemma no_fence_before_clean (j close : jsstring) :
  no_fence j = true -> Forall (fun c => c <> c_backtick) close ->
  no_fence (j ++ close) = true.
Proof.
  intros Hj Hclose. induction j as [|c r IH].
  - cbn [app]. rewrite <- (app_nil_r close).
    apply no_fence_after_clean; [exact Hclose | reflexivity].
  - cbn [no_fence] in Hj. apply andb_prop in Hj. destruct Hj as [Hc Hr].
    cbn [app no_fence]. rewrite (IH Hr), andb_true_r.
    apply negb_true_iff in Hc. apply negb_true_iff.
    destruct (starts_with fence (c :: r ++ close)) eqn:Hs; [|reflexivity].
    destruct (starts_with_split Hs) as [y Hy].
    destruct r as [|c2 [|c3 r]].
    + destruct close as [|d [|d2 close]]; try discriminate.
      cbn in Hy. injection Hy as -> -> _.
      apply Forall_inv in Hclose. congruence.
    + destruct close as [|d close]; try discriminate.
      cbn in Hy. injection Hy as -> -> -> _.
      apply Forall_inv in Hclose. congruence.
    + cbn in Hy. injection Hy as -> -> -> _. discriminate.
Qed.

End StripMore.

Lemma JSON_first_code_unit (c : N) (s : jsstring) :
  JSON_parse (c :: s) <> None -> c <> 106%N.
Proof.
  intros H ->. apply H. unfold JSON_parse.
  change (run (106%N :: s) (PSt MValue [])) with (run s PErr).
  rewrite run_error. reflexivity.
Qed.

Lemma not_json_tag (open j rest : jsstring) :
  JSON_parse j <> None -> all_ws open ->
  starts_with (lit "json") (open ++ j ++ rest) = false.
Proof.
  intros Hj Ho.
  change (lit "json") with [106%N; 115%N; 111%N; 110%N].
  assert (Hhead : forall c x, c <> 106%N ->
                              starts_with [106%N; 115%N; 111%N; 110%N] (c :: x)
                              = false).
  { intros c x Hc. cbn [starts_with]. apply andb_false_iff. left.
    apply N.eqb_neq. congruence. }
  destruct open as [|c open].
  - destruct j as [|c j]; [exfalso; apply Hj; reflexivity|].
    apply Hhead. exact (JSON_first_code_unit Hj).
  - apply Forall_inv in Ho. apply Hhead. intros ->. discriminate.
Qed.

(** X16.  A reply that carries a well-formed JSON text with no run of
    three backticks parses to the value of that text also when it comes
    bare, with white space of any kind around it, and when its fences have
    no [json] tag. *)
Theorem parse_reply_bare_or_untagged (open j close : jsstring) :
  JSON_parse j <> None ->
  no_fence j = true ->
  all_ws open -> all_ws close ->
  parse_reply (open ++ j ++ close) = JSON_parse j
  /\ parse_reply (fence ++ open ++ j ++ close ++ fence) = JSON_parse j.
Proof.
  intros Hwf Hj Ho Hc.
  assert (Hclean : forall w, all_ws w -> Forall (fun c => c <> c_backtick) w)
    by (intros w Hw; eapply Forall_impl; [|exact Hw]; apply ws_not_backtick).
  assert (Hparse : JSON_parse (trim (open ++ j ++ close)) = JSON_parse j).
  { rewrite trim_surrounded by assumption.
    destruct (JSON_parse j) as [v|] eqn:Hv; [|congruence].
    apply JSON_parse_trim. exact Hv. }
  split; unfold parse_reply.
  - rewrite strip_without_fence; [exact Hparse|].
    apply no_fence_after_clean; [apply Hclean, Ho|].
    apply no_fence_before_clean; [exact Hj | apply Hclean, Hc].
  - replace (strip_fences (fence ++ open ++ j ++ close ++ fence))
      with (open ++ j ++ close); [exact Hparse|].
    symmetry. unfold strip_fences.
    change (fence ++ open ++ j ++ close ++ fence)
      with (c_backtick
             :: [c_backtick; c_backtick] ++ open ++ j ++ close ++ fence).
    cbn [strip_fences_from].
    replace (starts_with fence_json
               (c_backtick
                 :: [c_backtick; c_backtick] ++ open ++ j ++ close ++ fence))
      with (starts_with (lit "json") (open ++ j ++ close ++ fence))
      by reflexivity.
    rewrite (not_json_tag (close ++ fence) Hwf Ho).
    replace (starts_with fence
               (c_backtick
                 :: [c_backtick; c_backtick] ++ open ++ j ++ close ++ fence))
      with true by reflexivity.
    rewrite (strip_skip [c_backtick; c_backtick]).
    rewrite strip_clean by (apply Hclean, Ho).
    rewrite strip_body_and_closing_fence; [reflexivity | exact Hj|].
    apply Hclean, Hc.
Qed.

(* ================================================================= *)
(** ** Properties of the reminder generation *)

Lemma reminder_of_pending (D : Calendar) (i : ObjectId) (v : json)
    (r : PortfolioReminder.t) :
  reminder_of D i v = Some r -> pending r /\ PortfolioReminder.id r = i.
Proof.
  unfold reminder_of. intros H.
  destruct (required_string (member v (lit "title"))); [|discriminate].
  destruct (required_string (member v (lit "description"))); [|discriminate].
  destruct (Date_of D (member v (lit "dueDate"))); [|discriminate].
  destruct (match member v (lit "priority") with
            | None => Some Priority.MEDIUM
            | Some (JString s) => priority_of_name s
            | Some _ => None
            end); [|discriminate].
  destruct (match member v (lit "category") with
            | Some (JString s) => category_of_name s
            | _ => None
            end); [|discriminate].
  injection H as <-. repeat split.
Qed.

Lemma reminders_from_pending (D : Calendar) (items : list json) :
  forall i, Forall pending (reminders_from D i items).
Proof.
  induction items as [|v items IH]; intros i; cbn [reminders_from].
  - constructor.
  - destruct v; [constructor|..];
      (destruct (reminder_of D i _) as [r|] eqn:Hr;
       [ constructor; [exact (proj1 (reminder_of_pending Hr)) | apply IH]
       | constructor ]).
Qed.

Lemma with_reminders_nil (s : Store) : with_reminders [] s = s.
Proof.
  destruct s. unfold with_reminders. cbn. rewrite app_nil_r. f_equal. lia.
Qed.

Lemma with_reminders_cons (r : PortfolioReminder.t)
    (l : list PortfolioReminder.t) (s : Store) :
  with_reminders l (with_reminder r s) = with_reminders (r :: l) s.
Proof.
  unfold with_reminders, with_reminder. cbn. rewrite <- app_assoc.
  cbn [app]. f_equal. lia.
Qed.

Section GenerationRuns.

Variable E : Engine.
Variable P : Outside.
Variable env : Env.
Variable A : Audit.
Variable D : Calendar.

(** The creation loop on any list of values. *)
Lemma create_reminders_run (items : list json) :
  forall (acc : list PortfolioReminder.t) (w : World),
    let made := reminders_from D (next_id (db w)) items in
    exists r,
      create_reminders E D items acc w
      = (r, mkWorld (with_reminders made (db w)) (trace w))
      /\ (List.length made = List.length items -> r = Ok (acc ++ made))
      /\ (List.length made <> List.length items -> exists e, r = Throw e).
Proof.
  induction items as [|v items IH]; intros acc w made.
  - exists (Ok acc). subst made. cbn. rewrite with_reminders_nil, app_nil_r.
    destruct w. repeat split; congruence.
  - assert (Hstop : forall e,
               made = [] ->
               create_reminder E D v w = (Throw e, w) ->
               exists r,
                 create_reminders E D (v :: items) acc w
                 = (r, mkWorld (with_reminders made (db w)) (trace w))
                 /\ (List.length made = List.length (v :: items) ->
                     r = Ok (acc ++ made))
                 /\ (List.length made <> List.length (v :: items) ->
                     exists e, r = Throw e)).
    { intros e Hmade Hrun. exists (Throw e).
      cbn [create_reminders]. rewrite (bind_throw _ Hrun), Hmade.
      rewrite with_reminders_nil. destruct w. cbn.
      repeat split; [discriminate | eauto]. }
    destruct (reminder_of D (next_id (db w)) v) as [x|] eqn:Hx.
    2:{ destruct v; eapply Hstop;
          try (subst made; cbn [reminders_from]; rewrite ?Hx; reflexivity);
          (unfold create_reminder, bind, read_db, raise, throw;
           cbn [fst snd db]; rewrite ?Hx; reflexivity). }
    destruct (IH (acc ++ [x]) (mkWorld (with_reminder x (db w)) (trace w)))
      as (r & IHrun & IHok & IHfail).
    cbn [db trace] in IHrun, IHok, IHfail.
    replace (next_id (with_reminder x (db w)))
      with (N.succ (next_id (db w))) in IHrun, IHok, IHfail
      by reflexivity.
    destruct v; [discriminate Hx | ..];
      (exists r; subst made; cbn [create_reminders reminders_from];
       rewrite Hx;
       erewrite bind_ok
         by (unfold create_reminder, bind, read_db, write_db, ret;
             cbn [fst snd db]; rewrite Hx; reflexivity);
       rewrite IHrun, with_reminders_cons;
       split; [reflexivity|]; cbn [List.length]; split;
       [ intros H; rewrite IHok by lia; rewrite <- app_assoc; reflexivity
       | intros H; apply IHfail; lia ]).
Qed.

Lemma reminders_from_accepted (items : list json) :
  Forall (accepted_suggestion D) items ->
  forall i, List.length (reminders_from D i items) = List.length items.
Proof.
  induction 1 as [|v items [Hnull Hacc] Hitems IH]; intros i; [reflexivity|].
  cbn [reminders_from].
  destruct (reminder_of D i v) as [x|] eqn:Hx;
    [|exfalso; exact (Hacc i Hx)].
  destruct v; try congruence; cbn [List.length]; rewrite IH; reflexivity.
Qed.

(** The run up to the parsed reply. *)
Lemma generateReminders_after_parse (userId : ObjectId) (w : World)
    (text : jsstring) (v : json) :
  let prompt := reminder_generation_prompt E A userId (db w) (clock P w) in
  llm P w prompt = inr text ->
  parse_reply text = Some v ->
  generateReminders E P env A D userId w
  = try_catch
      (items <- items_of E v ;;
       createdReminders <- create_reminders E D items [] ;;
       match truthy (USER_EMAIL env) with
       | Some userEmail =>
           _ <- sendMail E P env
                  (reminders_mail userEmail (List.length createdReminders)) ;;
           ret tt
       | None => ret tt
       end ;;
       ret createdReminders)
      (fun error => throw (reminders_failed error))
      (called (EvLLM prompt) w).
Proof.
  intros prompt Hllm Hparse.
  unfold generateReminders, try_catch.
  unfold bind at 1. unfold read_db at 1. cbn iota beta.
  unfold bind at 1. unfold current_time at 1. cbn iota beta.
  unfold bind at 1. unfold chain_call at 1.
  fold prompt. rewrite Hllm. cbn iota beta.
  rewrite Hparse. unfold bind at 1. unfold ret at 1. cbn iota beta.
  reflexivity.
Qed.

(** The run before the reply is parsed: a throw of the model or a reply
    that is not JSON ends it with the store as it was. *)
Lemma generateReminders_early_failure (userId : ObjectId) (w : World) :
  let prompt := reminder_generation_prompt E A userId (db w) (clock P w) in
  (exists e, llm P w prompt = inl e)
  \/ (exists text, llm P w prompt = inr text /\ parse_reply text = None) ->
  exists e,
    generateReminders E P env A D userId w
    = (Throw (reminders_failed e), called (EvLLM prompt) w).
Proof.
  intros prompt H.
  unfold generateReminders, try_catch.
  unfold bind at 1. unfold read_db at 1. cbn iota beta.
  unfold bind at 1. unfold current_time at 1. cbn iota beta.
  unfold bind at 1. unfold chain_call at 1. fold prompt.
  destruct H as [[e H] | (text & H & Hparse)]; rewrite H; cbn iota beta.
  - eexists. reflexivity.
  - rewrite Hparse. eexists. reflexivity.
Qed.

Lemma generation_notification_run (created : list PortfolioReminder.t)
    (w : World) :
  (match truthy (USER_EMAIL env) with
   | Some userEmail =>
       _ <- sendMail E P env (reminders_mail userEmail (List.length created)) ;;
       ret tt
   | None => ret tt
   end ;;
   ret created) w
  = (Ok created,
     mkWorld (db w)
       (trace w ++ generation_notification_events E env (List.length created))).
Proof.
  unfold bind, ret, generation_notification_events.
  destruct (truthy (USER_EMAIL env)).
  - rewrite sendMail_run. reflexivity.
  - rewrite app_nil_r. destruct w; reflexivity.
Qed.

(** The store a run leaves: the one it started with and the reminders made
    of some values, in order. *)
Lemma generateReminders_store (userId : ObjectId) (w : World) :
  exists items,
    db (snd (generateReminders E P env A D userId w))
    = with_reminders (reminders_from D (next_id (db w)) items) (db w).
Proof.
  assert (Hsame : forall r prompt,
             generateReminders E P env A D userId w
             = (r, called (EvLLM prompt) w) ->
             exists items,
               db (snd (generateReminders E P env A D userId w))
               = with_reminders (reminders_from D (next_id (db w)) items) (db w)).
  { intros r prompt H. rewrite H. exists []. cbn [reminders_from snd db called].
    rewrite with_reminders_nil. reflexivity. }
  destruct (llm P w (reminder_generation_prompt E A userId (db w) (clock P w)))
    as [e | text] eqn:Hllm.
  { destruct (@generateReminders_early_failure userId w) as [e' H];
      [left; eauto | exact (Hsame _ _ H)]. }
  destruct (parse_reply text) as [v|] eqn:Hparse.
  2:{ destruct (@generateReminders_early_failure userId w) as [e' H];
        [right; eauto | exact (Hsame _ _ H)]. }
  rewrite (generateReminders_after_parse Hllm Hparse).
  assert (Hloop : forall items,
             exists items',
               db (snd (try_catch
                          (createdReminders <- create_reminders E D items [] ;;
                           match truthy (USER_EMAIL env) with
                           | Some userEmail =>
                               _ <- sendMail E P env
                                      (reminders_mail userEmail
                                         (List.length createdReminders)) ;;
                               ret tt
                           | None => ret tt
                           end ;;
                           ret createdReminders)
                          (fun error => throw (reminders_failed error))
                          (called (EvLLM (reminder_generation_prompt E A userId
                                            (db w) (clock P w))) w)))
               = with_reminders (reminders_from D (next_id (db w)) items') (db w)).
  { intros items. exists items.
    destruct (create_reminders_run items []
                (called (EvLLM (reminder_generation_prompt E A userId
                                  (db w) (clock P w))) w))
      as (r & Hrun & _).
    cbn [called db trace] in Hrun.
    unfold try_catch, bind at 1. rewrite Hrun.
    destruct r as [created|e]; [|reflexivity].
    rewrite generation_notification_run. reflexivity. }
  destruct v; cbn [items_of];
    try (exists []; cbn [reminders_from]; rewrite with_reminders_nil;
         reflexivity);
    unfold try_catch at 1; unfold bind at 1; unfold ret at 1; cbn iota beta;
    apply Hloop.
Qed.

(** X17.  Whatever the user, the world and the answers of the providers,
    and however the run ends, [generateReminders] only appends reminders:
    those the store had stay in place and unchanged, every reminder added
    is neither completed nor notified, and no other collection is
    touched. *)
Theorem generateReminders_only_appends_pending
    (userId : ObjectId) (w : World) :
  let s' := db (snd (generateReminders E P env A D userId w)) in
  exists created,
    reminders s' = reminders (db w) ++ created
    /\ Forall pending created
    /\ users s' = users (db w)
    /\ skills s' = skills (db w)
    /\ educations s' = educations (db w)
    /\ experiences s' = experiences (db w)
    /\ projects s' = projects (db w)
    /\ jobAlerts s' = jobAlerts (db w)
    /\ chats s' = chats (db w)
    /\ chatMessages s' = chatMessages (db w).
Proof.
  intros s'. subst s'.
  destruct (generateReminders_store userId w) as [items ->].
  exists (reminders_from D (next_id (db w)) items). cbn.
  split; [reflexivity|]. split; [apply reminders_from_pending|].
  repeat split.
Qed.

Lemma generateReminders_accepted (userId : ObjectId) (w : World)
    (text : jsstring) (items : list json) :
  let prompt := reminder_generation_prompt E A userId (db w) (clock P w) in
  let created := reminders_from D (next_id (db w)) items in
  llm P w prompt = inr text ->
  parse_reply text = Some (JArray items) ->
  Forall (accepted_suggestion D) items ->
  generateReminders E P env A D userId w
  = (Ok created,
     mkWorld (with_reminders created (db w))
       (trace w ++ [EvLLM prompt]
        ++ generation_notification_events E env (List.length items))).
Proof.
  intros prompt created Hllm Hparse Hitems.
  rewrite (generateReminders_after_parse Hllm Hparse).
  fold prompt. apply try_catch_ok. cbn [items_of].
  unfold bind at 1. unfold ret at 1. cbn iota beta.
  destruct (create_reminders_run items [] (called (EvLLM prompt) w))
    as (r & Hrun & Hok & _).
  cbn [called db trace] in Hrun, Hok. fold created in Hrun, Hok.
  rewrite Hok in Hrun by apply (reminders_from_accepted Hitems).
  rewrite (bind_ok _ Hrun). cbn [app].
  rewrite generation_notification_run. cbn [db trace].
  unfold created at 3. rewrite (reminders_from_accepted Hitems).
  rewrite <- app_assoc. reflexivity.
Qed.

(** X18.  When the reply parses to an array of suggestions the store
    takes, [generateReminders] returns the reminders it created, which are
    the ones appended to the store, one per suggestion and in order; the
    owner is told their number by email when the owner email is configured,
    and no SMS is ever sent, whatever the owner phone and the priorities. *)
Theorem generateReminders_creates_and_mails
    (userId : ObjectId) (w : World) (text : jsstring) (items : list json) :
  let prompt := reminder_generation_prompt E A userId (db w) (clock P w) in
  let run := generateReminders E P env A D userId w in
  llm P w prompt = inr text ->
  parse_reply text = Some (JArray items) ->
  Forall (accepted_suggestion D) items ->
  exists created,
    fst run = Ok created
    /\ reminders (db (snd run)) = reminders (db w) ++ created
    /\ List.length created = List.length items
    /\ trace (snd run)
       = trace w ++ [EvLLM prompt]
         ++ generation_notification_events E env (List.length items)
    /\ filter is_sms (trace (snd run)) = filter is_sms (trace w)
    /\ (forall userEmail,
          truthy (USER_EMAIL env) = Some userEmail ->
          filter is_mail (trace (snd run))
          = filter is_mail (trace w)
            ++ [EvSendMail (reminders_mail userEmail (List.length items))]).
Proof.
  intros prompt run Hllm Hparse Hitems.
  exists (reminders_from D (next_id (db w)) items).
  subst run. rewrite (generateReminders_accepted Hllm Hparse Hitems).
  fold prompt. cbn [fst snd db trace with_reminders reminders].
  split; [reflexivity|]. split; [reflexivity|].
  split; [apply (reminders_from_accepted Hitems)|].
  split; [reflexivity|].
  unfold generation_notification_events, mail_events.
  split.
  - rewrite !filter_app. destruct (truthy (USER_EMAIL env)); cbn;
      rewrite ?app_nil_r; reflexivity.
  - intros userEmail ->. rewrite !filter_app. reflexivity.
Qed.

Lemma reminders_from_stops (good : list json) (bad : json)
    (rest : list json) :
  Forall (accepted_suggestion D) good ->
  bad = JNull \/ (forall i, reminder_of D i bad = None) ->
  forall i,
    reminders_from D i (good ++ bad :: rest) = reminders_from D i good.
Proof.
  intros Hgood Hbad.
  induction Hgood as [|v good [Hnull Hacc] Hgood IH]; intros i.
  - cbn [app reminders_from].
    destruct Hbad as [-> | Hbad]; [reflexivity|].
    rewrite Hbad. destruct bad; reflexivity.
  - cbn [app reminders_from]. rewrite IH.
    destruct v; reflexivity.
Qed.

(** X19.  The creation loop is not atomic.  When the reply parses to an
    array whose first suggestions are taken by the store and the next one
    is [null] or is refused, [generateReminders] throws the wrapped error
    after it has created one reminder for each of the first suggestions:
    they stay in the store, nothing is created for the rest, and no
    notification is sent. *)
Theorem generateReminders_partial_creation
    (userId : ObjectId) (w : World) (text : jsstring)
    (good : list json) (bad : json) (rest : list json) :
  let prompt := reminder_generation_prompt E A userId (db w) (clock P w) in
  let run := generateReminders E P env A D userId w in
  let created := reminders_from D (next_id (db w)) good in
  llm P w prompt = inr text ->
  parse_reply text = Some (JArray (good ++ bad :: rest)) ->
  Forall (accepted_suggestion D) good ->
  bad = JNull \/ (forall i, reminder_of D i bad = None) ->
  (exists e, fst run = Throw (reminders_failed e))
  /\ reminders (db (snd run)) = reminders (db w) ++ created
  /\ List.length created = List.length good
  /\ trace (snd run) = trace w ++ [EvLLM prompt].
Proof.
  intros prompt run created Hllm Hparse Hgood Hbad.
  subst run. rewrite (generateReminders_after_parse Hllm Hparse).
  fold prompt. cbn [items_of].
  destruct (create_reminders_run (good ++ bad :: rest) []
              (called (EvLLM prompt) w))
    as (r & Hrun & _ & Hfail).
  cbn [called db trace] in Hrun, Hfail.
  rewrite (reminders_from_stops rest Hgood Hbad) in Hrun, Hfail.
  fold created in Hrun, Hfail.
  assert (Hlen : List.length created = List.length good)
    by apply (reminders_from_accepted Hgood).
  destruct Hfail as [e ->].
  { rewrite Hlen, length_app. cbn [List.length]. lia. }
  erewrite try_catch_throw.
  2:{ unfold bind at 1. unfold ret at 1. cbn iota beta.
      apply (bind_throw _ Hrun). }
  cbn [throw fst snd db trace with_reminders reminders].
  split; [eauto|]. repeat split. exact Hlen.
Qed.

(** X20.  Generation and due-check compose.  After any run of
    [generateReminders], every reminder it added whose due date is within
    48 hours of the time of the next due-check is selected by that check
    and has a turn of its own in it. *)
Theorem generated_reminders_are_checked (userId : ObjectId) (w : World) :
  let w' := snd (generateReminders E P env A D userId w) in
  let check := sendReminderNotifications E P env w' in
  exists created,
    reminders (db w') = reminders (db w) ++ created
    /\ forall r,
         In r created ->
         (PortfolioReminder.dueDate r <= clock P w' + lookahead_ms)%Z ->
         In r (due_reminders (clock P w') (db w'))
         /\ exists before after,
              trace (snd check)
              = trace w' ++ before ++ reminder_events E env r ++ after.
Proof.
  intros w' check. subst check w'.
  destruct (generateReminders_store userId w) as [items Hdb].
  set (w' := snd (generateReminders E P env A D userId w)) in *.
  exists (reminders_from D (next_id (db w)) items).
  rewrite Hdb at 1. split; [reflexivity|].
  intros r Hr Hdue.
  assert (Hin : In r (due_reminders (clock P w') (db w'))).
  { unfold due_reminders. apply filter_In. split.
    - rewrite Hdb. cbn. apply in_or_app. right. exact Hr.
    - pose proof (reminders_from_pending D items (next_id (db w))) as Hall.
      rewrite Forall_forall in Hall. destruct (Hall r Hr) as [Hc Hs].
      unfold is_due. rewrite Hc, Hs. cbn [negb]. rewrite !andb_true_r.
      apply Z.leb_le. exact Hdue. }
  split; [exact Hin|].
  rewrite sendReminderNotifications_run. cbn [snd trace].
  destruct (flat_map_in_middle (reminder_events E env) Hin)
    as (before & after & Heq).
  exists before, after. rewrite Heq. reflexivity.
Qed.

End GenerationRuns.

(* ================================================================= *)
(** ** Properties of the resume distribution *)

Section Ordering.

Context {T : Type}.
Variable key : T -> Z.

Lemma insert_desc_perm (x : T) (l : list T) :
  Permutation (insert_desc key x l) (x :: l).
Proof.
  induction l as [|y r IH]; cbn [insert_desc]; [reflexivity|].
  destruct (Z.ltb (key x) (key y)); [|reflexivity].
  rewrite IH. apply perm_swap.
Qed.

Lemma order_desc_perm (l : list T) : Permutation (order_desc key l) l.
Proof.
  induction l as [|x l IH]; cbn; [constructor|].
  fold (order_desc key l). rewrite insert_desc_perm, IH. reflexivity.
Qed.

Lemma insert_desc_sorted (x : T) (l : list T) :
  StronglySorted (fun a b => (key b <= key a)%Z) l ->
  StronglySorted (fun a b => (key b <= key a)%Z) (insert_desc key x l).
Proof.
  induction 1 as [|y r Hr IH Hy]; cbn [insert_desc].
  - repeat constructor.
  - destruct (Z.ltb (key x) (key y)) eqn:Hlt.
    + apply Z.ltb_lt in Hlt. constructor; [exact IH|].
      rewrite Forall_forall in *. intros z Hz.
      apply (Permutation_in _ (insert_desc_perm x r)) in Hz.
      destruct Hz as [<- | Hz]; [lia | exact (Hy z Hz)].
    + apply Z.ltb_ge in Hlt. constructor; [constructor; assumption|].
      constructor; [exact Hlt|].
      rewrite Forall_forall in *. intros z Hz.
      specialize (Hy z Hz). cbv beta in *. lia.
Qed.

Lemma order_desc_sorted (l : list T) :
  StronglySorted (fun a b => (key b <= key a)%Z) (order_desc key l).
Proof.
  induction l as [|x l IH]; cbn; [constructor|].
  apply insert_desc_sorted. exact IH.
Qed.

Lemma sorted_app_above (a b : list T) :
  StronglySorted (fun a b => (key b <= key a)%Z) (a ++ b) ->
  forall x y, In x a -> In y b -> (key y <= key x)%Z.
Proof.
  induction a as [|z a IH]; intros Hs x y Hx Hy; [destruct Hx|].
  cbn [app] in Hs. apply StronglySorted_inv in Hs. destruct Hs as [Hs Hz].
  destruct Hx as [<- | Hx].
  - rewrite Forall_forall in Hz. apply Hz. apply in_or_app. right. exact Hy.
  - exact (IH Hs x y Hx Hy).
Qed.

Lemma sorted_app_left (a b : list T) :
  StronglySorted (fun x y => (key y <= key x)%Z) (a ++ b) ->
  StronglySorted (fun x y => (key y <= key x)%Z) a.
Proof.
  induction a as [|z a IH]; intros Hs; [constructor|].
  cbn [app] in Hs. apply StronglySorted_inv in Hs. destruct Hs as [Hs Hz].
  constructor; [exact (IH Hs)|].
  rewrite Forall_forall in *. intros y Hy. apply Hz.
  apply in_or_app. left. exact Hy.
Qed.

(** The first [n] records in descending order of [key]: a choice of at
    most [n] of the records, in descending order, none below a record left
    out. *)
Lemma take_order_desc (n : nat) (l : list T) :
  let top := firstn n (order_desc key l) in
  exists rest,
    Permutation l (top ++ rest)
    /\ List.length top = Nat.min n (List.length l)
    /\ StronglySorted (fun x y => (key y <= key x)%Z) top
    /\ forall x y, In x top -> In y rest -> (key y <= key x)%Z.
Proof.
  intros top. exists (skipn n (order_desc key l)). subst top.
  split; [|split; [|split]].
  - rewrite firstn_skipn. symmetry. apply order_desc_perm.
  - rewrite length_firstn, (Permutation_length (order_desc_perm l)).
    reflexivity.
  - apply (sorted_app_left (b := skipn n (order_desc key l))).
    rewrite firstn_skipn. apply order_desc_sorted.
  - apply sorted_app_above. rewrite firstn_skipn. apply order_desc_sorted.
Qed.

End Ordering.

Section ResumeRuns.

Variable E : Engine.
Variable P : Outside.
Variable env : Env.

Lemma distributeResume_without_user
    (input : ResumeDistributionInput) (l : Ledger) :
  find_user (dist_userId input) (db (world l)) = None ->
  distributeResume E P env input l
  = (Ok (distribution_failed user_not_found), l).
Proof.
  intros H. destruct l as [w dists]. cbn [world] in H.
  unfold distributeResume, try_catch_L.
  unfold bind_L at 1. unfold lift at 1. unfold read_db at 1.
  cbn [world resumeDistributions]. rewrite H.
  unfold bind_L at 1. unfold lift at 1. unfold throw at 1.
  cbn [world resumeDistributions]. reflexivity.
Qed.

Lemma distributeResume_model_throws
    (input : ResumeDistributionInput) (l : Ledger) (user : User.t)
    (e : thrown) :
  let prompt := cover_letter_prompt input user (db (world l)) in
  find_user (dist_userId input) (db (world l)) = Some user ->
  llm P (world l) prompt = inl e ->
  distributeResume E P env input l
  = (Ok (distribution_failed e), in_world (called (EvLLM prompt) (world l)) l).
Proof.
  intros prompt H Hllm. destruct l as [w dists].
  cbn [world] in H, Hllm, prompt |- *.
  unfold distributeResume, try_catch_L.
  unfold bind_L at 1. unfold lift at 1. unfold read_db at 1.
  cbn [world resumeDistributions]. rewrite H.
  unfold bind_L at 1. unfold ret_L at 1.
  unfold bind_L at 1. unfold lift at 1. unfold chain_call at 1.
  cbn [world resumeDistributions]. fold prompt. rewrite Hllm.
  reflexivity.
Qed.

(** The run once the model has replied. *)
Lemma distributeResume_after_reply
    (input : ResumeDistributionInput) (l : Ledger) (user : User.t)
    (text : jsstring) :
  let prompt := cover_letter_prompt input user (db (world l)) in
  let w1 := drawn (called (EvLLM prompt) (world l)) in
  let dists :=
    resumeDistributions l
    ++ [distribution_of (next_id (db (world l))) input] in
  let mails := distribution_events E env input (trim text) in
  find_user (dist_userId input) (db (world l)) = Some user ->
  llm P (world l) prompt = inr text ->
  distributeResume E P env input l
  = match dist_jobAlertId input with
    | Some jobAlertId =>
        if has_alert jobAlertId (db (world l))
        then (Ok (distribution_done input),
              mkLedger
                (traced mails (with_applied jobAlertId (clock P w1) w1))
                dists)
        else (Ok (distribution_failed
                    (ErrorObject (error_message E Prisma_not_found))),
              mkLedger w1 dists)
    | None => (Ok (distribution_done input), mkLedger (traced mails w1) dists)
    end.
Proof.
  intros prompt w1 dists mails H Hllm. destruct l as [w ds].
  cbn [world resumeDistributions] in H, Hllm, prompt, w1, dists |- *.
  assert (Hmails : forall w2 : World,
             bind_L
               (lift (sendMail E P env (application_mail input (trim text))))
               (fun _ =>
                  bind_L
                    match truthy (USER_EMAIL env) with
                    | Some userEmail =>
                        bind_L
                          (lift (sendMail E P env
                                   (distribution_mail userEmail input)))
                          (fun _ => ret_L tt)
                    | None => ret_L tt
                    end
                    (fun _ => ret_L (distribution_done input)))
               (mkLedger w2 dists)
             = (Ok (distribution_done input),
                mkLedger (traced mails w2) dists)).
  { intros w2. subst mails. unfold distribution_events, traced.
    unfold bind_L at 1. unfold lift at 1. cbn [world resumeDistributions].
    rewrite sendMail_run. cbn [db trace].
    destruct (truthy (USER_EMAIL env)) as [userEmail|].
    - unfold bind_L at 1. unfold bind_L at 1. unfold lift at 1.
      cbn [world resumeDistributions]. rewrite sendMail_run.
      cbn [db trace]. unfold ret_L. rewrite <- app_assoc. reflexivity.
    - unfold bind_L at 1. unfold ret_L. rewrite app_nil_r. reflexivity. }
  unfold distributeResume, try_catch_L.
  unfold bind_L at 1. unfold lift at 1. unfold read_db at 1.
  cbn [world resumeDistributions]. rewrite H.
  unfold bind_L at 1. unfold ret_L at 1.
  unfold bind_L at 1. unfold lift at 1. unfold chain_call at 1.
  cbn [world resumeDistributions]. fold prompt. rewrite Hllm.
  unfold bind_L at 1. unfold create_distribution at 1.
  unfold bind_L at 1. unfold lift at 1. unfold fresh_id at 1.
  cbn [world resumeDistributions db trace].
  fold (called (EvLLM prompt) w). 
  change (mkWorld _ _) with w1 at 1.
  fold dists.
  destruct (dist_jobAlertId input) as [jobAlertId|].
  - unfold bind_L at 1. unfold bind_L at 1. unfold lift at 1.
    unfold current_time at 1. cbn [world resumeDistributions].
    unfold lift at 1. unfold update_applied at 1.
    unfold bind at 1. unfold read_db at 1.
    cbn [world resumeDistributions].
    change (has_alert jobAlertId (db w1)) with (has_alert jobAlertId (db w)).
    destruct (has_alert jobAlertId (db w)).
    + unfold write_db. rewrite Hmails. reflexivity.
    + reflexivity.
  - unfold bind_L at 1. unfold ret_L at 1. rewrite Hmails. reflexivity.
Qed.

Lemma applied_in_ids (i : ObjectId) (now : Z) (l : list JobAlert.t) :
  map JobAlert.id (applied_in i now l) = map JobAlert.id l.
Proof.
  unfold applied_in. rewrite map_map. apply map_ext. intros a.
  destruct (N.eqb (JobAlert.id a) i); reflexivity.
Qed.

Lemma filter_mail_events (p : EmailParams) :
  filter is_mail (mail_events E env p) = [EvSendMail p].
Proof. reflexivity. Qed.

(** X21.  For a user the store does not have, [distributeResume] returns
    the failure [User not found] without asking the model: the ledger,
    trace included, is the one it started with. *)
Theorem distributeResume_unknown_user
    (input : ResumeDistributionInput) (l : Ledger) :
  let run := distributeResume E P env input l in
  find_user (dist_userId input) (db (world l)) = None ->
  fst run
  = Ok (mkDistributionResult false
          (lit "Failed to distribute resume: User not found"))
  /\ snd run = l.
Proof.
  intros run H. subst run. rewrite (distributeResume_without_user H).
  split; reflexivity.
Qed.

(** X22.  When the model throws, [distributeResume] returns a failure
    that carries the message of what was thrown; nothing is recorded, the
    store is unchanged and no mail is sent. *)
Theorem distributeResume_model_failure
    (input : ResumeDistributionInput) (l : Ledger) (user : User.t)
    (e : thrown) :
  let prompt := cover_letter_prompt input user (db (world l)) in
  let run := distributeResume E P env input l in
  find_user (dist_userId input) (db (world l)) = Some user ->
  llm P (world l) prompt = inl e ->
  fst run
  = Ok (mkDistributionResult false
          (lit "Failed to distribute resume: " ++ message_of e))
  /\ resumeDistributions (snd run) = resumeDistributions l
  /\ db (world (snd run)) = db (world l)
  /\ trace (world (snd run)) = trace (world l) ++ [EvLLM prompt].
Proof.
  intros prompt run H Hllm. subst run.
  rewrite (distributeResume_model_throws H Hllm).
  repeat split.
Qed.

(** X23.  The distribution is recorded before the job alert is updated,
    and nothing is rolled back.  For a [jobAlertId] the store does not
    have, [distributeResume] returns a failure, yet the distribution has
    been recorded with status [SENT]; no application and no notification
    is sent, and the job alerts are unchanged. *)
Theorem distributeResume_stale_alert
    (input : ResumeDistributionInput) (l : Ledger) (user : User.t)
    (text : jsstring) (jobAlertId : ObjectId) :
  let prompt := cover_letter_prompt input user (db (world l)) in
  let run := distributeResume E P env input l in
  let recorded := distribution_of (next_id (db (world l))) input in
  find_user (dist_userId input) (db (world l)) = Some user ->
  llm P (world l) prompt = inr text ->
  dist_jobAlertId input = Some jobAlertId ->
  has_alert jobAlertId (db (world l)) = false ->
  fst run
  = Ok (mkDistributionResult false
          (lit "Failed to distribute resume: "
           ++ error_message E Prisma_not_found))
  /\ resumeDistributions (snd run) = resumeDistributions l ++ [recorded]
  /\ ResumeDistribution.status recorded = DistributionStatus.SENT
  /\ jobAlerts (db (world (snd run))) = jobAlerts (db (world l))
  /\ trace (world (snd run)) = trace (world l) ++ [EvLLM prompt].
Proof.
  intros prompt run recorded H Hllm Hid Halert. subst run.
  rewrite (distributeResume_after_reply H Hllm), Hid, Halert.
  repeat split.
Qed.

(** X24.  Once the user is known, the model has replied and the job alert
    named by the input, if any, exists, [distributeResume] reports success
    whatever the mail transport answers.  One distribution is recorded;
    the application goes to [sendMail] for the contact address with the
    trimmed reply as text, then the notification for the owner when the
    owner email is configured, and nothing else is sent; the named alert
    gets status [APPLIED] and the time of the update, the other alerts are
    unchanged. *)
Theorem distributeResume_reports_success
    (input : ResumeDistributionInput) (l : Ledger) (user : User.t)
    (text : jsstring) :
  let prompt := cover_letter_prompt input user (db (world l)) in
  let run := distributeResume E P env input l in
  let now := clock P (drawn (called (EvLLM prompt) (world l))) in
  find_user (dist_userId input) (db (world l)) = Some user ->
  llm P (world l) prompt = inr text ->
  (forall jobAlertId,
      dist_jobAlertId input = Some jobAlertId ->
      has_alert jobAlertId (db (world l)) = true) ->
  fst run = Ok (distribution_done input)
  /\ result_success (distribution_done input) = true
  /\ resumeDistributions (snd run)
     = resumeDistributions l
       ++ [distribution_of (next_id (db (world l))) input]
  /\ trace (world (snd run))
     = trace (world l) ++ [EvLLM prompt]
       ++ distribution_events E env input (trim text)
  /\ filter is_mail (trace (world (snd run)))
     = filter is_mail (trace (world l))
       ++ EvSendMail (application_mail input (trim text))
          :: match truthy (USER_EMAIL env) with
             | Some userEmail => [EvSendMail (distribution_mail userEmail input)]
             | None => []
             end
  /\ jobAlerts (db (world (snd run)))
     = match dist_jobAlertId input with
       | Some jobAlertId => applied_in jobAlertId now (jobAlerts (db (world l)))
       | None => jobAlerts (db (world l))
       end.
Proof.
  intros prompt run now H Hllm Halert. subst run.
  rewrite (distributeResume_after_reply H Hllm). fold prompt.
  assert (Hmail :
            filter is_mail
              ((trace (world l) ++ [EvLLM prompt])
               ++ distribution_events E env input (trim text))
            = filter is_mail (trace (world l))
              ++ EvSendMail (application_mail input (trim text))
                 :: match truthy (USER_EMAIL env) with
                    | Some userEmail =>
                        [EvSendMail (distribution_mail userEmail input)]
                    | None => []
                    end).
  { unfold distribution_events. rewrite !filter_app, !filter_mail_events.
    cbn [filter is_mail app]. rewrite app_nil_r.
    destruct (truthy (USER_EMAIL env));
      [rewrite filter_mail_events|]; reflexivity. }
  destruct (dist_jobAlertId input) as [jobAlertId|].
  - rewrite (Halert jobAlertId eq_refl).
    cbn [fst snd world resumeDistributions traced with_applied drawn called
         db trace set_jobAlerts jobAlerts].
    rewrite <- app_assoc.
    repeat split. rewrite app_assoc. exact Hmail.
  - cbn [fst snd world resumeDistributions traced drawn called db trace
         jobAlerts].
    rewrite <- app_assoc.
    repeat split. rewrite app_assoc. exact Hmail.
Qed.

(** X25.  Whatever the input, the ledger and the answers of the
    providers, [distributeResume] returns a result and never throws.  A
    failure is reported only when no mail was sent; with a success the
    distribution has been recorded and the application given to
    [sendMail].  At most one distribution is added in any case; the job
    alerts keep their identifiers and order, and no other collection is
    touched. *)
Theorem distributeResume_always_returns
    (input : ResumeDistributionInput) (l : Ledger) :
  let run := distributeResume E P env input l in
  let s := db (world l) in
  let s' := db (world (snd run)) in
  let recorded := distribution_of (next_id s) input in
  exists r,
    fst run = Ok r
    /\ (result_success r = false ->
        filter is_mail (trace (world (snd run)))
        = filter is_mail (trace (world l)))
    /\ (result_success r = true ->
        resumeDistributions (snd run) = resumeDistributions l ++ [recorded]
        /\ exists coverLetter,
             In (EvSendMail (application_mail input coverLetter))
               (trace (world (snd run))))
    /\ (resumeDistributions (snd run) = resumeDistributions l
        \/ resumeDistributions (snd run) = resumeDistributions l ++ [recorded])
    /\ map JobAlert.id (jobAlerts s') = map JobAlert.id (jobAlerts s)
    /\ users s' = users s
    /\ skills s' = skills s
    /\ educations s' = educations s
    /\ experiences s' = experiences s
    /\ projects s' = projects s
    /\ reminders s' = reminders s
    /\ chats s' = chats s
    /\ chatMessages s' = chatMessages s.
Proof.
  intros run s s' recorded. subst run s s' recorded.
  destruct (find_user (dist_userId input) (db (world l))) as [user|] eqn:H.
  2:{ rewrite (distributeResume_without_user H).
      eexists. split; [reflexivity|]. cbn [fst snd].
      split; [reflexivity|]. split; [discriminate|].
      split; [left; reflexivity|]. repeat split. }
  destruct (llm P (world l) (cover_letter_prompt input user (db (world l))))
    as [e|text] eqn:Hllm.
  { rewrite (distributeResume_model_throws H Hllm).
    eexists. split; [reflexivity|].
    cbn [fst snd in_world world resumeDistributions called db trace].
    split; [intros _; rewrite filter_app, app_nil_r; reflexivity|].
    split; [discriminate|].
    split; [left; reflexivity|]. repeat split. }
  rewrite (distributeResume_after_reply H Hllm).
  assert (Hsent : forall t,
             In (EvSendMail (application_mail input (trim text)))
               ((t ++ [EvLLM (cover_letter_prompt input user (db (world l)))])
                ++ distribution_events E env input (trim text))).
  { intros t. apply in_or_app. right. left. reflexivity. }
  destruct (dist_jobAlertId input) as [jobAlertId|];
    [destruct (has_alert jobAlertId (db (world l)))|];
    (eexists; split; [reflexivity|]);
    cbn [fst snd world resumeDistributions traced with_applied drawn called
         db trace set_jobAlerts jobAlerts users skills educations
         experiences projects reminders chats chatMessages
         distribution_done distribution_failed result_success].
  - split; [discriminate|].
    split; [intros _; split; [reflexivity|eexists; apply Hsent]|].
    split; [right; reflexivity|].
    split; [apply applied_in_ids|]. repeat split.
  - split; [intros _; rewrite filter_app, app_nil_r; reflexivity|].
    split; [discriminate|].
    split; [right; reflexivity|]. repeat split.
  - split; [discriminate|].
    split; [intros _; split; [reflexivity|eexists; apply Hsent]|].
    split; [right; reflexivity|]. repeat split.
Qed.

(** X26.  The cover letter is asked for with the best records only.  For a
    user the store has, the first thing [distributeResume] does outside
    the store is to call the model, with the template filled in from the
    input, the name of the user, the names of the skills [top] joined by
    commas and the lines of the experiences [recent]: [top] holds at most
    10 skills of the user (all when there are fewer) in descending order of
    proficiency, none less proficient than a skill left out, and [recent]
    at most 3 experiences of the user in descending order of start date,
    none older than an experience left out. *)
Theorem cover_letter_uses_top_records
    (input : ResumeDistributionInput) (l : Ledger) (user : User.t) :
  let userId := dist_userId input in
  let s := db (world l) in
  let run := distributeResume E P env input l in
  find_user userId s = Some user ->
  exists top others recent older events,
    trace (world (snd run))
    = trace (world l)
      ++ EvLLM
           (resumeDistributionPrompt (dist_jobTitle input)
              (dist_companyName input) (dist_jobDescription input)
              (User.name user)
              (join (lit ", ") (map Skill.name top))
              (join [c_lf; c_lf]
                 (map (fun x =>
                         Experience.position x ++ lit " at "
                         ++ Experience.company x ++ lit ": "
                         ++ match Experience.description x with
                            | Some d => d
                            | None => lit "null"
                            end)
                    recent)))
         :: events
    /\ Permutation (skills_of userId s) (top ++ others)
    /\ List.length top = Nat.min 10 (List.length (skills_of userId s))
    /\ StronglySorted
         (fun x y => (Skill.proficiency y <= Skill.proficiency x)%Z) top
    /\ (forall x y, In x top -> In y others ->
                    (Skill.proficiency y <= Skill.proficiency x)%Z)
    /\ Permutation (experiences_of userId s) (recent ++ older)
    /\ List.length recent = Nat.min 3 (List.length (experiences_of userId s))
    /\ StronglySorted
         (fun x y => (Experience.startDate y <= Experience.startDate x)%Z)
         recent
    /\ (forall x y, In x recent -> In y older ->
                    (Experience.startDate y <= Experience.startDate x)%Z).
Proof.
  intros userId s run Huser.
  destruct (take_order_desc Skill.proficiency 10 (skills_of userId s))
    as (others & Hs1 & Hs2 & Hs3 & Hs4).
  destruct (take_order_desc Experience.startDate 3 (experiences_of userId s))
    as (older & He1 & He2 & He3 & He4).
  exists (top_skills userId s), others, (recent_experiences userId s), older.
  assert (Htrace : exists events,
             trace (world (snd run))
             = trace (world l)
               ++ EvLLM (cover_letter_prompt input user s) :: events).
  { subst run.
    destruct (llm P (world l) (cover_letter_prompt input user (db (world l))))
      as [e|text] eqn:Hllm.
    - rewrite (distributeResume_model_throws Huser Hllm).
      exists []. reflexivity.
    - rewrite (distributeResume_after_reply Huser Hllm).
      destruct (dist_jobAlertId input) as [jobAlertId|];
        [destruct (has_alert jobAlertId (db (world l)))|];
        cbn [snd world traced with_applied drawn called db trace];
        rewrite <- ?app_assoc; eexists; reflexivity. }
  destruct Htrace as [events Htrace].
  exists events. split; [exact Htrace|].
  repeat split; assumption.
Qed.

End ResumeRuns.


(* ================================================================= *)
(** ** Properties of the chat history *)

Section Ascending.

Context {T : Type}.
Variable key : T -> Z.

Lemma insert_asc_perm (x : T) (l : list T) :
  Permutation (insert_asc key x l) (x :: l).
Proof.
  induction l as [|y r IH]; cbn [insert_asc]; [reflexivity|].
  destruct (Z.ltb (key y) (key x)); [|reflexivity].
  rewrite IH. apply perm_swap.
Qed.

Lemma order_asc_perm (l : list T) : Permutation (order_asc key l) l.
Proof.
  induction l as [|x l IH]; cbn; [constructor|].
  fold (order_asc key l). rewrite insert_asc_perm, IH. reflexivity.
Qed.

Lemma insert_asc_sorted (x : T) (l : list T) :
  StronglySorted (fun a b => (key a <= key b)%Z) l ->
  StronglySorted (fun a b => (key a <= key b)%Z) (insert_asc key x l).
Proof.
  induction 1 as [|y r Hr IH Hy]; cbn [insert_asc].
  - repeat constructor.
  - destruct (Z.ltb (key y) (key x)) eqn:Hlt.
    + apply Z.ltb_lt in Hlt. constructor; [exact IH|].
      rewrite Forall_forall in *. intros z Hz.
      apply (Permutation_in _ (insert_asc_perm x r)) in Hz.
      destruct Hz as [<- | Hz]; [lia | exact (Hy z Hz)].
    + apply Z.ltb_ge in Hlt. constructor; [constructor; assumption|].
      constructor; [exact Hlt|].
      rewrite Forall_forall in *. intros z Hz.
      specialize (Hy z Hz). cbv beta in *. lia.
Qed.

Lemma order_asc_sorted (l : list T) :
  StronglySorted (fun a b => (key a <= key b)%Z) (order_asc key l).
Proof.
  induction l as [|x l IH]; cbn; [constructor|].
  apply insert_asc_sorted. exact IH.
Qed.

End Ascending.

Lemma find_last_some {A} (f : A -> bool) (l : list A) (x : A) :
  f x = true -> exists y, find f (l ++ [x]) = Some y.
Proof.
  intros Hx. induction l as [|a l IH]; cbn.
  - rewrite Hx. eauto.
  - destruct (f a); eauto.
Qed.

Section HistoryRuns.

Variable E : Engine.
Variable P : Outside.
Variable T : Timeline.

Lemma getChatHistory_found (cid : ObjectId) (w : World)
    (chat : ChatInteraction.t) :
  find_chat cid (db w) = Some chat ->
  getChatHistory T cid w
  = (Ok (mkChatHistory chat
           (order_asc (fun m => message_timestamp T (ChatMessage.id m))
              (conversation_of cid (db w)))),
     w).
Proof.
  intros H. unfold getChatHistory, try_catch, bind, read_db, ret.
  rewrite H. reflexivity.
Qed.

Lemma getChatHistory_missing (cid : ObjectId) (w : World) :
  find_chat cid (db w) = None ->
  getChatHistory T cid w = (Throw (history_failed (chat_not_found cid)), w).
Proof.
  intros H. unfold getChatHistory, try_catch, bind, read_db, throw.
  rewrite H. reflexivity.
Qed.

(** X27.  [getChatHistory] only reads: the world it leaves is the one it
    started in.  For a session the store has, it returns the session and
    exactly the messages of that session, each once, in ascending order of
    timestamp; for any other identifier it throws the not-found error,
    wrapped. *)
Theorem getChatHistory_reads_only (cid : ObjectId) (w : World) :
  let run := getChatHistory T cid w in
  snd run = w
  /\ match find_chat cid (db w) with
     | Some chat =>
         exists h,
           fst run = Ok h
           /\ history_chat h = chat
           /\ ChatInteraction.id chat = cid
           /\ Permutation (history_messages h) (conversation_of cid (db w))
           /\ StronglySorted
                (fun a b =>
                   (message_timestamp T (ChatMessage.id a)
                    <= message_timestamp T (ChatMessage.id b))%Z)
                (history_messages h)
     | None => fst run = Throw (history_failed (chat_not_found cid))
     end.
Proof.
  intros run. subst run.
  destruct (find_chat cid (db w)) as [chat|] eqn:H.
  - rewrite (getChatHistory_found H). split; [reflexivity|].
    eexists. split; [reflexivity|]. cbn [history_chat history_messages].
    split; [reflexivity|]. split; [exact (find_chat_id H)|].
    split; [apply order_asc_perm|].
    apply (order_asc_sorted
             (fun m => message_timestamp T (ChatMessage.id m))).
  - rewrite (getChatHistory_missing H). split; reflexivity.
Qed.

(** A chat turn that returns was a turn on a session found or opened, with
    a reply of the model. *)
Lemma chat_turn_returns (input : ChatInput) (w : World) (resp : ChatResponse) :
  fst (processChatMessage E P input w) = Ok resp ->
  exists w1 chat conversation text,
    get_or_create_chat input w = (Ok (chat, conversation), w1)
    /\ (exists c, find_chat (ChatInteraction.id chat) (db w1) = Some c)
    /\ llm P (mkWorld (with_message (visitor_message input chat (db w1))
                         (db w1)) (trace w1))
         (chat_prompt E input (db w1) conversation) = inr text.
Proof.
  intros Hok.
  assert (Hturn : forall w1 chat conversation,
             get_or_create_chat input w = (Ok (chat, conversation), w1) ->
             (exists c, find_chat (ChatInteraction.id chat) (db w1) = Some c) ->
             exists w1 chat conversation text,
               get_or_create_chat input w = (Ok (chat, conversation), w1)
               /\ (exists c,
                      find_chat (ChatInteraction.id chat) (db w1) = Some c)
               /\ llm P (mkWorld
                           (with_message (visitor_message input chat (db w1))
                              (db w1)) (trace w1))
                    (chat_prompt E input (db w1) conversation) = inr text).
  { intros w1 chat conversation Hchat Hfind.
    destruct (llm P (mkWorld (with_message (visitor_message input chat (db w1))
                                (db w1)) (trace w1))
                (chat_prompt E input (db w1) conversation))
      as [e | text] eqn:Hllm.
    - rewrite (chat_turn_throws Hchat Hllm) in Hok. discriminate Hok.
    - exists w1, chat, conversation, text. auto. }
  destruct (chat_chatId input) as [cid|] eqn:Hid.
  - destruct (find_chat cid (db w)) as [chat|] eqn:Hfind.
    + apply (Hturn _ _ _ (get_existing_chat Hid Hfind)).
      rewrite (find_chat_id Hfind). eauto.
    + rewrite (@chat_session_missing E P input w cid Hid Hfind) in Hok.
      discriminate Hok.
  - apply (Hturn _ _ _ (open_new_chat w Hid)).
    cbn [db]. unfold find_chat, with_session. cbn [chats].
    apply find_last_some. cbn [opened_session ChatInteraction.id].
    apply N.eqb_refl.
Qed.

(** X28.  What a chat turn stores, the history returns.  After any run of
    [processChatMessage] that returns a response, [getChatHistory] on the
    session of the response succeeds, and its messages hold the visitor's
    message and the assistant's: the latter has the identifier and the
    content of the response. *)
Theorem chat_turn_then_history
    (input : ChatInput) (w : World) (resp : ChatResponse) :
  let run := processChatMessage E P input w in
  fst run = Ok resp ->
  exists h,
    getChatHistory T (resp_chatId resp) (snd run) = (Ok h, snd run)
    /\ ChatInteraction.id (history_chat h) = resp_chatId resp
    /\ (exists m,
           In m (history_messages h)
           /\ ChatMessage.sender m = MessageSender.USER
           /\ ChatMessage.content m = chat_content input)
    /\ (exists m,
           In m (history_messages h)
           /\ ChatMessage.sender m = MessageSender.AI
           /\ ChatMessage.id m = resp_messageId resp
           /\ ChatMessage.content m = resp_content resp).
Proof.
  intros run Hok. subst run.
  destruct (chat_turn_returns Hok)
    as (w1 & chat & conversation & text & Hchat & [c Hfind] & Hllm).
  pose proof (chat_turn_run Hchat Hllm) as Hrun. cbv zeta in Hrun.
  rewrite Hrun in Hok |- *. cbn [fst snd] in Hok |- *.
  injection Hok as <-. cbn [resp_chatId resp_messageId resp_content].
  eexists. split.
  { apply getChatHistory_found. exact Hfind. }
  cbn [history_chat history_messages db].
  split; [exact (find_chat_id Hfind)|].
  rewrite !conversation_of_with_message.
  unfold assistant_message, visitor_message.
  cbn [ChatMessage.chatId ChatMessage.id]. rewrite !N.eqb_refl.
  split.
  - eexists. split.
    { apply (Permutation_in _ (Permutation_sym (order_asc_perm _ _))).
      apply in_or_app. left. apply in_or_app. right. left. reflexivity. }
    split; reflexivity.
  - eexists. split.
    { apply (Permutation_in _ (Permutation_sym (order_asc_perm _ _))).
      apply in_or_app. right. left. reflexivity. }
    repeat split.
Qed.

End HistoryRuns.

(* ================================================================= *)
(** ** The further properties on the concrete portfolio *)

(** A search while the model is unreachable. *)
Lemma searchJobs_model_failure_witness :
  fst (searchJobs Demo.engine Demo.unreachable Demo.env_dev Demo.search
         Demo.world)
  = Throw (search_failed Demo.refused)
  /\ db (snd (searchJobs Demo.engine Demo.unreachable Demo.env_dev
                Demo.search Demo.world))
     = Demo.store.
Proof.
  destruct (@searchJobs_model_failure Demo.engine Demo.unreachable
              Demo.env_dev Demo.search Demo.world Demo.refused)
    as (Hrun & Hdb & _).
  - vm_compute; discriminate.
  - vm_compute; discriminate.
  - reflexivity.
  - split; [rewrite Hrun; reflexivity | exact Hdb].
Defined.

(** A search the model answers with an object that wraps the array. *)
Lemma searchJobs_reply_not_iterable_witness :
  not_iterable Sample.wrapped = true
  /\ fst (searchJobs Demo.engine (Demo.replying Sample.wrapped_reply)
            Demo.env_dev Demo.search Demo.world)
     = Throw (search_failed (ErrorObject (lit "jobResults is not iterable"))).
Proof.
  split; [vm_compute; reflexivity|].
  rewrite (@searchJobs_reply_not_iterable Demo.engine
             (Demo.replying Sample.wrapped_reply) Demo.env_dev Demo.search
             Demo.world Sample.wrapped_reply Sample.wrapped).
  - reflexivity.
  - vm_compute; discriminate.
  - vm_compute; discriminate.
  - reflexivity.
  - vm_compute; reflexivity.
  - vm_compute; reflexivity.
Defined.

(** A search the model answers with a job object and a number. *)
Lemma searchJobs_partial_save_witness :
  exists e a,
    searchJobs Demo.engine (Demo.replying Sample.mixed_reply) Demo.env_dev
      Demo.search Demo.world
    = (Throw (search_failed e),
       mkWorld (with_alerts [a] Demo.store)
         [EvLLM (search_prompt Demo.engine Demo.search
                   (skills_of Demo.owner Demo.store)
                   (experiences_of Demo.owner Demo.store))])
    /\ JobAlert.jobTitle a = lit "Prover".
Proof.
  destruct (@searchJobs_partial_save Demo.engine
              (Demo.replying Sample.mixed_reply) Demo.env_dev Demo.search
              Demo.world Sample.mixed_reply [Sample.prover] []
              (JNumber (lit "42")))
    as (e & Hrun & _).
  - vm_compute; discriminate.
  - vm_compute; discriminate.
  - reflexivity.
  - vm_compute; reflexivity.
  - vm_compute; reflexivity.
  - intros i. reflexivity.
  - exists e. eexists. split; [exact Hrun | reflexivity].
Defined.

(** A search the model answers with the empty array. *)
Lemma searchJobs_any_number_of_jobs_witness :
  fst (searchJobs Demo.engine (Demo.replying Sample.empty_array)
         Demo.env_dev Demo.search Demo.world)
  = Ok (JArray [])
  /\ jobAlerts (db (snd (searchJobs Demo.engine
                           (Demo.replying Sample.empty_array)
                           Demo.env_dev Demo.search Demo.world)))
     = [].
Proof.
  destruct (@searchJobs_any_number_of_jobs Demo.engine
              (Demo.replying Sample.empty_array) Demo.env_dev Demo.search
              Demo.world Sample.empty_array [])
    as (Hrun & _).
  - vm_compute; discriminate.
  - vm_compute; discriminate.
  - reflexivity.
  - vm_compute; reflexivity.
  - reflexivity.
  - rewrite Hrun. split; reflexivity.
Defined.

(** A message for a session nobody opened. *)
Lemma chat_unknown_session_witness :
  processChatMessage Demo.engine (Demo.replying Sample.answer) Sample.stray
    Demo.world
  = (Throw (ErrorObject
              (lit "Failed to process chat message: Chat session not found: 000000000000000000000063")),
     Demo.world).
Proof.
  rewrite (@chat_unknown_session Demo.engine (Demo.replying Sample.answer)
             Sample.stray Demo.world 99%N eq_refl eq_refl).
  reflexivity.
Defined.

(** A second message in the session of [Demo.world_with_session]. *)
Lemma chat_turn_on_session_witness :
  fst (processChatMessage Demo.engine (Demo.replying Sample.answer)
         Sample.follow_up Demo.world_with_session)
  = Ok (mkChatResponse (lit "Yes, Ada is open to freelance work.") 20%N 22%N)
  /\ List.length
       (conversation_of 20%N
          (db (snd (processChatMessage Demo.engine
                      (Demo.replying Sample.answer) Sample.follow_up
                      Demo.world_with_session))))
     = 2.
Proof.
  destruct (@chat_turn_on_session Demo.engine (Demo.replying Sample.answer)
              Sample.follow_up Demo.world_with_session 20%N Demo.session
              Sample.answer eq_refl eq_refl eq_refl)
    as (Hresp & Hconv & _).
  split.
  - rewrite Hresp. vm_compute. reflexivity.
  - rewrite Hconv. reflexivity.
Defined.

(** A first message. *)
Lemma chat_first_message_witness :
  fst (processChatMessage Demo.engine (Demo.replying Sample.answer)
         Demo.hello Demo.world)
  = Ok (mkChatResponse (lit "Yes, Ada is open to freelance work.") 20%N 22%N)
  /\ chats (db (snd (processChatMessage Demo.engine
                       (Demo.replying Sample.answer) Demo.hello Demo.world)))
     = [Demo.session].
Proof.
  destruct (@chat_first_message Demo.engine (Demo.replying Sample.answer)
              Demo.hello Demo.world Sample.answer eq_refl eq_refl)
    as (Hresp & Hchats & _).
  split.
  - rewrite Hresp. vm_compute. reflexivity.
  - rewrite Hchats. reflexivity.
Defined.

(** The due-check with every provider unreachable and with every provider
    answering. *)
Lemma reminder_check_ignores_delivery_witness :
  sendReminderNotifications Demo.engine Demo.unreachable Sample.env_prod
    Demo.world
  = sendReminderNotifications Demo.engine (Demo.replying []) Sample.env_prod
      Demo.world.
Proof.
  apply (@reminder_check_ignores_delivery Demo.engine Sample.env_prod
           Demo.unreachable (Demo.replying []) Demo.world).
  reflexivity.
Defined.

(** Two due-checks at the same time. *)
Lemma reminder_check_again_is_idle_witness :
  fst (sendReminderNotifications Demo.engine Demo.unreachable Demo.env_dev
         (snd (sendReminderNotifications Demo.engine Demo.unreachable
                 Demo.env_dev Demo.world)))
  = Ok 0.
Proof.
  rewrite (@reminder_check_again_is_idle Demo.engine Demo.env_dev
             Demo.unreachable Demo.world).
  - reflexivity.
  - vm_compute. discriminate.
Defined.

(** Production with unreachable providers: both senders report the
    failure. *)
Lemma senders_report_delivery_witness :
  fst (sendMail Demo.engine Demo.unreachable Sample.env_prod Demo.mail
         Demo.world) <> Ok true
  /\ fst (sendMail Demo.engine (Demo.replying []) Sample.env_prod Demo.mail
            Demo.world) = Ok true.
Proof.
  split.
  - intros H.
    destruct (@senders_report_delivery_outside_development Demo.engine
                Demo.unreachable Sample.env_prod Demo.mail Demo.sms Demo.world
                eq_refl) as [[Hmail _] _].
    specialize (Hmail H). vm_compute in Hmail. discriminate Hmail.
  - destruct (@senders_report_delivery_outside_development Demo.engine
                (Demo.replying []) Sample.env_prod Demo.mail Demo.sms
                Demo.world eq_refl) as [[_ Hmail] _].
    apply Hmail. reflexivity.
Defined.

(** The HTML part of a text of two lines. *)
Lemma mail_html_part_witness :
  exists m,
    trace (snd (sendMail Demo.engine Demo.unreachable Demo.env_dev Demo.mail
                  Demo.world))
    = [EvSendMail Demo.mail; EvSmtp (transport Demo.engine Demo.env_dev) m]
    /\ msg_html m = lit "First line<br>second line".
Proof.
  destruct (@mail_html_part Demo.engine Demo.unreachable Demo.env_dev
              Demo.mail Demo.world)
    as (m & Htrace & _ & _ & Hhtml).
  exists m. split; [exact Htrace|].
  destruct (Hhtml eq_refl) as (_ & Hlines & _).
  apply (Hlines [lit "First line"; lit "second line"]).
  - repeat constructor; vm_compute; intuition discriminate.
  - reflexivity.
Defined.

(** The five jobs, bare and in fences without tag. *)
Lemma parse_reply_bare_or_untagged_witness :
  parse_reply ([c_lf] ++ Demo.five_jobs_text ++ [c_lf])
  = JSON_parse Demo.five_jobs_text
  /\ parse_reply (fence ++ [c_lf] ++ Demo.five_jobs_text ++ [c_lf] ++ fence)
     = JSON_parse Demo.five_jobs_text.
Proof.
  apply (@parse_reply_bare_or_untagged [c_lf] Demo.five_jobs_text [c_lf]).
  - vm_compute; discriminate.
  - vm_compute; reflexivity.
  - exact all_ws_newline.
  - exact all_ws_newline.
Defined.

Lemma sample_suggestion_accepted :
  accepted_suggestion Sample.calendar Sample.suggestion.
Proof. split; [vm_compute; discriminate | intros i; vm_compute; discriminate]. Defined.

(** A generation the model answers with one suggestion. *)
Lemma generateReminders_creates_and_mails_witness :
  exists created,
    fst (generateReminders Demo.engine (Demo.replying Sample.suggestions_reply)
           Demo.env_dev Sample.audit Sample.calendar Demo.owner Demo.world)
    = Ok created
    /\ List.length created = 1
    /\ reminders
         (db (snd (generateReminders Demo.engine
                     (Demo.replying Sample.suggestions_reply) Demo.env_dev
                     Sample.audit Sample.calendar Demo.owner Demo.world)))
       = reminders Demo.store ++ created.
Proof.
  destruct (@generateReminders_creates_and_mails Demo.engine
              (Demo.replying Sample.suggestions_reply) Demo.env_dev
              Sample.audit Sample.calendar Demo.owner Demo.world
              Sample.suggestions_reply [Sample.suggestion])
    as (created & Hok & Hstore & Hlen & _).
  - reflexivity.
  - vm_compute; reflexivity.
  - constructor; [exact sample_suggestion_accepted | constructor].
  - exists created. split; [exact Hok|]. split; [exact Hlen | exact Hstore].
Defined.

(** A generation the model answers with one suggestion and [null]. *)
Lemma generateReminders_partial_creation_witness :
  (exists e,
      fst (generateReminders Demo.engine
             (Demo.replying Sample.broken_suggestions_reply) Demo.env_dev
             Sample.audit Sample.calendar Demo.owner Demo.world)
      = Throw (reminders_failed e))
  /\ List.length
       (reminders
          (db (snd (generateReminders Demo.engine
                      (Demo.replying Sample.broken_suggestions_reply)
                      Demo.env_dev Sample.audit Sample.calendar Demo.owner
                      Demo.world))))
     = 4.
Proof.
  destruct (@generateReminders_partial_creation Demo.engine
              (Demo.replying Sample.broken_suggestions_reply) Demo.env_dev
              Sample.audit Sample.calendar Demo.owner Demo.world
              Sample.broken_suggestions_reply [Sample.suggestion] JNull [])
    as (Hthrow & Hstore & Hlen & _).
  - reflexivity.
  - vm_compute; reflexivity.
  - constructor; [exact sample_suggestion_accepted | constructor].
  - left; reflexivity.
  - split; [exact Hthrow|].
    rewrite Hstore, length_app, Hlen. reflexivity.
Defined.

(** An application in the name of a user the store does not have. *)
Lemma distributeResume_unknown_user_witness :
  distributeResume Demo.engine (Demo.replying Sample.cover_letter)
    Demo.env_dev (Sample.application 7%N None) Sample.ledger
  = (Ok (mkDistributionResult false
           (lit "Failed to distribute resume: User not found")),
     Sample.ledger).
Proof.
  destruct (@distributeResume_unknown_user Demo.engine
              (Demo.replying Sample.cover_letter) Demo.env_dev
              (Sample.application 7%N None) Sample.ledger eq_refl)
    as [Hres Hledger].
  rewrite (surjective_pairing (distributeResume _ _ _ _ _)).
  rewrite Hres, Hledger. reflexivity.
Defined.

(** An application while the model is unreachable. *)
Lemma distributeResume_model_failure_witness :
  fst (distributeResume Demo.engine Demo.unreachable Demo.env_dev
         (Sample.application Demo.owner (Some 15%N)) Sample.ledger)
  = Ok (mkDistributionResult false
          (lit "Failed to distribute resume: connect ECONNREFUSED"))
  /\ resumeDistributions
       (snd (distributeResume Demo.engine Demo.unreachable Demo.env_dev
               (Sample.application Demo.owner (Some 15%N)) Sample.ledger))
     = [].
Proof.
  destruct (@distributeResume_model_failure Demo.engine Demo.unreachable
              Demo.env_dev (Sample.application Demo.owner (Some 15%N))
              Sample.ledger (User.mk Demo.owner (lit "Ada") None Role.ADMIN)
              Demo.refused eq_refl eq_refl)
    as (Hres & Hdists & _).
  split; [rewrite Hres; reflexivity | exact Hdists].
Defined.

(** An application for a job alert the store does not have. *)
Lemma distributeResume_stale_alert_witness :
  fst (distributeResume Demo.engine (Demo.replying Sample.cover_letter)
         Demo.env_dev (Sample.application Demo.owner (Some 99%N))
         Sample.ledger)
  = Ok (mkDistributionResult false
          (lit "Failed to distribute resume: Record to update not found."))
  /\ List.length
       (resumeDistributions
          (snd (distributeResume Demo.engine
                  (Demo.replying Sample.cover_letter) Demo.env_dev
                  (Sample.application Demo.owner (Some 99%N)) Sample.ledger)))
     = 1
  /\ filter is_mail
       (trace (world
          (snd (distributeResume Demo.engine
                  (Demo.replying Sample.cover_letter) Demo.env_dev
                  (Sample.application Demo.owner (Some 99%N)) Sample.ledger))))
     = [].
Proof.
  destruct (@distributeResume_stale_alert Demo.engine
              (Demo.replying Sample.cover_letter) Demo.env_dev
              (Sample.application Demo.owner (Some 99%N)) Sample.ledger
              (User.mk Demo.owner (lit "Ada") None Role.ADMIN)
              Sample.cover_letter 99%N eq_refl eq_refl eq_refl eq_refl)
    as (Hres & Hdists & _ & _ & Htrace).
  split; [rewrite Hres; reflexivity|].
  split; [rewrite Hdists; reflexivity|].
  rewrite Htrace. reflexivity.
Defined.

(** An application in production while the mail transport refuses every
    message. *)
Lemma distributeResume_reports_success_witness :
  fst (sendMail Demo.engine (Sample.undelivered Sample.cover_letter)
         Sample.env_prod
         (application_mail (Sample.application Demo.owner (Some 15%N))
            (trim Sample.cover_letter))
         Demo.world)
  = Ok false
  /\ fst (distributeResume Demo.engine
            (Sample.undelivered Sample.cover_letter) Sample.env_prod
            (Sample.application Demo.owner (Some 15%N)) Sample.ledger)
     = Ok (mkDistributionResult true
             (lit "Resume and cover letter sent to Acme for the Proof engineer position."))
  /\ map JobAlert.status
       (jobAlerts
          (db (world
             (snd (distributeResume Demo.engine
                     (Sample.undelivered Sample.cover_letter) Sample.env_prod
                     (Sample.application Demo.owner (Some 15%N))
                     Sample.ledger)))))
     = [JobStatus.APPLIED].
Proof.
  destruct (@distributeResume_reports_success Demo.engine
              (Sample.undelivered Sample.cover_letter) Sample.env_prod
              (Sample.application Demo.owner (Some 15%N)) Sample.ledger
              (User.mk Demo.owner (lit "Ada") None Role.ADMIN)
              Sample.cover_letter eq_refl eq_refl)
    as (Hres & _ & _ & _ & _ & Halerts).
  - intros jobAlertId H. injection H as <-. reflexivity.
  - split; [reflexivity|].
    split; [rewrite Hres; reflexivity|].
    rewrite Halerts. reflexivity.
Defined.

(** A first message, then the history of its session. *)
Lemma chat_turn_then_history_witness :
  exists h,
    getChatHistory Sample.timeline 20%N
      (snd (processChatMessage Demo.engine (Demo.replying Sample.answer)
              Demo.hello Demo.world))
    = (Ok h,
       snd (processChatMessage Demo.engine (Demo.replying Sample.answer)
              Demo.hello Demo.world))
    /\ exists m,
         In m (history_messages h)
         /\ ChatMessage.content m = lit "Yes, Ada is open to freelance work.".
Proof.
  destruct (@chat_turn_then_history Demo.engine (Demo.replying Sample.answer)
              Sample.timeline Demo.hello Demo.world
              (mkChatResponse (lit "Yes, Ada is open to freelance work.")
                 20%N 22%N))
    as (h & Hrun & _ & _ & m & Hin & _ & _ & Hcontent).
  - vm_compute; reflexivity.
  - exists h. split; [exact Hrun|]. exists m. split; [exact Hin|exact Hcontent].
Defined.

(** A generation on the eve of the due date, then the due-check. *)
Lemma generated_reminders_are_checked_witness :
  exists r,
    PortfolioReminder.title r = lit "Review skills"
    /\ In r (due_reminders 1706702400000%Z
               (db (snd (generateReminders Demo.engine
                           (Sample.on_the_eve Sample.suggestions_reply)
                           Demo.env_dev Sample.audit Sample.calendar
                           Demo.owner Demo.world)))).
Proof.
  destruct (@generated_reminders_are_checked Demo.engine
              (Sample.on_the_eve Sample.suggestions_reply) Demo.env_dev
              Sample.audit Sample.calendar Demo.owner Demo.world)
    as (created & Hstore & Hdue).
  assert (Hcreated :
            created
            = [PortfolioReminder.mk 20%N (lit "Review skills")
                 (lit "Update the proficiency levels") 1706745600000%Z
                 Priority.HIGH false ReminderCategory.SKILL_UPDATE false]).
  { apply (app_inv_head (reminders (db Demo.world))).
    rewrite <- Hstore. vm_compute. reflexivity. }
  subst created.
  eexists. split; [|apply Hdue; [left; reflexivity | vm_compute; discriminate]].
  reflexivity.
Defined.

(** An application for a job alert the store does not have: a failure,
    and no mail. *)
Lemma distributeResume_always_returns_witness :
  exists r,
    fst (distributeResume Demo.engine (Demo.replying Sample.cover_letter)
           Demo.env_dev (Sample.application Demo.owner (Some 99%N))
           Sample.ledger)
    = Ok r
    /\ result_success r = false.
Proof.
  destruct (@distributeResume_always_returns Demo.engine
              (Demo.replying Sample.cover_letter) Demo.env_dev
              (Sample.application Demo.owner (Some 99%N)) Sample.ledger)
    as (r & Hres & _).
  exists r. split; [exact Hres|].
  vm_compute in Hres. injection Hres as <-. reflexivity.
Defined.

(** Eleven skills and four experiences: ten and three reach the prompt. *)
Lemma cover_letter_uses_top_records_witness :
  List.length (skills_of Demo.owner (db (world Sample.full_ledger))) = 11
  /\ List.length (experiences_of Demo.owner (db (world Sample.full_ledger)))
     = 4
  /\ exists top recent events,
       trace (world
                (snd (distributeResume Demo.engine Demo.unreachable
                        Demo.env_dev (Sample.application Demo.owner None)
                        Sample.full_ledger)))
       = EvLLM
           (resumeDistributionPrompt (lit "Proof engineer") (lit "Acme")
              (lit "Verify things") (lit "Ada")
              (join (lit ", ") (map Skill.name top))
              (join [c_lf; c_lf] (map resume_experience recent)))
         :: events
       /\ List.length top = 10
       /\ List.length recent = 3.
Proof.
  split; [reflexivity|]. split; [reflexivity|].
  destruct (@cover_letter_uses_top_records Demo.engine Demo.unreachable
              Demo.env_dev (Sample.application Demo.owner None)
              Sample.full_ledger
              (User.mk Demo.owner (lit "Ada") None Role.ADMIN) eq_refl)
    as (top & others & recent & older & events & Htrace & _ & Htop & _ & _
        & _ & Hrecent & _).
  exists top, recent, events.
  split; [exact Htrace|]. split; [exact Htop | exact Hrecent].
Defined.
